(** * tidecv/helpers.py: importer, subset filter and consistency enlarger

    A shallow embedding of [json_to_Data], [create_filtered_Data],
    [enlarge_dataset_to_respect_TIDE] and [filter_dataset_to_label].  The
    Python code works on dictionaries that are mutated in place and shared
    between containers, so the embedding keeps an explicit store of objects:
    an annotation is a location of the store, [copy] allocates a new
    dictionary with the same field values, and an item assignment updates the
    dictionary found at a location. *)

From Stdlib Require Import ZArith PrimFloat.
From stdpp Require Import gmap strings list fin_maps pretty sorting.

(** ** Python values and objects *)

Definition loc := nat.

(** Immediate values, and references to the mutable objects of the store. *)
Inductive pyval :=
  | VNone
  | VBool (b : bool)
  | VInt (z : Z)
  | VFloat (f : float)
  | VStr (s : string)
  | VRef (l : loc).

(** The mutable objects: dictionaries with string keys, and lists. *)
Inductive pyobj :=
  | ODict (d : gmap string pyval)
  | OList (xs : list pyval).

Abbreviation heap := (list pyobj).

(** Exceptions.  [KeyError k]: subscript of a dictionary without the key [k].
    [TypeError]: an operation applied to an object that does not support it.
    [AttributeError]: [.get] on something that is not a dictionary.
    [OutOfModel]: the value is legal Python but outside the typed fragment
    embedded here (ids and classes are ints, image ids are ints or strings),
    or a reference is dangling. *)
Inductive pyerr :=
  | KeyError (k : string)
  | TypeError
  | AttributeError
  | OutOfModel.

Inductive result (A : Type) :=
  | Ok (a : A)
  | Raise (e : pyerr).
Arguments Ok {A} a.
Arguments Raise {A} e.

(** Computations read and update the store, or raise. *)
Definition M (A : Type) : Type := heap → result (A * heap).

Definition ret {A} (a : A) : M A := λ h, Ok (a, h).

Definition bind {A B} (m : M A) (f : A → M B) : M B := λ h,
  match m h with
  | Ok (a, h') => f a h'
  | Raise e => Raise e
  end.

Notation "'let*' x ':=' m 'in' k" := (bind m (λ x, k))
  (at level 10, x pattern, m at level 100, k at level 200, only parsing).

Definition raise {A} (e : pyerr) : M A := λ _, Raise e.

Definition load (l : loc) : M pyobj := λ h,
  match h !! l with
  | Some o => Ok (o, h)
  | None => Raise OutOfModel
  end.

Definition alloc (o : pyobj) : M loc := λ h, Ok (length h, h ++ [o]).

Definition store (l : loc) (o : pyobj) : M unit := λ h, Ok (tt, <[l := o]> h).

(** [v[k]] for a string [k]. *)
Definition subscript (v : pyval) (k : string) : M pyval :=
  match v with
  | VRef l =>
      let* o := load l in
      match o with
      | ODict d =>
          match d !! k with
          | Some x => ret x
          | None => raise (KeyError k)
          end
      | OList _ => raise TypeError
      end
  | _ => raise TypeError
  end.

(** [ann[k]] where [ann] is an element of an annotation list. *)
Definition getitem (ann : loc) (k : string) : M pyval := subscript (VRef ann) k.

(** [ann[k] = v]. *)
Definition setitem (ann : loc) (k : string) (v : pyval) : M unit :=
  let* o := load ann in
  match o with
  | ODict d => store ann (ODict (<[k := v]> d))
  | OList _ => raise TypeError
  end.

(** [copy(ann)]: a new object with the same items; the items themselves are
    not copied, so a field holding a reference still points to the same
    object. *)
Definition copy (ann : loc) : M loc := let* o := load ann in alloc o.

(** [k in v] for a string [k]. *)
Definition contains (k : string) (v : pyval) : M bool :=
  match v with
  | VRef l =>
      let* o := load l in
      match o with
      | ODict d => ret (bool_decide (k ∈ dom d))
      | OList xs =>
          ret (existsb (λ x, match x with
                              | VStr s => bool_decide (s = k)
                              | _ => false
                              end) xs)
      end
  | VStr _ => raise OutOfModel
  | _ => raise TypeError
  end.

(** [v.get(k)]: the item, or [None] when the key is absent. *)
Definition dict_get (v : pyval) (k : string) : M pyval :=
  match v with
  | VRef l =>
      let* o := load l in
      match o with
      | ODict d => ret (default VNone (d !! k))
      | OList _ => raise AttributeError
      end
  | _ => raise AttributeError
  end.

(** Truth value of [v] in a condition. *)
Definition truthy (v : pyval) : M bool :=
  match v with
  | VNone => ret false
  | VBool b => ret b
  | VInt z => ret (negb (Z.eqb z 0))
  | VFloat f => ret (negb (PrimFloat.eqb f 0%float))
  | VStr s => ret (negb (bool_decide (s = "")))
  | VRef l =>
      let* o := load l in
      match o with
      | ODict d => ret (negb (bool_decide (d = ∅)))
      | OList xs => ret (negb (bool_decide (xs = [])))
      end
  end.

(** The ids kept in sets and maps are Python ints. *)
Definition as_int (v : pyval) : M Z :=
  match v with
  | VInt z => ret z
  | _ => raise OutOfModel
  end.

(** [v in s] for a set [s] of ints.  [True == 1] and [False == 0] in Python;
    [None] and strings are equal to no int; an object reference is
    unhashable. *)
Definition in_ids (v : pyval) (s : gset Z) : M bool :=
  match v with
  | VInt z => ret (bool_decide (z ∈ s))
  | VBool b => ret (bool_decide (Z.b2z b ∈ s))
  | VNone | VStr _ => ret false
  | VFloat _ => raise OutOfModel
  | VRef _ => raise TypeError
  end.

(** Image ids used as dictionary keys: ints or strings. *)
Inductive key :=
  | KInt (z : Z)
  | KStr (s : string).

#[global] Instance key_eq_dec : EqDecision key.
Proof. solve_decision. Defined.

#[global] Instance key_countable : Countable key.
Proof.
  refine (inj_countable'
            (λ k, match k with KInt z => inl z | KStr s => inr s end)
            (λ x, match x with inl z => KInt z | inr s => KStr s end) _).
  by intros [].
Defined.

Definition as_key (v : pyval) : M key :=
  match v with
  | VInt z => ret (KInt z)
  | VStr s => ret (KStr s)
  | VRef _ => raise TypeError
  | _ => raise OutOfModel
  end.

(** ** Loops *)

(** [[x for x in l if c(x)]]. *)
Fixpoint filterM (c : loc → M bool) (l : list loc) : M (list loc) :=
  match l with
  | [] => ret []
  | x :: l' =>
      let* b := c x in
      let* r := filterM c l' in
      ret (if b then x :: r else r)
  end.

(** [for i, x in enumerate(l): s = body(i, x, s)], counting from [i]. *)
Fixpoint for_enum {St} (body : nat → loc → St → M St) (i : nat)
    (l : list loc) (s : St) : M St :=
  match l with
  | [] => ret s
  | x :: l' => let* s' := body i x s in for_enum body (S i) l' s'
  end.

(** [for x in l: s = body(x, s)]. *)
Definition for_each {St} (body : loc → St → M St)
  : list loc → St → M St :=
  for_enum (λ _, body) 0.

(** [[f(x) for x in l]]. *)
Fixpoint mapL {B} (f : loc → M B) (l : list loc) : M (list B) :=
  match l with
  | [] => ret []
  | x :: l' => let* y := f x in let* r := mapL f l' in ret (y :: r)
  end.

(** ** The indexed dataset *)

(** An entry of [Data.images]. *)
Record image := Image { img_name : string; anns : list Z }.

(** Modelled from the spec: the class [Data] of [tidecv/data.py] is not among
    the sources.  Per the spec's data model it is a named container of an
    ordered annotation sequence, a mapping from class id to label and a mapping
    from image id to a record [{name, anns}]; [Data(name=...)] starts with all
    three empty, and [images[i]] creates the entry for [i] on first use. *)
Record Data := mkData {
  name : string;
  annotations : list loc;
  classes : gmap Z string;
  images : gmap key image;
}.

(** [f"Class {i}"] and [f"Image {i}"]. *)
Definition class_label (c : Z) : string := "Class " +:+ pretty c.

Definition image_name (k : key) : string :=
  "Image " +:+ match k with KInt z => pretty z | KStr s => s end.

(** [for i in sorted({...}): classes[i] = f"Class {i}"] on an empty mapping. *)
Definition build_classes (cls : list Z) : gmap Z string :=
  foldl (λ m c, <[c := class_label c]> m) ∅
        (merge_sort Z.le (elements (list_to_set cls : gset Z))).

(** [image_ids[k].append(id)] on a [defaultdict(list)]. *)
Definition append_id (k : key) (id : Z) (m : gmap key (list Z))
  : gmap key (list Z) :=
  <[k := default [] (m !! k) ++ [id]]> m.

(** [for i, anns in image_ids.items(): images[i]["name"] = f"Image {i}";
    images[i]["anns"] = anns] on an empty mapping. *)
Definition build_images (image_ids : gmap key (list Z)) : gmap key image :=
  map_imap (λ k ids, Some (Image (image_name k) ids)) image_ids.

(** ** [create_filtered_Data] *)

Definition create_filtered_Data (data : Data) (ids_keep : gset Z)
    (data_name : string) : M (Data * gmap nat Z) :=
  let* selected :=
    filterM (λ ann, let* v := getitem ann "_id" in in_ids v ids_keep)
            (annotations data) in
  let* (new_id_to_old_id, annotations) :=
    for_enum (λ i ann '(n2o, acc),
                let* v := getitem ann "_id" in
                let* old := as_int v in
                let* new_ann := copy ann in
                let* _ := setitem new_ann "_id" (VInt (Z.of_nat i)) in
                ret (<[i := old]> n2o, acc ++ [new_ann]))
             0 selected (∅, []) in
  let* cls :=
    mapL (λ ann, let* v := getitem ann "class" in as_int v) annotations in
  let* image_ids :=
    for_enum (λ _ ann m,
                let* kv := getitem ann "image_id" in
                let* k := as_key kv in
                let* v := getitem ann "_id" in
                let* id := as_int v in
                ret (append_id k id m))
             0 annotations ∅ in
  ret (mkData data_name annotations (build_classes cls)
              (build_images image_ids),
       new_id_to_old_id).

Definition filtered_data : string := "filtered_data".

(** ** [json_to_Data]

    [data] is the list that [json.load] returned: the records are
    dictionaries of the store, and the two annotation lists hold references to
    them, so a record selected for both lists is one object. *)

Definition json_to_Data (data : list loc) : M (Data * Data) :=
  (* Create GTs Data *)
  let* gt_annotations :=
    filterM (λ ann, let* v := getitem ann "is_gold" in truthy v) data in
  let* gt_image_ids :=
    for_enum (λ i ann m,
                let* _ := setitem ann "_id" (VInt (Z.of_nat i)) in
                let* _ := setitem ann "mask" VNone in
                let* _ := setitem ann "ignore" (VBool false) in
                let* g := getitem ann "gold" in
                let* _ := setitem ann "class" g in
                let* b := getitem ann "bbox_xywh" in
                let* _ := setitem ann "bbox" b in
                let* kv := getitem ann "image_id" in
                let* k := as_key kv in
                let* v := getitem ann "_id" in
                let* id := as_int v in
                ret (append_id k id m))
             0 gt_annotations ∅ in
  let* gt_cls :=
    mapL (λ ann, let* v := getitem ann "class" in as_int v) gt_annotations in
  let gts := mkData "test_gt" gt_annotations (build_classes gt_cls)
                    (build_images gt_image_ids) in
  (* Create Preds *)
  let* pred_annotations :=
    filterM (λ ann, let* v := getitem ann "is_pred" in truthy v) data in
  let* pred_image_ids :=
    for_enum (λ i pred m,
                let* _ := setitem pred "_id" (VInt (Z.of_nat i)) in
                let* _ := setitem pred "mask" VNone in
                let* _ := setitem pred "ignore" (VBool false) in
                let* c := getitem pred "pred" in
                let* _ := setitem pred "class" c in
                let* s := getitem pred "confidence" in
                let* _ := setitem pred "score" s in
                let* b := getitem pred "bbox_xywh" in
                let* _ := setitem pred "bbox" b in
                let* kv := getitem pred "image_id" in
                let* k := as_key kv in
                let* v := getitem pred "_id" in
                let* id := as_int v in
                ret (append_id k id m))
             0 pred_annotations ∅ in
  let* pred_cls :=
    mapL (λ pred, let* v := getitem pred "class" in as_int v)
         pred_annotations in
  let preds := mkData "test_pred" pred_annotations (build_classes pred_cls)
                      (build_images pred_image_ids) in
  ret (gts, preds).

(** ** [enlarge_dataset_to_respect_TIDE] *)

(** [{pred['info']['matched_with'] for pred in preds.annotations
      if "matched_with" in pred['info'] and pred["_id"] in preds_keep}] *)
Definition assoc_gts_of (preds : Data) (preds_keep : gset Z) : M (gset Z) :=
  for_each (λ pred (acc : gset Z),
              let* info := getitem pred "info" in
              let* has := contains "matched_with" info in
              let* cond :=
                if has
                then let* v := getitem pred "_id" in in_ids v preds_keep
                else ret false in
              if cond
              then let* info := getitem pred "info" in
                   let* mw := subscript info "matched_with" in
                   let* g := as_int mw in
                   ret (acc ∪ {[g]})
              else ret acc)
           (annotations preds) ∅.

(** [{pred['_id'] for pred in preds.annotations
      if pred['info'].get("matched_with") in filetered_gts}] *)
Definition assoc_preds_of (preds : Data) (filetered_gts : gset Z)
  : M (gset Z) :=
  for_each (λ pred (acc : gset Z),
              let* info := getitem pred "info" in
              let* mw := dict_get info "matched_with" in
              let* cond := in_ids mw filetered_gts in
              if cond
              then let* v := getitem pred "_id" in
                   let* p := as_int v in
                   ret (acc ∪ {[p]})
              else ret acc)
           (annotations preds) ∅.

Definition enlarge_dataset_to_respect_TIDE (gts preds : Data)
    (gts_keep preds_keep : gset Z)
  : M (Data * Data * gmap nat Z * gmap nat Z) :=
  (* Add GTs *)
  let* assoc_gts := assoc_gts_of preds preds_keep in
  (* Add Preds *)
  let filetered_gts := gts_keep ∪ assoc_gts in
  let* assoc_preds := assoc_preds_of preds filetered_gts in
  let filetered_preds := assoc_preds ∪ preds_keep in
  (* Enlarge them *)
  let* (gts_enlarged, gts_new_id_to_old_id) :=
    create_filtered_Data gts filetered_gts filtered_data in
  let* (preds_enlarged, preds_new_it_to_old_id) :=
    create_filtered_Data preds filetered_preds filtered_data in
  ret (gts_enlarged, preds_enlarged, gts_new_id_to_old_id,
       preds_new_it_to_old_id).

(** ** [filter_dataset_to_label] *)

(** [v == c] for an int [c].  [True == 1] and [False == 0]; [None], strings
    and containers are equal to no int; comparing a float with an int is
    outside the model. *)
Definition eq_int (v : pyval) (c : Z) : M bool :=
  match v with
  | VInt z => ret (Z.eqb z c)
  | VBool b => ret (Z.eqb (Z.b2z b) c)
  | VFloat _ => raise OutOfModel
  | _ => ret false
  end.

(** [{ann["_id"] for ann in data.annotations if ann["class"] == cls_id}] *)
Definition class_ids_of (data : Data) (cls_id : Z) : M (gset Z) :=
  for_each (λ ann (acc : gset Z),
              let* c := getitem ann "class" in
              let* cond := eq_int c cls_id in
              if cond
              then let* v := getitem ann "_id" in
                   let* i := as_int v in
                   ret (acc ∪ {[i]})
              else ret acc)
           (annotations data) ∅.

Definition filter_dataset_to_label (gts preds : Data) (cls_id : Z)
  : M (Data * Data) :=
  let* gts_ids := class_ids_of gts cls_id in
  let* preds_ids := class_ids_of preds cls_id in
  let* (gts_filtered, _) :=
    create_filtered_Data gts gts_ids filtered_data in
  let* (preds_filtered, _) :=
    create_filtered_Data preds preds_ids filtered_data in
  ret (gts_filtered, preds_filtered).

(** ** Reading the store *)

Definition dict_at (h : heap) (l : loc) : option (gmap string pyval) :=
  match h !! l with
  | Some (ODict d) => Some d
  | _ => None
  end.

Definition field (h : heap) (l : loc) (k : string) : option pyval :=
  dict_at h l ≫= (.!! k).

Definition int_of (v : pyval) : option Z :=
  match v with VInt z => Some z | _ => None end.

Definition key_of (v : pyval) : option key :=
  match v with
  | VInt z => Some (KInt z)
  | VStr s => Some (KStr s)
  | _ => None
  end.

Definition ann_id (h : heap) (l : loc) : option Z := field h l "_id" ≫= int_of.
Definition ann_class (h : heap) (l : loc) : option Z :=
  field h l "class" ≫= int_of.
Definition ann_image (h : heap) (l : loc) : option key :=
  field h l "image_id" ≫= key_of.

(** The annotation at [l] is a dictionary with an int [_id], an int [class]
    and an [image_id] usable as a key. *)
Definition wf_ann (h : heap) (l : loc) : Prop :=
  is_Some (ann_id h l) ∧ is_Some (ann_class h l) ∧ is_Some (ann_image h l).

(** ** The vocabulary of the statements *)

(** Total readers, for annotations known to be well formed. *)
Definition id_of (h : heap) (l : loc) : Z := default 0%Z (ann_id h l).
Definition class_of (h : heap) (l : loc) : Z := default 0%Z (ann_class h l).
Definition image_of (h : heap) (l : loc) : key :=
  default (KInt 0) (ann_image h l).

(** [ann["_id"] in ids_keep], read off the store. *)
Definition kept (h : heap) (keep : gset Z) (l : loc) : bool :=
  match ann_id h l with
  | Some i => bool_decide (i ∈ keep)
  | None => false
  end.

(** The copy of the [j]-th selected annotation, renumbered from [i]. *)
Definition renumbered (h : heap) (i : nat) (sel : list loc) : list pyobj :=
  imap (λ j l, ODict (<["_id" := VInt (Z.of_nat (i + j))]>
                        (default ∅ (dict_at h l)))) sel.

(** The grouping that the [defaultdict(list)] loop computes. *)
Definition group_ids (kis : list (key * Z)) (m : gmap key (list Z))
  : gmap key (list Z) :=
  foldl (λ m ki, append_id ki.1 ki.2 m) m kis.

(** [[ann for ann in data.annotations if ann["_id"] in ids_keep]] *)
Definition selected (h : heap) (d : Data) (keep : gset Z) : list loc :=
  filter (λ l, kept h keep l) (annotations d).

(** [classes] and [images] as the two closing loops of the function build
    them from an annotation list read in the store [h]. *)
Definition rebuilt_classes (h : heap) (ls : list loc) : gmap Z string :=
  build_classes (class_of h <$> ls).

Definition rebuilt_images (h : heap) (ls : list loc) : gmap key image :=
  build_images (group_ids ((λ l, (image_of h l, id_of h l)) <$> ls) ∅).

(** The store after the call, and the dataset and renumbering returned. *)
Definition filtered_heap (h : heap) (d : Data) (keep : gset Z) : heap :=
  h ++ renumbered h 0 (selected h d keep).

Definition filtered (h : heap) (d : Data) (keep : gset Z) (nm : string)
  : Data * gmap nat Z :=
  let sel := selected h d keep in
  let new := seq (length h) (length sel) in
  (mkData nm new
          (rebuilt_classes (filtered_heap h d keep) new)
          (rebuilt_images (filtered_heap h d keep) new),
   map_seq 0 (id_of h <$> sel)).

(** The ids grouped under the key [k], in the order of the list. *)
Definition ids_at (k : key) (kis : list (key * Z)) : list Z :=
  (filter (λ ki, ki.1 = k) kis).*2.

(** Invariants 1 to 3 of the data model, for the dataset [d] read in the store
    [h]: every annotation is a well-formed dictionary whose [_id] is its
    position in [annotations]; the ids listed under [images] are ids of
    annotations, and every annotation is listed under its own image; the keys
    of [classes] are the classes of the annotations. *)
Record Invariants (h : heap) (d : Data) : Prop := mkInvariants {
  inv_wf : Forall (wf_ann h) (annotations d);
  inv_ids : ∀ i l,
    annotations d !! i = Some l → ann_id h l = Some (Z.of_nat i);
  inv_images_sound : ∀ k img id,
    images d !! k = Some img → id ∈ anns img →
    ∃ l, l ∈ annotations d ∧ ann_id h l = Some id;
  inv_images_complete : ∀ l,
    l ∈ annotations d →
    ∃ img, images d !! image_of h l = Some img ∧ id_of h l ∈ anns img;
  inv_classes : ∀ c,
    c ∈ dom (classes d) ↔ ∃ l, l ∈ annotations d ∧ ann_class h l = Some c;
}.

(** Invariant 2 in its exact form: [images] has an entry for an image id iff
    some annotation belongs to that image, and the entry lists, once each, the
    ids of the annotations of that image and nothing else. *)
Definition images_exact (h : heap) (d : Data) : Prop :=
  (∀ k, k ∈ dom (images d) ↔
        ∃ l, l ∈ annotations d ∧ ann_image h l = Some k) ∧
  (∀ k img, images d !! k = Some img →
     NoDup (anns img) ∧
     ∀ id, id ∈ anns img ↔
           ∃ l, l ∈ annotations d ∧ ann_image h l = Some k ∧
                ann_id h l = Some id).

(** The [_id]s of the dataset. *)
Definition dataset_ids (h : heap) (d : Data) : gset Z :=
  list_to_set (id_of h <$> annotations d).

(** The set {0, …, N-1}. *)
Definition full_ids (N : nat) : gset Z := list_to_set (Z.of_nat <$> seq 0 N).

(** The mutable objects a dataset holds on to: its annotation dictionaries and
    the objects that their fields refer to. *)
Definition holds_ref (h : heap) (d : Data) (o : loc) : Prop :=
  o ∈ annotations d ∨
  ∃ l k, l ∈ annotations d ∧ field h l k = Some (VRef o).

Definition shares_no_state (h : heap) (d d' : Data) : Prop :=
  ∀ o, ¬ (holds_ref h d o ∧ holds_ref h d' o).

(** The [info] mapping of a prediction, and the ground truth it links to. *)
Definition info_of (h : heap) (l : loc) : option (gmap string pyval) :=
  match field h l "info" with
  | Some (VRef il) => dict_at h il
  | _ => None
  end.

Definition matched_with (h : heap) (l : loc) : option Z :=
  info_of h l ≫= (λ im, im !! "matched_with" ≫= int_of).

(** A prediction with an [info] mapping whose [matched_with], when present, is
    an int. *)
Definition wf_pred (h : heap) (l : loc) : Prop :=
  wf_ann h l ∧
  ∃ im, info_of h l = Some im ∧
        ∀ v, im !! "matched_with" = Some v → is_Some (int_of v).

(** A prediction without the key [info]. *)
Definition lacks_info (h : heap) (l : loc) : Prop :=
  wf_ann h l ∧ field h l "info" = None.

(** [matched_with] in [fg], read off the store. *)
Definition linked (h : heap) (fg : gset Z) (l : loc) : bool :=
  match matched_with h l with
  | Some g => bool_decide (g ∈ fg)
  | None => false
  end.

Definition assoc_gts_set (h : heap) (ls : list loc) (pk : gset Z) : gset Z :=
  list_to_set (omap (matched_with h) (filter (λ l, kept h pk l) ls)).

Definition assoc_preds_set (h : heap) (ls : list loc) (fg : gset Z) : gset Z :=
  list_to_set (id_of h <$> filter (λ l, linked h fg l) ls).

(** The two enlarged id sets, read off the store. *)
Definition enlarged_gts (h : heap) (preds : Data) (gk pk : gset Z) : gset Z :=
  gk ∪ assoc_gts_set h (annotations preds) pk.

Definition enlarged_preds (h : heap) (preds : Data) (gk pk : gset Z)
  : gset Z :=
  assoc_preds_set h (annotations preds) (enlarged_gts h preds gk pk) ∪ pk.

(** Equality of two datasets as Python values: equal names, classes and
    images, and annotation lists whose dictionaries are equal one by one. *)
Definition same_dataset (h1 : heap) (d1 : Data) (h2 : heap) (d2 : Data)
  : Prop :=
  name d1 = name d2 ∧ classes d1 = classes d2 ∧ images d1 = images d2 ∧
  dict_at h1 <$> annotations d1 = dict_at h2 <$> annotations d2.

(** The ids that a first run of the enlarger returns: the values of its two
    maps. *)
Definition fix_G (h : heap) (gts preds : Data) (gk pk : gset Z) : gset Z :=
  enlarged_gts h preds gk pk ∩ dataset_ids h gts.

Definition fix_P (h : heap) (preds : Data) (gk pk : gset Z) : gset Z :=
  enlarged_preds h preds gk pk ∩ dataset_ids h preds.

(** What the loops of the importer write into the [i]-th record of their
    list: the ground-truth loop, then the prediction loop. *)
Definition gt_update (i : nat) (d : gmap string pyval) : gmap string pyval :=
  let d := <["_id" := VInt (Z.of_nat i)]> d in
  let d := <["mask" := VNone]> d in
  let d := <["ignore" := VBool false]> d in
  let d := <["class" := default VNone (d !! "gold")]> d in
  <["bbox" := default VNone (d !! "bbox_xywh")]> d.

Definition pred_update (i : nat) (d : gmap string pyval)
  : gmap string pyval :=
  let d := <["_id" := VInt (Z.of_nat i)]> d in
  let d := <["mask" := VNone]> d in
  let d := <["ignore" := VBool false]> d in
  let d := <["class" := default VNone (d !! "pred")]> d in
  let d := <["score" := default VNone (d !! "confidence")]> d in
  <["bbox" := default VNone (d !! "bbox_xywh")]> d.

(** The store after a loop that rewrites in place, one after the other, the
    dictionaries at [ls], counting from [i]. *)
Fixpoint mutate (upd : nat → gmap string pyval → gmap string pyval)
    (i : nat) (ls : list loc) (h : heap) : heap :=
  match ls with
  | [] => h
  | l :: ls' =>
      mutate upd (S i) ls'
             (<[l := ODict (upd i (default ∅ (dict_at h l)))]> h)
  end.

(** [ann[tag]] is [True]. *)
Definition has_tag (h : heap) (tag : string) (l : loc) : bool :=
  match field h l tag with
  | Some (VBool b) => b
  | _ => false
  end.

(** The fields that the ground-truth loop, and the prediction loop, read. *)
Definition gt_fields (d : gmap string pyval) : Prop :=
  is_Some (d !! "image_id" ≫= key_of) ∧ is_Some (d !! "bbox_xywh") ∧
  is_Some (d !! "gold" ≫= int_of).

Definition pred_fields (d : gmap string pyval) : Prop :=
  is_Some (d !! "image_id" ≫= key_of) ∧ is_Some (d !! "bbox_xywh") ∧
  is_Some (d !! "pred" ≫= int_of) ∧ is_Some (d !! "confidence").

(** A record with boolean tags, not both true, that has the fields its tag
    asks for. *)
Definition record_ok (h : heap) (l : loc) : Prop :=
  ∃ d (g p : bool),
    dict_at h l = Some d ∧
    d !! "is_gold" = Some (VBool g) ∧ d !! "is_pred" = Some (VBool p) ∧
    g && p = false ∧
    (g = true → gt_fields d) ∧ (p = true → pred_fields d).

(** The truth value of an immediate value in a condition. *)
Definition truth (v : pyval) : option bool :=
  match v with
  | VNone => Some false
  | VBool b => Some b
  | VInt z => Some (negb (Z.eqb z 0))
  | VFloat f => Some (negb (PrimFloat.eqb f 0%float))
  | VStr s => Some (negb (bool_decide (s = "")))
  | VRef _ => None
  end.

(** [ann[tag]] holds in a condition. *)
Definition tagged (h : heap) (tag : string) (l : loc) : bool :=
  default false (field h l tag ≫= truth).

(** A record whose two tags are immediate values and that has the fields
    that each of its tags asks for; it may carry both tags. *)
Definition record_fields (h : heap) (l : loc) : Prop :=
  ∃ d, dict_at h l = Some d ∧
       is_Some (d !! "is_gold" ≫= truth) ∧
       is_Some (d !! "is_pred" ≫= truth) ∧
       (tagged h "is_gold" l → gt_fields d) ∧
       (tagged h "is_pred" l → pred_fields d).

(** The keys that the two loops of the importer assign. *)
Definition written : list string :=
  ["_id"; "mask"; "ignore"; "class"; "bbox"; "score"].

(** The ids of the annotations of class [c], read off the store. *)
Definition has_class (h : heap) (c : Z) (l : loc) : bool :=
  match ann_class h l with
  | Some c' => Z.eqb c' c
  | None => false
  end.

Definition class_ids_set (h : heap) (ls : list loc) (c : Z) : gset Z :=
  list_to_set (id_of h <$> filter (λ l, has_class h c l) ls).

(** The old ids of the annotations whose new id is in [keep]: what a set of
    ids of the filtered dataset stands for in the dataset it came from. *)
Definition old_ids (new_id_to_old_id : gmap nat Z) (keep : gset Z) : gset Z :=
  map_img (filter (λ p, Z.of_nat p.1 ∈ keep) new_id_to_old_id).

(** ** A sample pair of datasets

    Two ground truths on the images "a" and "b"; three predictions, two of
    them matched with ground truth 0 and one unmatched. *)

Definition sample_heap : heap :=
  [ ODict (<["_id" := VInt 0]> (<["class" := VInt 1]>
             (<["image_id" := VStr "a"]> ∅)));
    ODict (<["_id" := VInt 1]> (<["class" := VInt 2]>
             (<["image_id" := VStr "b"]> ∅)));
    ODict (<["_id" := VInt 0]> (<["class" := VInt 1]>
             (<["image_id" := VStr "a"]> (<["info" := VRef 5]> ∅))));
    ODict (<["_id" := VInt 1]> (<["class" := VInt 1]>
             (<["image_id" := VStr "a"]> (<["info" := VRef 6]> ∅))));
    ODict (<["_id" := VInt 2]> (<["class" := VInt 2]>
             (<["image_id" := VStr "b"]> (<["info" := VRef 7]> ∅))));
    ODict (<["matched_with" := VInt 0]> ∅);
    ODict (<["matched_with" := VInt 0]> ∅);
    ODict ∅ ].

Definition sample_gts : Data :=
  mkData "gts" [0; 1] (rebuilt_classes sample_heap [0; 1])
         (rebuilt_images sample_heap [0; 1]).

Definition sample_preds : Data :=
  mkData "preds" [2; 3; 4] (rebuilt_classes sample_heap [2; 3; 4])
         (rebuilt_images sample_heap [2; 3; 4]).

(** A dataset with one annotation of class 0 on the image "a", whose class
    carries the label "cat" and whose image is named "a.jpg". *)
Definition cat_heap : heap :=
  [ ODict (<["_id" := VInt 0]> (<["class" := VInt 0]>
             (<["image_id" := VStr "a"]> ∅))) ].

Definition cat_data : Data :=
  mkData "cats" [0] {[ 0%Z := "cat" ]} {[ KStr "a" := Image "a.jpg" [0%Z] ]}.

(** A second sample: the prediction at location 3 has no [info]. *)
Definition noinfo_heap : heap :=
  <[3 := ODict (<["_id" := VInt 1]> (<["class" := VInt 1]>
                  (<["image_id" := VStr "a"]> ∅)))]> sample_heap.

(** The store after [json.load] of the two records
    [{id: 1, is_gold: true, is_pred: false, gold: 5, image_id: "a",
      bbox_xywh: [0, 0, 1, 1]}] and
    [{id: 2, is_gold: false, is_pred: true, pred: 5, image_id: "a",
      bbox_xywh: [0, 0, 1, 1], confidence: 0.9, info: {matched_with: 0}}];
    the float is the binary64 value of the literal 0.9. *)
Definition scenario_heap : heap :=
  [ ODict (<["id" := VInt 1]> (<["is_gold" := VBool true]>
             (<["is_pred" := VBool false]> (<["gold" := VInt 5]>
                (<["image_id" := VStr "a"]>
                   (<["bbox_xywh" := VRef 1]> ∅))))));
    OList [VInt 0; VInt 0; VInt 1; VInt 1];
    ODict (<["id" := VInt 2]> (<["is_gold" := VBool false]>
             (<["is_pred" := VBool true]> (<["pred" := VInt 5]>
                (<["image_id" := VStr "a"]> (<["bbox_xywh" := VRef 3]>
                   (<["confidence" := VFloat 0x1.ccccccccccccdp-1]>
                      (<["info" := VRef 4]> ∅))))))));
    OList [VInt 0; VInt 0; VInt 1; VInt 1];
    ODict (<["matched_with" := VInt 0]> ∅) ].

Definition scenario_data : list loc := [0; 2].

(** The store after [json.load] of a gold record followed by a record that is
    both gold (label 1) and a prediction (label 2). *)
Definition both_heap : heap :=
  [ ODict (<["is_gold" := VBool true]> (<["is_pred" := VBool false]>
             (<["gold" := VInt 1]> (<["image_id" := VStr "a"]>
                (<["bbox_xywh" := VRef 1]> ∅)))));
    OList [VInt 0; VInt 0; VInt 1; VInt 1];
    ODict (<["is_gold" := VBool true]> (<["is_pred" := VBool true]>
             (<["gold" := VInt 1]> (<["pred" := VInt 2]>
                (<["confidence" := VFloat 0.5]>
                   (<["image_id" := VStr "a"]>
                      (<["bbox_xywh" := VRef 3]> ∅)))))));
    OList [VInt 0; VInt 0; VInt 1; VInt 1] ].

Definition both_data : list loc := [0; 2].

(** A dataset whose second annotation has an [_id] and nothing else. *)
Definition partial_heap : heap :=
  [ ODict (<["_id" := VInt 0]> (<["class" := VInt 1]>
             (<["image_id" := VStr "a"]> ∅)));
    ODict (<["_id" := VInt 1]> ∅) ].

Definition partial_data : Data := mkData "partial" [0; 1] ∅ ∅.

(** A gold record without the field [gold]. *)
Definition unlabelled_heap : heap :=
  [ ODict (<["is_gold" := VBool true]> (<["is_pred" := VBool false]>
             (<["image_id" := VStr "a"]> ∅))) ].

(** * Proofs *)

(** ** Running the primitives *)

Section run.
Context {A B : Type}.
Implicit Types (h : heap) (l : loc) (k : string).

Lemma bind_ok (m : M A) (f : A → M B) h a h' :
  m h = Ok (a, h') → bind m f h = f a h'.
Proof. unfold bind. by intros ->. Qed.

Lemma bind_raise (m : M A) (f : A → M B) h e :
  m h = Raise e → bind m f h = Raise e.
Proof. unfold bind. by intros ->. Qed.
End run.

Lemma dict_at_Some h l d : dict_at h l = Some d ↔ h !! l = Some (ODict d).
Proof.
  unfold dict_at. destruct (h !! l) as [[]|]; split; congruence.
Qed.

Lemma field_Some h l k v :
  field h l k = Some v ↔ ∃ d, dict_at h l = Some d ∧ d !! k = Some v.
Proof.
  unfold field. destruct (dict_at h l) as [d|]; simpl.
  - split; [eauto|]. by intros (? & [= <-] & ?).
  - split; [done|]. by intros (? & ? & ?).
Qed.

Lemma getitem_ok h l k v : field h l k = Some v → getitem l k h = Ok (v, h).
Proof.
  intros (d & Hd & Hk)%field_Some. apply dict_at_Some in Hd.
  unfold getitem, subscript, bind, load. by rewrite Hd, Hk.
Qed.

Lemma getitem_missing h l k d :
  dict_at h l = Some d → d !! k = None → getitem l k h = Raise (KeyError k).
Proof.
  intros Hd%dict_at_Some Hk.
  unfold getitem, subscript, bind, load. by rewrite Hd, Hk.
Qed.

Lemma int_of_Some v z : int_of v = Some z ↔ v = VInt z.
Proof. destruct v; simpl; split; congruence. Qed.

Lemma key_of_Some v k h : key_of v = Some k ↔ as_key v h = Ok (k, h).
Proof. destruct v; simpl; unfold ret, raise; split; congruence. Qed.

Lemma ann_id_field h l i : ann_id h l = Some i ↔ field h l "_id" = Some (VInt i).
Proof.
  unfold ann_id. destruct (field h l "_id") as [v|]; simpl.
  - rewrite int_of_Some. split; congruence.
  - split; congruence.
Qed.

Lemma ann_class_field h l c :
  ann_class h l = Some c ↔ field h l "class" = Some (VInt c).
Proof.
  unfold ann_class. destruct (field h l "class") as [v|]; simpl.
  - rewrite int_of_Some. split; congruence.
  - split; congruence.
Qed.

Lemma ann_image_field h l k :
  ann_image h l = Some k ↔
  ∃ v, field h l "image_id" = Some v ∧ key_of v = Some k.
Proof.
  unfold ann_image. destruct (field h l "image_id") as [v|]; simpl.
  - split; [eauto|]. by intros (? & [= <-] & ?).
  - split; [done|]. by intros (? & ? & ?).
Qed.

(** Allocation only appends: what was readable stays as it was. *)
Lemma dict_at_app h ext l d :
  dict_at h l = Some d → dict_at (h ++ ext) l = Some d.
Proof.
  rewrite !dict_at_Some. intros H. by apply lookup_app_l_Some.
Qed.

Lemma field_app h ext l k v :
  field h l k = Some v → field (h ++ ext) l k = Some v.
Proof.
  rewrite !field_Some. intros (d & Hd & Hk). eauto using dict_at_app.
Qed.

Lemma dict_at_is_Some h l : is_Some (ann_id h l) → is_Some (dict_at h l).
Proof.
  intros [i Hi]. apply ann_id_field, field_Some in Hi as (d & Hd & _). eauto.
Qed.

Lemma dict_at_new h d ext : dict_at (h ++ ODict d :: ext) (length h) = Some d.
Proof. apply dict_at_Some. by rewrite list_lookup_middle. Qed.

Lemma as_int_ok h z : as_int (VInt z) h = Ok (z, h).
Proof. done. Qed.

Lemma in_ids_int h z s : in_ids (VInt z) s h = Ok (bool_decide (z ∈ s), h).
Proof. done. Qed.

Lemma as_key_ok h v k : key_of v = Some k → as_key v h = Ok (k, h).
Proof. apply key_of_Some. Qed.

Lemma copy_ok h l d :
  dict_at h l = Some d → copy l h = Ok (length h, h ++ [ODict d]).
Proof.
  intros Hd%dict_at_Some. unfold copy, bind, load, alloc. by rewrite Hd.
Qed.

Lemma setitem_ok h l d k v :
  dict_at h l = Some d →
  setitem l k v h = Ok (tt, <[l := ODict (<[k := v]> d)]> h).
Proof.
  intros Hd%dict_at_Some. unfold setitem, bind, load, store. by rewrite Hd.
Qed.

(** One step of a computation: run the first action with a lemma that gives
    its result, and continue with the rest. *)
Ltac mstep lem := rewrite (bind_ok _ _ _ _ _ lem); cbv beta.

(** ** The loops of [create_filtered_Data] *)

Lemma wf_ann_views h l :
  wf_ann h l →
  ann_id h l = Some (id_of h l) ∧
  ann_class h l = Some (class_of h l) ∧
  ann_image h l = Some (image_of h l).
Proof.
  unfold id_of, class_of, image_of.
  by intros ([i ->] & [c ->] & [k ->]).
Qed.

Lemma wf_ann_dict h l : wf_ann h l → is_Some (dict_at h l).
Proof. intros [Hid _]. by apply dict_at_is_Some. Qed.

Lemma wf_ann_app h ext l : wf_ann h l → wf_ann (h ++ ext) l.
Proof.
  intros ([i Hi] & [c Hc] & [k Hk]). repeat split.
  - exists i. apply ann_id_field, field_app. by apply ann_id_field.
  - exists c. apply ann_class_field, field_app. by apply ann_class_field.
  - exists k. apply ann_image_field in Hk as (v & Hv & Hk).
    apply ann_image_field. eauto using field_app.
Qed.

Lemma Forall_wf_ann_app h ext ls :
  Forall (wf_ann h) ls → Forall (wf_ann (h ++ ext)) ls.
Proof.
  intros Hwf. eapply Forall_impl; [done|]. intros. by apply wf_ann_app.
Qed.

Lemma ann_views_app h ext l :
  wf_ann h l →
  ann_id (h ++ ext) l = ann_id h l ∧
  ann_class (h ++ ext) l = ann_class h l ∧
  ann_image (h ++ ext) l = ann_image h l.
Proof.
  intros ([i Hi] & [c Hc] & [k Hk]). rewrite Hi, Hc, Hk. repeat split.
  - apply ann_id_field, field_app. by apply ann_id_field.
  - apply ann_class_field, field_app. by apply ann_class_field.
  - apply ann_image_field in Hk as (v & Hv & Hk).
    apply ann_image_field. eauto using field_app.
Qed.

Lemma id_of_app h ext l : wf_ann h l → id_of (h ++ ext) l = id_of h l.
Proof. intros (H & _)%(ann_views_app _ ext). unfold id_of. by rewrite H. Qed.

Lemma select_run h keep ls :
  Forall (wf_ann h) ls →
  filterM (λ ann, let* v := getitem ann "_id" in in_ids v keep) ls h
  = Ok (filter (λ l, kept h keep l) ls, h).
Proof.
  induction 1 as [|l ls ([i Hi] & _) _ IH]; [done|].
  cbn [filterM].
  rewrite (bind_ok _ _ _ (bool_decide (i ∈ keep)) h).
  - mstep IH. unfold ret. rewrite filter_cons.
    assert (kept h keep l = bool_decide (i ∈ keep)) as ->
      by (unfold kept; by rewrite Hi).
    by destruct (bool_decide (i ∈ keep)).
  - by mstep (getitem_ok _ _ _ _ (proj1 (ann_id_field _ _ _) Hi)).
Qed.

Lemma renumbered_app h ext i sel :
  Forall (wf_ann h) sel → renumbered (h ++ ext) i sel = renumbered h i sel.
Proof.
  intros Hwf. unfold renumbered. apply imap_ext. intros j l Hl. simpl.
  eapply Forall_lookup_1 in Hwf; [|done].
  destruct (wf_ann_dict _ _ Hwf) as [d Hd].
  by rewrite (dict_at_app _ _ _ _ Hd), Hd.
Qed.

Lemma copy_body_run h l i old d (n2o : gmap nat Z) acc :
  ann_id h l = Some old →
  dict_at h l = Some d →
  (let* v := getitem l "_id" in
   let* old := as_int v in
   let* new_ann := copy l in
   let* _ := setitem new_ann "_id" (VInt (Z.of_nat i)) in
   ret (<[i := old]> n2o, acc ++ [new_ann])) h
  = Ok ((<[i := old]> n2o, acc ++ [length h]),
        h ++ [ODict (<["_id" := VInt (Z.of_nat i)]> d)]).
Proof.
  intros Hold Hd.
  mstep (getitem_ok _ _ _ _ (proj1 (ann_id_field _ _ _) Hold)).
  mstep (as_int_ok h old).
  mstep (copy_ok _ _ _ Hd).
  mstep (setitem_ok _ _ _ "_id" (VInt (Z.of_nat i)) (dict_at_new h d [])).
  unfold ret. by rewrite insert_app_r_alt, Nat.sub_diag.
Qed.

Lemma copy_loop_run sel : ∀ i (n2o : gmap nat Z) acc h,
  Forall (wf_ann h) sel →
  for_enum (λ i ann '(n2o, acc),
              let* v := getitem ann "_id" in
              let* old := as_int v in
              let* new_ann := copy ann in
              let* _ := setitem new_ann "_id" (VInt (Z.of_nat i)) in
              ret (<[i := old]> n2o, acc ++ [new_ann]))
           i sel (n2o, acc) h
  = Ok ((map_seq i (id_of h <$> sel) ∪ n2o,
         acc ++ seq (length h) (length sel)),
        h ++ renumbered h i sel).
Proof.
  induction sel as [|l sel IH]; intros i n2o acc h Hwf.
  { simpl. unfold ret. by rewrite (left_id_L ∅ (∪)), !app_nil_r. }
  apply Forall_cons in Hwf as [Hl Hsel].
  destruct (wf_ann_views _ _ Hl) as (Hold & _).
  destruct (wf_ann_dict _ _ Hl) as [d Hd].
  cbn [for_enum].
  mstep (copy_body_run h l i _ d n2o acc Hold Hd).
  rewrite IH by by apply Forall_wf_ann_app.
  rewrite renumbered_app by done.
  f_equal. f_equal; [f_equal|].
  - rewrite fmap_cons. cbn [map_seq].
    rewrite <- insert_union_r, insert_union_l.
    + do 3 f_equal. apply Forall_fmap_ext.
      eapply Forall_impl; [done|]. intros. by apply id_of_app.
    + apply lookup_map_seq_None. lia.
  - rewrite <- !app_assoc, length_app. simpl.
    by rewrite Nat.add_1_r.
  - unfold renumbered at 2. simpl. rewrite Hd, Nat.add_0_r. simpl.
    rewrite <- app_assoc. simpl. do 2 f_equal.
    unfold renumbered. apply imap_ext. intros j y _. simpl.
    by rewrite Nat.add_succ_r.
Qed.

Lemma class_loop_run h ls :
  Forall (wf_ann h) ls →
  mapL (λ ann, let* v := getitem ann "class" in as_int v) ls h
  = Ok (class_of h <$> ls, h).
Proof.
  induction 1 as [|l ls Hl _ IH]; [done|].
  destruct (wf_ann_views _ _ Hl) as (_ & Hc & _).
  cbn [mapL].
  rewrite (bind_ok _ _ _ (class_of h l) h).
  - by mstep IH.
  - by mstep (getitem_ok _ _ _ _ (proj1 (ann_class_field _ _ _) Hc)).
Qed.

Lemma image_loop_run h ls : ∀ i m,
  Forall (wf_ann h) ls →
  for_enum (λ _ ann m,
              let* kv := getitem ann "image_id" in
              let* k := as_key kv in
              let* v := getitem ann "_id" in
              let* id := as_int v in
              ret (append_id k id m))
           i ls m h
  = Ok (group_ids ((λ l, (image_of h l, id_of h l)) <$> ls) m, h).
Proof.
  intros i m Hwf. revert i m.
  induction Hwf as [|l ls Hl _ IH]; intros i m; [done|].
  destruct (wf_ann_views _ _ Hl) as (Hid & _ & Hk).
  apply ann_image_field in Hk as (kv & Hkv & Hk).
  cbn [for_enum].
  rewrite (bind_ok _ _ _ (append_id (image_of h l) (id_of h l) m) h).
  - by rewrite IH.
  - mstep (getitem_ok _ _ _ _ Hkv).
    mstep (as_key_ok h _ _ Hk).
    mstep (getitem_ok _ _ _ _ (proj1 (ann_id_field _ _ _) Hid)).
    by mstep (as_int_ok h (id_of h l)).
Qed.

(** ** What [create_filtered_Data] computes *)

Lemma selected_wf h d keep :
  Forall (wf_ann h) (annotations d) → Forall (wf_ann h) (selected h d keep).
Proof.
  rewrite !Forall_forall. intros Hwf l [_ Hl]%list_elem_of_filter. eauto.
Qed.

Lemma new_ann_dict h sel j l d :
  sel !! j = Some l →
  dict_at h l = Some d →
  dict_at (h ++ renumbered h 0 sel) (length h + j)
  = Some (<["_id" := VInt (Z.of_nat j)]> d).
Proof.
  intros Hj Hd. apply dict_at_Some.
  rewrite lookup_app_r, Nat.add_comm, Nat.add_sub by lia.
  unfold renumbered. by rewrite list_lookup_imap, Hj; simpl; rewrite Hd.
Qed.

Lemma new_ann_views h sel j l :
  wf_ann h l →
  sel !! j = Some l →
  ann_id (h ++ renumbered h 0 sel) (length h + j) = Some (Z.of_nat j) ∧
  ann_class (h ++ renumbered h 0 sel) (length h + j) = ann_class h l ∧
  ann_image (h ++ renumbered h 0 sel) (length h + j) = ann_image h l.
Proof.
  intros Hl Hj. destruct (wf_ann_dict _ _ Hl) as [d Hd].
  pose proof (new_ann_dict _ _ _ _ _ Hj Hd) as Hnew.
  unfold ann_id, ann_class, ann_image, field. rewrite Hnew, Hd. simpl.
  by rewrite lookup_insert_eq, !lookup_insert_ne.
Qed.

Lemma new_anns_wf h sel :
  Forall (wf_ann h) sel →
  Forall (wf_ann (h ++ renumbered h 0 sel)) (seq (length h) (length sel)).
Proof.
  intros Hwf. apply Forall_lookup. intros j l' [-> Hj]%lookup_seq.
  destruct (lookup_lt_is_Some_2 sel j Hj) as [l Hl].
  pose proof (Forall_lookup_1 _ _ _ _ Hwf Hl) as Hwfl.
  destruct (new_ann_views _ _ _ _ Hwfl Hl) as (Hi & Hc & Hk).
  unfold wf_ann. rewrite Hi, Hc, Hk. split; [eauto|]. apply Hwfl.
Qed.

Lemma fmap_seq_new {B} (f : loc → B) (g : nat → loc → B) base
    (sel : list loc) :
  (∀ j l, sel !! j = Some l → f (base + j) = g j l) →
  f <$> seq base (length sel) = imap g sel.
Proof.
  intros Hfg. apply list_eq. intros j.
  rewrite list_lookup_fmap, list_lookup_imap.
  destruct (sel !! j) as [l|] eqn:Hl; simpl.
  - rewrite (lookup_seq_lt _ _ _ (lookup_lt_Some _ _ _ Hl)). simpl.
    by rewrite (Hfg _ _ Hl).
  - by rewrite lookup_seq_ge by by apply lookup_ge_None.
Qed.

(** On well-formed annotations the call succeeds: it returns [filtered] and
    leaves a store that is the old one followed by the renumbered copies. *)
Lemma create_filtered_Data_run h d keep nm :
  Forall (wf_ann h) (annotations d) →
  create_filtered_Data d keep nm h
  = Ok (filtered h d keep nm, filtered_heap h d keep).
Proof.
  intros Hwf. unfold create_filtered_Data.
  mstep (select_run h keep _ Hwf). fold (selected h d keep).
  pose proof (selected_wf _ _ keep Hwf) as Hsel.
  mstep (copy_loop_run _ 0 ∅ [] h Hsel). cbn [app].
  pose proof (new_anns_wf _ _ Hsel) as Hnew.
  mstep (class_loop_run _ _ Hnew).
  mstep (image_loop_run _ _ 0 ∅ Hnew).
  unfold ret, filtered. by rewrite (right_id_L ∅ (∪)).
Qed.

(** The new annotations, seen through the selected ones. *)
Lemma new_classes h sel :
  Forall (wf_ann h) sel →
  class_of (h ++ renumbered h 0 sel) <$> seq (length h) (length sel)
  = class_of h <$> sel.
Proof.
  intros Hsel.
  rewrite (fmap_seq_new _ (λ _ l, class_of h l));
    [by rewrite (imap_const (class_of h))|].
  intros j l Hl. unfold class_of.
  pose proof (Forall_lookup_1 _ _ _ _ Hsel Hl) as Hwfl.
  by destruct (new_ann_views _ _ _ _ Hwfl Hl) as (_ & -> & _).
Qed.

Lemma new_image_ids h sel :
  Forall (wf_ann h) sel →
  (λ l, (image_of (h ++ renumbered h 0 sel) l,
         id_of (h ++ renumbered h 0 sel) l)) <$> seq (length h) (length sel)
  = imap (λ j l, (image_of h l, Z.of_nat j)) sel.
Proof.
  intros Hsel.
  apply (fmap_seq_new _ (λ j l, (image_of h l, Z.of_nat j))).
  intros j l Hl. unfold image_of, id_of.
  pose proof (Forall_lookup_1 _ _ _ _ Hsel Hl) as Hwfl.
  by destruct (new_ann_views _ _ _ _ Hwfl Hl) as (-> & _ & ->).
Qed.

(** ** The rebuilt [classes] and [images] *)

Lemma foldl_label_lookup (L : list Z) : ∀ (m : gmap Z string) c,
  foldl (λ m c, <[c := class_label c]> m) m L !! c
  = if decide (c ∈ L) then Some (class_label c) else m !! c.
Proof.
  induction L as [|x L IH]; intros m c; simpl; [done|].
  rewrite IH. destruct (decide (c ∈ L)) as [HL|HL].
  - by rewrite decide_True by by right.
  - destruct (decide (x = c)) as [->|Hne].
    + by rewrite lookup_insert_eq, decide_True by left.
    + rewrite lookup_insert_ne by done.
      rewrite decide_False; [done|]. rewrite elem_of_cons. by intros [|].
Qed.

Lemma build_classes_lookup cls c :
  build_classes cls !! c
  = if decide (c ∈ cls) then Some (class_label c) else None.
Proof.
  unfold build_classes. rewrite foldl_label_lookup, lookup_empty.
  apply decide_ext.
  by rewrite merge_sort_Permutation, elem_of_elements, elem_of_list_to_set.
Qed.

Lemma elem_of_dom_build_classes cls c : c ∈ dom (build_classes cls) ↔ c ∈ cls.
Proof.
  rewrite elem_of_dom, build_classes_lookup.
  destruct (decide (c ∈ cls)); split; by try intros [? ?].
Qed.

Lemma group_ids_lookup kis : ∀ m k,
  group_ids kis m !! k
  = match ids_at k kis with
    | [] => m !! k
    | ids => Some (default [] (m !! k) ++ ids)
    end.
Proof.
  induction kis as [|[k' id] kis IH]; intros m k; [done|].
  unfold group_ids in *. cbn [foldl]. rewrite IH. unfold ids_at, append_id.
  rewrite filter_cons. cbn [fst snd].
  destruct (decide (k' = k)) as [->|Hne].
  - rewrite lookup_insert_eq, fmap_cons. cbn [fst snd default from_option].
    generalize ((filter (λ ki : key * Z, ki.1 = k) kis).*2).
    intros [|z r]; [done|]. unfold Datatypes.id. by rewrite <- app_assoc.
  - by rewrite lookup_insert_ne.
Qed.

Lemma rebuilt_images_lookup h ls k :
  rebuilt_images h ls !! k
  = match ids_at k ((λ l, (image_of h l, id_of h l)) <$> ls) with
    | [] => None
    | ids => Some (Image (image_name k) ids)
    end.
Proof.
  unfold rebuilt_images, build_images.
  rewrite map_lookup_imap, group_ids_lookup, lookup_empty. simpl.
  by destruct (ids_at _ _).
Qed.

Lemma elem_of_ids_at k kis id : id ∈ ids_at k kis ↔ (k, id) ∈ kis.
Proof.
  unfold ids_at. rewrite list_elem_of_fmap. split.
  - intros ([k' id'] & -> & [Hk ?]%list_elem_of_filter). simpl in *.
    by subst k'.
  - intros Hin. exists (k, id). split; [done|].
    by apply list_elem_of_filter.
Qed.

(** ** The invariants of an indexed dataset *)

Section rebuilt.
Variables (h : heap) (ls : list loc).
Hypothesis Hwf : Forall (wf_ann h) ls.
Hypothesis Hids : ∀ i l, ls !! i = Some l → ann_id h l = Some (Z.of_nat i).

Lemma wf_elem l : l ∈ ls → wf_ann h l.
Proof. intros Hl. by eapply Forall_forall in Hwf. Qed.

Lemma ids_dense : id_of h <$> ls = Z.of_nat <$> seq 0 (length ls).
Proof.
  apply list_eq. intros i. rewrite !list_lookup_fmap.
  destruct (ls !! i) as [l|] eqn:Hl; simpl.
  - rewrite (lookup_seq_lt _ _ _ (lookup_lt_Some _ _ _ Hl)). simpl.
    unfold id_of. by rewrite (Hids _ _ Hl).
  - by rewrite lookup_seq_ge by by apply lookup_ge_None.
Qed.

Lemma rebuilt_classes_dom c :
  c ∈ dom (rebuilt_classes h ls) ↔ ∃ l, l ∈ ls ∧ ann_class h l = Some c.
Proof.
  unfold rebuilt_classes.
  rewrite elem_of_dom_build_classes, list_elem_of_fmap. split.
  - intros (l & -> & Hl). exists l. split; [done|].
    by destruct (wf_ann_views _ _ (wf_elem _ Hl)) as (_ & ? & _).
  - intros (l & Hl & Hc). exists l. split; [|done].
    unfold class_of. by rewrite Hc.
Qed.

Lemma elem_of_image_ids k id :
  (k, id) ∈ (λ l, (image_of h l, id_of h l)) <$> ls ↔
  ∃ l, l ∈ ls ∧ ann_image h l = Some k ∧ ann_id h l = Some id.
Proof.
  rewrite list_elem_of_fmap. split.
  - intros (l & [= -> ->] & Hl). exists l. split; [done|].
    by destruct (wf_ann_views _ _ (wf_elem _ Hl)) as (? & _ & ?).
  - intros (l & Hl & Hk & Hid). exists l. split; [|done].
    unfold image_of, id_of. by rewrite Hk, Hid.
Qed.

Lemma ids_at_NoDup k :
  NoDup (ids_at k ((λ l, (image_of h l, id_of h l)) <$> ls)).
Proof.
  unfold ids_at.
  apply (sublist_NoDup _ (((λ l, (image_of h l, id_of h l)) <$> ls).*2)).
  - rewrite <- list_fmap_compose.
    change (snd ∘ _) with (id_of h). rewrite ids_dense.
    apply NoDup_fmap_2; [apply _|apply NoDup_seq].
  - apply fmap_sublist, sublist_filter.
Qed.

Lemma rebuilt_images_Some k img :
  rebuilt_images h ls !! k = Some img →
  img_name img = image_name k ∧
  NoDup (anns img) ∧
  ∀ id, id ∈ anns img ↔
        ∃ l, l ∈ ls ∧ ann_image h l = Some k ∧ ann_id h l = Some id.
Proof.
  rewrite rebuilt_images_lookup.
  pose proof (ids_at_NoDup k) as Hnd.
  pose proof (λ id, elem_of_ids_at k
                ((λ l, (image_of h l, id_of h l)) <$> ls) id) as Hin.
  destruct (ids_at k _) as [|z r]; [done|]. intros [= <-]. simpl.
  split; [done|]. split; [done|].
  intros id. by rewrite Hin, elem_of_image_ids.
Qed.

Lemma rebuilt_images_dom k :
  k ∈ dom (rebuilt_images h ls) ↔ ∃ l, l ∈ ls ∧ ann_image h l = Some k.
Proof.
  rewrite elem_of_dom, rebuilt_images_lookup.
  pose proof (λ id, elem_of_ids_at k
                ((λ l, (image_of h l, id_of h l)) <$> ls) id) as Hin.
  split.
  - destruct (ids_at k _) as [|z r]; [by intros [? ?]|]. intros _.
    destruct (proj1 (elem_of_image_ids k z)) as (l & ? & ? & _); eauto.
    apply Hin. by left.
  - intros (l & Hl & Hk).
    destruct (wf_ann_views _ _ (wf_elem _ Hl)) as (Hid & _ & _).
    assert (id_of h l ∈ ids_at k ((λ l, (image_of h l, id_of h l)) <$> ls))
      as Hmem by (apply Hin, elem_of_image_ids; eauto).
    destruct (ids_at k _); [by apply not_elem_of_nil in Hmem|eauto].
Qed.

(** A dataset whose [classes] and [images] were rebuilt from its
    annotations satisfies the invariants. *)
Lemma rebuilt_Invariants nm :
  let d := mkData nm ls (rebuilt_classes h ls) (rebuilt_images h ls) in
  Invariants h d ∧ images_exact h d.
Proof.
  split; [split|split]; simpl.
  - done.
  - done.
  - intros k img id Hk Hin.
    apply rebuilt_images_Some in Hk as (_ & _ & Hk).
    apply Hk in Hin as (l & ? & _ & ?). eauto.
  - intros l Hl.
    destruct (wf_ann_views _ _ (wf_elem _ Hl)) as (Hid & _ & Hk).
    assert (image_of h l ∈ dom (rebuilt_images h ls)) as [img Himg]%elem_of_dom
      by (apply rebuilt_images_dom; eauto).
    exists img. split; [done|].
    apply rebuilt_images_Some in Himg as (_ & _ & Himg).
    apply Himg. eauto.
  - apply rebuilt_classes_dom.
  - apply rebuilt_images_dom.
  - intros k img Hk.
    apply rebuilt_images_Some in Hk as (_ & ? & ?). done.
Qed.
End rebuilt.

Lemma sample_gts_Invariants : Invariants sample_heap sample_gts.
Proof.
  apply rebuilt_Invariants.
  - repeat constructor; by eexists.
  - by intros [|[|[|i]]] l [= <-].
Qed.

Lemma sample_preds_Invariants : Invariants sample_heap sample_preds.
Proof.
  apply rebuilt_Invariants.
  - repeat constructor; by eexists.
  - by intros [|[|[|[|i]]]] l [= <-].
Qed.

(** ** The subset filter keeps the invariants *)

Lemma filtered_ids h d keep i l :
  Forall (wf_ann h) (annotations d) →
  seq (length h) (length (selected h d keep)) !! i = Some l →
  ann_id (filtered_heap h d keep) l = Some (Z.of_nat i).
Proof.
  intros Hwf [-> Hi]%lookup_seq.
  destruct (lookup_lt_is_Some_2 _ _ Hi) as [l Hl].
  pose proof (Forall_lookup_1 _ _ _ _ (selected_wf _ _ keep Hwf) Hl) as Hwfl.
  by destruct (new_ann_views _ _ _ _ Hwfl Hl) as (? & _).
Qed.

(** C3. For every dataset that satisfies the invariants and every set of ids
    to keep, the subset filter succeeds, and the dataset it returns satisfies
    invariants 1 to 3 in the store it leaves: every [_id] is the position of
    its annotation, so the ids are exactly 0..K-1; [images] has exactly the
    image ids of the retained annotations, each entry listing exactly the new
    ids of that image's annotations; the keys of [classes] are exactly the
    classes of the retained annotations. *)
Theorem filter_preserves_invariants h d keep nm :
  Invariants h d →
  ∃ d' n2o h',
    create_filtered_Data d keep nm h = Ok ((d', n2o), h') ∧
    Invariants h' d' ∧ images_exact h' d'.
Proof.
  intros [Hwf _ _ _ _].
  eexists _, _, _. split; [by apply create_filtered_Data_run|].
  apply rebuilt_Invariants.
  - by apply new_anns_wf, selected_wf.
  - intros i l. by apply filtered_ids.
Qed.

Lemma filter_preserves_invariants_witness :
  ∃ d' n2o h',
    create_filtered_Data sample_preds {[0%Z; 2%Z; 7%Z]} filtered_data
                         sample_heap = Ok ((d', n2o), h') ∧
    Invariants h' d' ∧ images_exact h' d'.
Proof.
  exact (filter_preserves_invariants sample_heap sample_preds
           {[0%Z; 2%Z; 7%Z]} filtered_data sample_preds_Invariants).
Defined.

(** ** Selection semantics *)

Lemma kept_iff h keep l :
  kept h keep l ↔ ∃ i, ann_id h l = Some i ∧ i ∈ keep.
Proof.
  unfold kept. destruct (ann_id h l) as [i|].
  - rewrite bool_decide_spec. split; [eauto|]. by intros (? & [= <-] & ?).
  - split; [done|]. by intros (? & ? & ?).
Qed.

Lemma elem_of_selected h d keep l :
  l ∈ selected h d keep ↔
  l ∈ annotations d ∧ ∃ i, ann_id h l = Some i ∧ i ∈ keep.
Proof.
  unfold selected. rewrite list_elem_of_filter, kept_iff. tauto.
Qed.

(** A filtered list keeps the relative order of the elements. *)
Lemma filter_lookup_mono {A} (P : A → Prop) `{!∀ x, Decision (P x)}
    (l : list A) : ∀ i j a b,
  filter P l !! i = Some a → filter P l !! j = Some b → i < j →
  ∃ i' j', l !! i' = Some a ∧ l !! j' = Some b ∧ i' < j'.
Proof.
  induction l as [|x l IH]; intros i j a b Ha Hb Hij; [done|].
  rewrite filter_cons in Ha, Hb. destruct (decide (P x)).
  - destruct j as [|j]; [lia|]. destruct i as [|i]; simpl in *.
    + injection Ha as ->.
      assert (b ∈ l) as [j' Hj']%list_elem_of_lookup.
      { eapply list_elem_of_filter, list_elem_of_lookup_2, Hb. }
      exists 0, (S j'). repeat split; [done|lia].
    + destruct (IH i j a b Ha Hb) as (i' & j' & ? & ? & ?); [lia|].
      exists (S i'), (S j'). repeat split; [done..|lia].
  - destruct (IH i j a b Ha Hb Hij) as (i' & j' & ? & ? & ?).
    exists (S i'), (S j'). repeat split; [done..|lia].
Qed.

Lemma filter_ext_in {A} (P Q : A → Prop) `{!∀ x, Decision (P x)}
    `{!∀ x, Decision (Q x)} (l : list A) :
  (∀ x, x ∈ l → P x ↔ Q x) → filter P l = filter Q l.
Proof.
  induction l as [|x l IH]; intros HPQ; [done|].
  rewrite !filter_cons, IH by (intros; apply HPQ; by right).
  destruct (decide (P x)) as [HP|HP], (decide (Q x)) as [HQ|HQ]; try done.
  - by apply HPQ in HP; [|left].
  - by apply HPQ in HQ; [|left].
Qed.

Lemma filter_all {A} (P : A → Prop) `{!∀ x, Decision (P x)} (l : list A) :
  Forall P l → filter P l = l.
Proof.
  induction 1 as [|x l HP _ IH]; [done|].
  by rewrite filter_cons_True, IH.
Qed.

(** C5. For every dataset that satisfies the invariants and every set of ids
    to keep, the filter returns the input annotations whose [_id] is kept, in
    their input order: the [j]-th returned annotation is a copy of the [j]-th
    selected one, that is an object that the input store did not have, equal
    to its source except that its [_id] is [j], the source being left as it
    was; the copies are pairwise distinct; and [new_to_old] sends [j] to the
    old [_id] of that annotation.  The domain of [new_to_old] is 0..K-1 and
    it is strictly increasing, hence injective. *)
Theorem filter_selects h d keep nm :
  Invariants h d →
  ∃ d' n2o h',
    create_filtered_Data d keep nm h = Ok ((d', n2o), h') ∧
    let sel := selected h d keep in
    sel `sublist_of` annotations d ∧
    (∀ l, l ∈ sel ↔
          l ∈ annotations d ∧ ∃ i, ann_id h l = Some i ∧ i ∈ keep) ∧
    length (annotations d') = length sel ∧
    (∀ j l, sel !! j = Some l →
       ∃ l' m, annotations d' !! j = Some l' ∧
               h !! l' = None ∧
               dict_at h l = Some m ∧
               dict_at h' l = Some m ∧
               dict_at h' l' = Some (<["_id" := VInt (Z.of_nat j)]> m) ∧
               n2o !! j = ann_id h l) ∧
    NoDup (annotations d') ∧
    dom n2o = set_seq 0 (length sel) ∧
    (∀ i j a b, n2o !! i = Some a → n2o !! j = Some b →
                i < j → (a < b)%Z).
Proof.
  intros [Hwf Hids _ _ _].
  pose proof (selected_wf _ _ keep Hwf) as Hsel.
  eexists _, _, _. split; [by apply create_filtered_Data_run|].
  cbn zeta. unfold filtered; simpl. split_and!.
  - apply sublist_filter.
  - apply elem_of_selected.
  - by rewrite length_seq.
  - intros j l Hl.
    pose proof (Forall_lookup_1 _ _ _ _ Hsel Hl) as Hwfl.
    destruct (wf_ann_dict _ _ Hwfl) as [m Hm].
    destruct (wf_ann_views _ _ Hwfl) as (Hid & _).
    exists (length h + j), m. split_and!.
    + by apply lookup_seq_lt, (lookup_lt_Some _ _ _ Hl).
    + apply lookup_ge_None_2. lia.
    + done.
    + by apply dict_at_app.
    + by apply (new_ann_dict _ _ _ l).
    + by rewrite lookup_map_seq_0, list_lookup_fmap, Hl, Hid.
  - apply NoDup_seq.
  - by rewrite dom_seq_L, length_fmap.
  - intros i j a b. rewrite !lookup_map_seq_0, !list_lookup_fmap.
    intros (la & Hla & ->)%fmap_Some (lb & Hlb & ->)%fmap_Some Hij.
    destruct (filter_lookup_mono _ _ _ _ _ _ Hla Hlb Hij)
      as (i' & j' & Hi' & Hj' & Hlt).
    unfold id_of. rewrite (Hids _ _ Hi'), (Hids _ _ Hj'). simpl. lia.
Qed.

Lemma filter_selects_witness :
  ∃ d' n2o h',
    create_filtered_Data sample_preds {[0%Z; 2%Z; 7%Z]} filtered_data
                         sample_heap = Ok ((d', n2o), h') ∧
    let sel := selected sample_heap sample_preds {[0%Z; 2%Z; 7%Z]} in
    sel `sublist_of` annotations sample_preds ∧
    (∀ l, l ∈ sel ↔
          l ∈ annotations sample_preds ∧
          ∃ i, ann_id sample_heap l = Some i ∧ i ∈ ({[0%Z; 2%Z; 7%Z]} : gset Z)) ∧
    length (annotations d') = length sel ∧
    (∀ j l, sel !! j = Some l →
       ∃ l' m, annotations d' !! j = Some l' ∧
               sample_heap !! l' = None ∧
               dict_at sample_heap l = Some m ∧
               dict_at h' l = Some m ∧
               dict_at h' l' = Some (<["_id" := VInt (Z.of_nat j)]> m) ∧
               n2o !! j = ann_id sample_heap l) ∧
    NoDup (annotations d') ∧
    dom n2o = set_seq 0 (length sel) ∧
    (∀ i j a b, n2o !! i = Some a → n2o !! j = Some b →
                i < j → (a < b)%Z).
Proof.
  exact (filter_selects sample_heap sample_preds {[0%Z; 2%Z; 7%Z]}
           filtered_data sample_preds_Invariants).
Defined.

(** ** Ids that the dataset does not have *)

Lemma selected_inter h d keep :
  Forall (wf_ann h) (annotations d) →
  selected h d (keep ∩ dataset_ids h d) = selected h d keep.
Proof.
  intros Hwf. apply filter_ext_in. intros l Hl. rewrite !kept_iff.
  eapply Forall_forall in Hwf; [|done].
  destruct (wf_ann_views _ _ Hwf) as (Hid & _).
  split; intros (i & Hi & Hin); exists i; (split; [done|]).
  - by apply elem_of_intersection in Hin as [? _].
  - apply elem_of_intersection. split; [done|].
    apply elem_of_list_to_set, list_elem_of_fmap. exists l.
    split; [congruence|done].
Qed.

Lemma filtered_selected h d keep1 keep2 nm :
  selected h d keep1 = selected h d keep2 →
  filtered h d keep1 nm = filtered h d keep2 nm ∧
  filtered_heap h d keep1 = filtered_heap h d keep2.
Proof. unfold filtered, filtered_heap. by intros ->. Qed.

(** C7. For every dataset that satisfies the invariants, filtering never
    fails on ids that the dataset does not have: the call succeeds and
    returns what it returns for the kept ids that are ids of the dataset.
    With no id kept it returns a dataset without annotations, classes or
    images, an empty [new_to_old], and allocates nothing. *)
Theorem filter_ignores_unknown_ids h d keep nm :
  Invariants h d →
  (∃ r, create_filtered_Data d keep nm h = Ok r ∧
        create_filtered_Data d (keep ∩ dataset_ids h d) nm h = Ok r) ∧
  create_filtered_Data d ∅ nm h = Ok ((mkData nm [] ∅ ∅, ∅), h).
Proof.
  intros [Hwf _ _ _ _]. split.
  - eexists. split; [by apply create_filtered_Data_run|].
    rewrite create_filtered_Data_run by done.
    by destruct (filtered_selected h d _ keep nm (selected_inter _ _ keep Hwf))
      as [-> ->].
  - rewrite create_filtered_Data_run by done.
    assert (selected h d ∅ = []) as Hnil.
    { apply list_eq. intros i. rewrite lookup_nil.
      destruct (selected h d ∅ !! i) as [l|] eqn:Hl; [|done].
      apply list_elem_of_lookup_2, elem_of_selected in Hl
        as (_ & j & _ & Hj).
      by apply not_elem_of_empty in Hj. }
    unfold filtered, filtered_heap. rewrite Hnil. simpl.
    by rewrite app_nil_r.
Qed.

Lemma filter_ignores_unknown_ids_witness :
  (∃ r, create_filtered_Data sample_preds {[0%Z; 2%Z; 7%Z]} filtered_data
                             sample_heap = Ok r ∧
        create_filtered_Data sample_preds
          ({[0%Z; 2%Z; 7%Z]} ∩ dataset_ids sample_heap sample_preds)
          filtered_data sample_heap = Ok r) ∧
  create_filtered_Data sample_preds ∅ filtered_data sample_heap
  = Ok ((mkData filtered_data [] ∅ ∅, ∅), sample_heap).
Proof.
  exact (filter_ignores_unknown_ids sample_heap sample_preds
           {[0%Z; 2%Z; 7%Z]} filtered_data sample_preds_Invariants).
Defined.

(** ** Filtering to the full set of ids *)

Section full.
Variables (h : heap) (d : Data).
Hypothesis Hinv : Invariants h d.

Lemma selected_full :
  selected h d (full_ids (length (annotations d))) = annotations d.
Proof.
  apply filter_all, Forall_lookup. intros i l Hl. apply kept_iff.
  exists (Z.of_nat i). split; [by apply (inv_ids _ _ Hinv)|].
  apply elem_of_list_to_set, list_elem_of_fmap_2, elem_of_seq.
  apply lookup_lt_Some in Hl. lia.
Qed.

Lemma full_contents :
  dict_at (h ++ renumbered h 0 (annotations d))
    <$> seq (length h) (length (annotations d))
  = dict_at h <$> annotations d.
Proof.
  rewrite (fmap_seq_new _ (λ _ l, dict_at h l));
    [by rewrite (imap_const (dict_at h))|].
  intros j l Hl.
  pose proof (Forall_lookup_1 _ _ _ _ (inv_wf _ _ Hinv) Hl) as Hwfl.
  destruct (wf_ann_dict _ _ Hwfl) as [m Hm].
  rewrite (new_ann_dict _ _ _ _ _ Hl Hm), Hm. f_equal.
  apply insert_id.
  pose proof (inv_ids _ _ Hinv _ _ Hl) as Hid.
  apply ann_id_field, field_Some in Hid as (m' & Hm' & Hid). congruence.
Qed.

Lemma full_image_ids :
  imap (λ j l, (image_of h l, Z.of_nat j)) (annotations d)
  = (λ l, (image_of h l, id_of h l)) <$> annotations d.
Proof.
  apply list_eq. intros j. rewrite list_lookup_imap, list_lookup_fmap.
  destruct (annotations d !! j) as [l|] eqn:Hl; [|done]. simpl.
  unfold id_of. by rewrite (inv_ids _ _ Hinv _ _ Hl).
Qed.

Lemma full_classes :
  rebuilt_classes h (annotations d)
  = map_imap (λ c _, Some (class_label c)) (classes d).
Proof.
  apply map_eq. intros c. unfold rebuilt_classes.
  rewrite build_classes_lookup, map_lookup_imap.
  pose proof (inv_classes _ _ Hinv c) as Hc.
  rewrite <- (rebuilt_classes_dom h _ (inv_wf _ _ Hinv)) in Hc.
  unfold rebuilt_classes in Hc. rewrite elem_of_dom_build_classes in Hc.
  destruct (decide (c ∈ class_of h <$> annotations d)) as [Hin|Hin].
  - apply Hc, elem_of_dom in Hin as [lbl ->]. done.
  - rewrite <- Hc, elem_of_dom, <- eq_None_not_Some in Hin. by rewrite Hin.
Qed.
End full.

(** C6, amended.  For every dataset that satisfies the invariants, with N
    annotations, filtering to {0, …, N-1} succeeds and returns annotations
    whose contents equal those of the input, with [new_to_old] the identity on
    0..N-1.  The returned [classes] has the keys of the input's, each with the
    label "Class c", and the returned [images] is the one rebuilt from the
    annotations; they are the input's own [classes] and [images] when those
    already had the rebuilt form. *)
Theorem full_filter h d nm :
  Invariants h d →
  ∃ d' n2o h',
    create_filtered_Data d (full_ids (length (annotations d))) nm h
    = Ok ((d', n2o), h') ∧
    dict_at h' <$> annotations d' = dict_at h <$> annotations d ∧
    (∀ i, n2o !! i = if decide (i < length (annotations d))
                     then Some (Z.of_nat i) else None) ∧
    classes d' = map_imap (λ c _, Some (class_label c)) (classes d) ∧
    images d' = rebuilt_images h (annotations d) ∧
    (classes d = rebuilt_classes h (annotations d) → classes d' = classes d) ∧
    (images d = rebuilt_images h (annotations d) → images d' = images d).
Proof.
  intros Hinv. pose proof (inv_wf _ _ Hinv) as Hwf.
  eexists _, _, _. split; [by apply create_filtered_Data_run|].
  unfold filtered, filtered_heap. rewrite selected_full by done. simpl.
  assert (rebuilt_classes (h ++ renumbered h 0 (annotations d))
            (seq (length h) (length (annotations d)))
          = rebuilt_classes h (annotations d)) as Hcls.
  { unfold rebuilt_classes. by rewrite new_classes. }
  assert (rebuilt_images (h ++ renumbered h 0 (annotations d))
            (seq (length h) (length (annotations d)))
          = rebuilt_images h (annotations d)) as Himg.
  { unfold rebuilt_images. by rewrite new_image_ids, full_image_ids. }
  split_and!.
  - by apply full_contents.
  - intros i. rewrite lookup_map_seq_0, (ids_dense _ _ (inv_ids _ _ Hinv)).
    rewrite list_lookup_fmap. case_decide as Hi.
    + by rewrite lookup_seq_lt.
    + by rewrite lookup_seq_ge by lia.
  - rewrite Hcls. by apply full_classes.
  - done.
  - by intros ->.
  - by intros ->.
Qed.

Lemma full_filter_witness :
  ∃ d' n2o h',
    create_filtered_Data sample_preds
      (full_ids (length (annotations sample_preds))) filtered_data sample_heap
    = Ok ((d', n2o), h') ∧
    dict_at h' <$> annotations d' = dict_at sample_heap <$> annotations sample_preds ∧
    (∀ i, n2o !! i = if decide (i < length (annotations sample_preds))
                     then Some (Z.of_nat i) else None) ∧
    classes d' = map_imap (λ c _, Some (class_label c)) (classes sample_preds) ∧
    images d' = rebuilt_images sample_heap (annotations sample_preds) ∧
    (classes sample_preds
     = rebuilt_classes sample_heap (annotations sample_preds) →
     classes d' = classes sample_preds) ∧
    (images sample_preds
     = rebuilt_images sample_heap (annotations sample_preds) →
     images d' = images sample_preds).
Proof.
  exact (full_filter sample_heap sample_preds filtered_data
           sample_preds_Invariants).
Defined.

Lemma cat_Invariants : Invariants cat_heap cat_data.
Proof.
  split; simpl.
  - repeat constructor; by eexists.
  - by intros [|[|i]] l [= <-].
  - intros k img id [<- <-]%lookup_singleton_Some ->%list_elem_of_singleton.
    exists 0. split; [by left|done].
  - intros l ->%list_elem_of_singleton. exists (Image "a.jpg" [0%Z]).
    split; [done|by left].
  - intros c. rewrite dom_singleton_L, elem_of_singleton. split.
    + intros ->. exists 0. split; [by left|done].
    + by intros (l & ->%list_elem_of_singleton & [= <-]).
Qed.

(** C6 as stated fails: the dataset [cat_data] satisfies the invariants, and
    filtering it to its full id set {0} returns classes and images that differ
    from the input's (the label "cat" becomes "Class 0", the name "a.jpg"
    becomes "Image a"). *)
Lemma full_filter_relabels :
  Invariants cat_heap cat_data ∧
  ∃ d' n2o h',
    create_filtered_Data cat_data (full_ids (length (annotations cat_data)))
                         filtered_data cat_heap = Ok ((d', n2o), h') ∧
    classes cat_data !! 0%Z = Some "cat" ∧
    classes d' !! 0%Z = Some "Class 0" ∧
    images cat_data !! KStr "a" = Some (Image "a.jpg" [0%Z]) ∧
    images d' !! KStr "a" = Some (Image "Image a" [0%Z]) ∧
    classes d' ≠ classes cat_data ∧
    images d' ≠ images cat_data.
Proof.
  split; [exact cat_Invariants|].
  eexists _, _, _.
  split; [apply create_filtered_Data_run, cat_Invariants|].
  assert (classes (filtered cat_heap cat_data (full_ids 1) filtered_data).1
            !! 0%Z = Some "Class 0") as Hc by by vm_compute.
  assert (images (filtered cat_heap cat_data (full_ids 1) filtered_data).1
            !! KStr "a" = Some (Image "Image a" [0%Z])) as Hi by by vm_compute.
  split_and!; done.
Qed.

(** ** Runs of the filter on any dataset *)

Lemma select_run_ids h keep ls :
  Forall (λ l, is_Some (ann_id h l)) ls →
  filterM (λ ann, let* v := getitem ann "_id" in in_ids v keep) ls h
  = Ok (filter (λ l, kept h keep l) ls, h).
Proof.
  induction 1 as [|l ls [i Hi] _ IH]; [done|].
  cbn [filterM].
  rewrite (bind_ok _ _ _ (bool_decide (i ∈ keep)) h).
  - mstep IH. unfold ret. rewrite filter_cons.
    assert (kept h keep l = bool_decide (i ∈ keep)) as ->
      by (unfold kept; by rewrite Hi).
    by destruct (bool_decide (i ∈ keep)).
  - by mstep (getitem_ok _ _ _ _ (proj1 (ann_id_field _ _ _) Hi)).
Qed.

Lemma renumbered_app_ids h ext i sel :
  Forall (λ l, is_Some (ann_id h l)) sel →
  renumbered (h ++ ext) i sel = renumbered h i sel.
Proof.
  intros Hids. unfold renumbered. apply imap_ext. intros j l Hl. simpl.
  eapply Forall_lookup_1 in Hids; [|done].
  destruct (dict_at_is_Some _ _ Hids) as [d Hd].
  by rewrite (dict_at_app _ _ _ _ Hd), Hd.
Qed.

Lemma ann_id_app h ext l :
  is_Some (ann_id h l) → ann_id (h ++ ext) l = ann_id h l.
Proof.
  intros [i Hi]. rewrite Hi.
  apply ann_id_field, field_app. by apply ann_id_field.
Qed.

Lemma copy_loop_run_ids sel : ∀ i (n2o : gmap nat Z) acc h,
  Forall (λ l, is_Some (ann_id h l)) sel →
  for_enum (λ i ann '(n2o, acc),
              let* v := getitem ann "_id" in
              let* old := as_int v in
              let* new_ann := copy ann in
              let* _ := setitem new_ann "_id" (VInt (Z.of_nat i)) in
              ret (<[i := old]> n2o, acc ++ [new_ann]))
           i sel (n2o, acc) h
  = Ok ((map_seq i (id_of h <$> sel) ∪ n2o,
         acc ++ seq (length h) (length sel)),
        h ++ renumbered h i sel).
Proof.
  induction sel as [|l sel IH]; intros i n2o acc h Hids.
  { simpl. unfold ret. by rewrite (left_id_L ∅ (∪)), !app_nil_r. }
  apply Forall_cons in Hids as [Hl Hsel].
  pose proof Hl as [old Hold].
  destruct (dict_at_is_Some _ _ Hl) as [d Hd].
  assert (Forall (λ x, is_Some (ann_id (h ++ [ODict (<["_id" := VInt (Z.of_nat i)]> d)]) x)) sel)
    as Hsel'.
  { eapply Forall_impl; [exact Hsel|]. intros x Hx. simpl.
    by rewrite ann_id_app. }
  cbn [for_enum].
  mstep (copy_body_run h l i _ d n2o acc Hold Hd).
  rewrite IH by done.
  rewrite renumbered_app_ids by done.
  f_equal. f_equal; [f_equal|].
  - rewrite fmap_cons. cbn [map_seq].
    rewrite <- insert_union_r, insert_union_l.
    + assert (id_of h l = old) as -> by (unfold id_of; by rewrite Hold).
      do 3 f_equal. apply Forall_fmap_ext.
      eapply Forall_impl; [exact Hsel|]. intros x Hx. simpl.
      unfold id_of. by rewrite ann_id_app.
    + apply lookup_map_seq_None. lia.
  - rewrite <- !app_assoc, length_app. simpl.
    by rewrite Nat.add_1_r.
  - unfold renumbered at 2. simpl. rewrite Hd, Nat.add_0_r. simpl.
    rewrite <- app_assoc. simpl. do 2 f_equal.
    unfold renumbered. apply imap_ext. intros j y _. simpl.
    by rewrite Nat.add_succ_r.
Qed.

Lemma getitem_inv h l k v h' :
  getitem l k h = Ok (v, h') → h' = h ∧ field h l k = Some v.
Proof.
  unfold getitem, subscript, bind, load, field, dict_at.
  destruct (h !! l) as [[m|xs]|]; [|done..].
  simpl. destruct (m !! k) as [x|]; [|done].
  unfold ret. by intros [= -> ->].
Qed.

Lemma as_int_inv v z h h' : as_int v h = Ok (z, h') → h' = h ∧ v = VInt z.
Proof. destruct v; try done. unfold as_int, ret. by intros [= -> ->]. Qed.

Lemma in_ids_inv v s b h h' : in_ids v s h = Ok (b, h') → h' = h.
Proof. destruct v; try done; unfold in_ids, ret; by intros [= _ ->]. Qed.

Lemma as_key_inv v k h h' : as_key v h = Ok (k, h') → h' = h.
Proof. destruct v; try done; unfold as_key, ret; by intros [= _ ->]. Qed.

(** The selection reads a dictionary at every annotation and changes
    nothing. *)
Lemma select_inv h keep ls : ∀ sel h',
  filterM (λ ann, let* v := getitem ann "_id" in in_ids v keep) ls h
  = Ok (sel, h') →
  h' = h ∧ sel ⊆ ls ∧ Forall (λ l, is_Some (dict_at h l)) ls.
Proof.
  induction ls as [|x ls IH]; intros sel h' Hrun.
  { injection Hrun as <- <-. by split_and!. }
  cbn [filterM] in Hrun. unfold bind at 1 2 in Hrun.
  destruct (getitem x "_id" h) as [[v h1]|] eqn:Hg; [|done].
  apply getitem_inv in Hg as [-> Hv].
  destruct (in_ids v keep h) as [[b h1]|] eqn:Hin; [|done].
  apply in_ids_inv in Hin as ->.
  unfold bind in Hrun.
  remember (filterM _ ls h) as res eqn:Hrest in Hrun.
  destruct res as [[r h2]|]; [|done]. symmetry in Hrest.
  destruct (IH _ _ Hrest) as (-> & Hsub & Hall).
  injection Hrun as <- <-. split_and!.
  - done.
  - destruct b.
    + intros y [->|Hy]%elem_of_cons; [by left|right; by apply Hsub].
    + intros y Hy. right. by apply Hsub.
  - apply Forall_cons. split; [|done].
    apply field_Some in Hv as (m & Hm & _). eauto.
Qed.

(** The copies are made from dictionaries with an int [_id]. *)
Lemma copy_loop_inv sel : ∀ i (s s' : gmap nat Z * list loc) h h',
  Forall (λ l, is_Some (dict_at h l)) sel →
  for_enum (λ i ann '(n2o, acc),
              let* v := getitem ann "_id" in
              let* old := as_int v in
              let* new_ann := copy ann in
              let* _ := setitem new_ann "_id" (VInt (Z.of_nat i)) in
              ret (<[i := old]> n2o, acc ++ [new_ann]))
           i sel s h = Ok (s', h') →
  Forall (λ l, is_Some (ann_id h l)) sel.
Proof.
  induction sel as [|l sel IH]; intros i [n2o acc] s' h h' Hd Hrun; [done|].
  apply Forall_cons in Hd as [[m Hm] Hd].
  cbn [for_enum] in Hrun.
  assert (∃ old, ann_id h l = Some old) as [old Hold].
  { unfold bind at 1 2 in Hrun.
    destruct (getitem l "_id" h) as [[v h1]|] eqn:Hg; [|done].
    apply getitem_inv in Hg as [-> Hv].
    unfold bind at 1 in Hrun.
    destruct (as_int v h) as [[old h1]|] eqn:Ha; [|done].
    apply as_int_inv in Ha as [-> ->].
    exists old. by apply ann_id_field. }
  apply Forall_cons. split; [eauto|].
  rewrite (bind_ok _ _ _ _ _ (copy_body_run h l i old m n2o acc Hold Hm))
    in Hrun.
  apply IH in Hrun.
  - apply Forall_forall. intros x Hx.
    destruct (proj1 (Forall_forall _ _) Hrun x Hx) as [j Hj].
    destruct (proj1 (Forall_forall _ _) Hd x Hx) as [mx Hmx].
    exists j. apply ann_id_field, field_Some in Hj as (mx' & Hmx' & Hj).
    rewrite (dict_at_app _ _ _ _ Hmx) in Hmx'. injection Hmx' as <-.
    apply ann_id_field, field_Some. eauto.
  - eapply Forall_impl; [exact Hd|]. intros x [mx Hmx]. simpl.
    exists mx. by apply dict_at_app.
Qed.

Lemma mapL_heap {B} (f : loc → M B) :
  (∀ x y h h', f x h = Ok (y, h') → h' = h) →
  ∀ ls r h h', mapL f ls h = Ok (r, h') → h' = h.
Proof.
  intros Hf. induction ls as [|x ls IH]; intros r h h' Hrun.
  { by injection Hrun as _ <-. }
  cbn [mapL] in Hrun. unfold bind at 1 in Hrun.
  destruct (f x h) as [[y h1]|] eqn:Hx; [|done].
  apply Hf in Hx as ->. unfold bind in Hrun.
  remember (mapL f ls h) as res eqn:Hrest in Hrun.
  destruct res as [[r' h2]|]; [|done]. symmetry in Hrest.
  apply IH in Hrest as ->. by injection Hrun as _ <-.
Qed.

Lemma for_enum_heap {St} (body : nat → loc → St → M St) :
  (∀ i x s s' h h', body i x s h = Ok (s', h') → h' = h) →
  ∀ ls i s s' h h', for_enum body i ls s h = Ok (s', h') → h' = h.
Proof.
  intros Hb. induction ls as [|x ls IH]; intros i s s' h h' Hrun.
  { by injection Hrun as _ <-. }
  cbn [for_enum] in Hrun. unfold bind in Hrun.
  destruct (body i x s h) as [[s1 h1]|] eqn:Hx; [|done].
  apply Hb in Hx as ->. by apply IH in Hrun.
Qed.

Lemma class_body_heap x y h h' :
  (let* v := getitem x "class" in as_int v) h = Ok (y, h') → h' = h.
Proof.
  unfold bind. destruct (getitem x "class" h) as [[v h1]|] eqn:Hg; [|done].
  apply getitem_inv in Hg as [-> _]. by intros [-> _]%as_int_inv.
Qed.

Lemma image_body_heap (i : nat) x (m m' : gmap key (list Z)) h h' :
  (let* kv := getitem x "image_id" in
   let* k := as_key kv in
   let* v := getitem x "_id" in
   let* id := as_int v in
   ret (append_id k id m)) h = Ok (m', h') → h' = h.
Proof.
  unfold bind.
  destruct (getitem x "image_id" h) as [[kv h1]|] eqn:Hg; [|done].
  apply getitem_inv in Hg as [-> _].
  destruct (as_key kv h) as [[k h1]|] eqn:Hk; [|done].
  apply as_key_inv in Hk as ->.
  destruct (getitem x "_id" h) as [[v h1]|] eqn:Hg; [|done].
  apply getitem_inv in Hg as [-> _].
  destruct (as_int v h) as [[id h1]|] eqn:Ha; [|done].
  apply as_int_inv in Ha as [-> _]. unfold ret. by intros [= _ <-].
Qed.

(** Whenever the call returns, it has copied a sublist of the annotations,
    all of them dictionaries with an int [_id], to the end of the store. *)
Lemma create_filtered_Data_inv d keep nm h d' n2o h' :
  create_filtered_Data d keep nm h = Ok ((d', n2o), h') →
  ∃ sel, sel ⊆ annotations d ∧
         Forall (λ l, is_Some (ann_id h l)) sel ∧
         Forall (λ l, is_Some (dict_at h l)) (annotations d) ∧
         annotations d' = seq (length h) (length sel) ∧
         h' = h ++ renumbered h 0 sel.
Proof.
  unfold create_filtered_Data. intros Hrun. unfold bind at 1 in Hrun.
  remember (filterM _ (annotations d) h) as res eqn:Hsel in Hrun.
  destruct res as [[sel h1]|]; [|done]. symmetry in Hsel.
  apply select_inv in Hsel as (-> & Hsub & Hdict).
  assert (Forall (λ l, is_Some (dict_at h l)) sel) as Hdsel.
  { apply Forall_forall. intros x Hx%Hsub.
    by apply (proj1 (Forall_forall _ _) Hdict). }
  unfold bind at 1 in Hrun.
  remember (for_enum _ 0 sel (∅, []) h) as res eqn:Hcopy in Hrun.
  destruct res as [[[m1 acc] h1]|]; [|done]. symmetry in Hcopy.
  pose proof (copy_loop_inv _ _ _ _ _ _ Hdsel Hcopy) as Hids.
  rewrite (copy_loop_run_ids sel 0 ∅ [] h Hids) in Hcopy.
  injection Hcopy as <- <- <-. cbn [app] in Hrun.
  unfold bind at 1 in Hrun.
  remember (mapL _ _ _) as res eqn:Hcls in Hrun.
  destruct res as [[cls h1]|]; [|done]. symmetry in Hcls.
  apply (mapL_heap _ class_body_heap) in Hcls as ->.
  unfold bind at 1 in Hrun.
  remember (for_enum _ 0 _ ∅ _) as res eqn:Himg in Hrun.
  destruct res as [[ims h1]|]; [|done]. symmetry in Himg.
  apply (for_enum_heap _ image_body_heap) in Himg as ->.
  injection Hrun as <- _ <-. exists sel. by split_and!.
Qed.

(** ** What the filter shares with its input *)

(** C8, amended.  For every dataset and every set of ids to keep, whenever
    the filter returns it has left every object of the input store as it
    was, so every source annotation keeps its [_id]; the annotations it
    returns are new, pairwise distinct objects.  The copy is shallow: a
    returned annotation has the items of its source except for [_id], so
    every object that a returned annotation refers to is an object that a
    source annotation refers to.  No invariant is asked of the input; the
    filter does return when every annotation has an int [_id] and the
    selected ones are well formed. *)
Theorem filter_frame h d keep nm :
  (Forall (λ l, is_Some (ann_id h l)) (annotations d) →
   Forall (wf_ann h) (selected h d keep) →
   ∃ r, create_filtered_Data d keep nm h = Ok r) ∧
  ∀ d' n2o h',
    create_filtered_Data d keep nm h = Ok ((d', n2o), h') →
    (∀ l o, h !! l = Some o → h' !! l = Some o) ∧
    (∀ l, l ∈ annotations d → ann_id h' l = ann_id h l) ∧
    NoDup (annotations d') ∧
    (∀ l', l' ∈ annotations d' → length h ≤ l') ∧
    (∀ j l', annotations d' !! j = Some l' →
       ∃ l m, l ∈ annotations d ∧ dict_at h l = Some m ∧
              dict_at h' l' = Some (<["_id" := VInt (Z.of_nat j)]> m)) ∧
    (∀ l' k o, l' ∈ annotations d' → field h' l' k = Some (VRef o) →
       ∃ l, l ∈ annotations d ∧ field h l k = Some (VRef o)).
Proof.
  split.
  { intros Hids Hsel. eexists. unfold create_filtered_Data.
    mstep (select_run_ids h keep _ Hids). fold (selected h d keep).
    mstep (copy_loop_run _ 0 ∅ [] h Hsel). cbn [app].
    pose proof (new_anns_wf _ _ Hsel) as Hnew.
    mstep (class_loop_run _ _ Hnew).
    mstep (image_loop_run _ _ 0 ∅ Hnew). reflexivity. }
  intros d' n2o h' (sel & Hsub & Hids & Hdict & Hanns & ->)%create_filtered_Data_inv.
  assert (∀ j l', annotations d' !! j = Some l' →
            ∃ l m, l ∈ annotations d ∧ dict_at h l = Some m ∧
                   dict_at (h ++ renumbered h 0 sel) l'
                   = Some (<["_id" := VInt (Z.of_nat j)]> m)) as Hcopy.
  { intros j l'. rewrite Hanns. intros [-> Hj]%lookup_seq.
    destruct (lookup_lt_is_Some_2 _ _ Hj) as [l Hl].
    destruct (dict_at_is_Some _ _ (Forall_lookup_1 _ _ _ _ Hids Hl))
      as [m Hm].
    exists l, m. split_and!; [|done|by apply (new_ann_dict _ _ _ l)].
    apply list_elem_of_lookup_2 in Hl. by apply Hsub. }
  split_and!.
  - intros l o Hl. by apply lookup_app_l_Some.
  - intros l Hl.
    destruct (proj1 (Forall_forall _ _) Hdict l Hl) as [m Hm].
    unfold ann_id, field. by rewrite (dict_at_app _ _ _ _ Hm), Hm.
  - rewrite Hanns. apply NoDup_seq.
  - intros l'. rewrite Hanns. intros Hl'%elem_of_seq. lia.
  - done.
  - intros l' k o [j Hj]%list_elem_of_lookup Hk.
    destruct (Hcopy _ _ Hj) as (l & m & Hl & Hm & Hnew).
    exists l. split; [done|].
    apply field_Some in Hk as (m' & Hm' & Hk).
    rewrite Hnew in Hm'. injection Hm' as <-.
    apply field_Some. exists m. split; [done|].
    destruct (decide (k = "_id")) as [->|Hne].
    + by rewrite lookup_insert_eq in Hk.
    + by rewrite lookup_insert_ne in Hk.
Qed.

Lemma filter_frame_witness :
  ∃ d' n2o h',
    create_filtered_Data (mkData "loose" [4; 2; 2] ∅ ∅) {[0%Z; 2%Z]}
                         filtered_data sample_heap
    = Ok ((d', n2o), h') ∧
    (∀ l o, sample_heap !! l = Some o → h' !! l = Some o) ∧
    (∀ l, l ∈ [4; 2; 2] → ann_id h' l = ann_id sample_heap l) ∧
    NoDup (annotations d') ∧
    (∀ l', l' ∈ annotations d' → length sample_heap ≤ l') ∧
    (∀ j l', annotations d' !! j = Some l' →
       ∃ l m, l ∈ [4; 2; 2] ∧ dict_at sample_heap l = Some m ∧
              dict_at h' l' = Some (<["_id" := VInt (Z.of_nat j)]> m)) ∧
    (∀ l' k o, l' ∈ annotations d' → field h' l' k = Some (VRef o) →
       ∃ l, l ∈ [4; 2; 2] ∧ field sample_heap l k = Some (VRef o)).
Proof.
  destruct (filter_frame sample_heap (mkData "loose" [4; 2; 2] ∅ ∅)
              {[0%Z; 2%Z]} filtered_data) as [Hrun Hframe].
  destruct Hrun as [[[d' n2o] h'] Hrun].
  - repeat constructor; by eexists.
  - apply selected_wf. repeat constructor; by eexists.
  - exists d', n2o, h'. split; [exact Hrun|]. exact (Hframe d' n2o h' Hrun).
Defined.


(** C8 as stated fails: filtering the sample predictions to the id 0 returns
    an annotation (at location 8) whose [info] is the very dictionary (at
    location 5) that the source annotation (at location 2) refers to. *)
Lemma filter_shares_info :
  ∃ d' n2o h',
    create_filtered_Data sample_preds {[0%Z]} filtered_data sample_heap
    = Ok ((d', n2o), h') ∧
    annotations d' = [8] ∧
    field h' 2 "info" = Some (VRef 5) ∧
    field h' 8 "info" = Some (VRef 5) ∧
    ¬ shares_no_state h' sample_preds d'.
Proof.
  eexists _, _, _.
  split; [apply create_filtered_Data_run, sample_preds_Invariants|].
  assert (field (filtered_heap sample_heap sample_preds {[0%Z]}) 2 "info"
          = Some (VRef 5)) as H2 by by vm_compute.
  assert (field (filtered_heap sample_heap sample_preds {[0%Z]}) 8 "info"
          = Some (VRef 5)) as H8 by by vm_compute.
  split_and!; [by vm_compute|done|done|].
  intros Hno. apply (Hno 5). split; right.
  - exists 2, "info". split; [|done]. simpl. by left.
  - exists 8, "info". split; [|done]. by left.
Qed.

(** ** The loops of the enlarger *)

Lemma info_of_Some h l im :
  info_of h l = Some im ↔
  ∃ il, field h l "info" = Some (VRef il) ∧ dict_at h il = Some im.
Proof.
  unfold info_of. destruct (field h l "info") as [[]|]; split;
    try done; try (by intros (? & ? & ?)).
  - eauto.
  - by intros (? & [= <-] & ?).
Qed.

Lemma subscript_ok h il im k v :
  dict_at h il = Some im → im !! k = Some v →
  subscript (VRef il) k h = Ok (v, h).
Proof.
  intros Hd%dict_at_Some Hk. unfold subscript, bind, load. by rewrite Hd, Hk.
Qed.

Lemma contains_ok h il im k :
  dict_at h il = Some im →
  contains k (VRef il) h = Ok (bool_decide (k ∈ dom im), h).
Proof. intros Hd%dict_at_Some. unfold contains, bind, load. by rewrite Hd. Qed.

Lemma dict_get_ok h il im k :
  dict_at h il = Some im →
  dict_get (VRef il) k h = Ok (default VNone (im !! k), h).
Proof. intros Hd%dict_at_Some. unfold dict_get, bind, load. by rewrite Hd. Qed.

Section enlarger_loops.
Variable h : heap.
Implicit Types (l : loc) (ls : list loc) (acc : gset Z).

Lemma assoc_gts_body_run l pk acc :
  wf_pred h l →
  (let* info := getitem l "info" in
   let* has := contains "matched_with" info in
   let* cond :=
     if has
     then let* v := getitem l "_id" in in_ids v pk
     else ret false in
   if cond
   then let* info := getitem l "info" in
        let* mw := subscript info "matched_with" in
        let* g := as_int mw in
        ret (acc ∪ {[g]})
   else ret acc) h
  = Ok (acc ∪ assoc_gts_set h [l] pk, h).
Proof.
  intros (Hwf & im & (il & Hinfo & Him)%info_of_Some & Hlink).
  destruct (wf_ann_views _ _ Hwf) as (Hid & _).
  assert (matched_with h l = im !! "matched_with" ≫= int_of) as Hmw.
  { unfold matched_with, info_of. by rewrite Hinfo, Him. }
  assert (kept h pk l = bool_decide (id_of h l ∈ pk)) as Hkept.
  { unfold kept. by rewrite Hid. }
  unfold assoc_gts_set. rewrite filter_cons, filter_nil, Hkept.
  mstep (getitem_ok _ _ _ _ Hinfo).
  mstep (contains_ok _ _ _ "matched_with" Him).
  destruct (im !! "matched_with") as [v|] eqn:Hv.
  - rewrite bool_decide_true by (apply elem_of_dom; eauto).
    rewrite (bind_ok _ _ _ (bool_decide (id_of h l ∈ pk)) h)
      by by mstep (getitem_ok _ _ _ _ (proj1 (ann_id_field _ _ _) Hid)).
    destruct (Hlink _ eq_refl) as [g Hg]. apply int_of_Some in Hg as ->.
    destruct (bool_decide (id_of h l ∈ pk)); simpl.
    + mstep (getitem_ok _ _ _ _ Hinfo).
      mstep (subscript_ok _ _ _ _ _ Him Hv).
      mstep (as_int_ok h g). unfold ret. rewrite Hmw. simpl.
      by rewrite (right_id_L ∅ (∪)).
    + unfold ret. by rewrite (right_id_L ∅ (∪)).
  - rewrite bool_decide_false by (rewrite elem_of_dom, Hv; by intros [? ?]).
    mstep (eq_refl : ret false h = Ok (false, h)).
    unfold ret. destruct (bool_decide (id_of h l ∈ pk)); simpl.
    + rewrite Hmw. simpl. by rewrite (right_id_L ∅ (∪)).
    + by rewrite (right_id_L ∅ (∪)).
Qed.

Lemma assoc_gts_set_cons l ls pk :
  assoc_gts_set h (l :: ls) pk
  = assoc_gts_set h [l] pk ∪ assoc_gts_set h ls pk.
Proof.
  unfold assoc_gts_set.
  change (l :: ls) with ([l] ++ ls).
  by rewrite filter_app, omap_app, list_to_set_app_L.
Qed.

Lemma assoc_gts_loop_run ls pk : ∀ i acc,
  Forall (wf_pred h) ls →
  for_enum (λ _ pred (acc : gset Z),
              let* info := getitem pred "info" in
              let* has := contains "matched_with" info in
              let* cond :=
                if has
                then let* v := getitem pred "_id" in in_ids v pk
                else ret false in
              if cond
              then let* info := getitem pred "info" in
                   let* mw := subscript info "matched_with" in
                   let* g := as_int mw in
                   ret (acc ∪ {[g]})
              else ret acc)
           i ls acc h
  = Ok (acc ∪ assoc_gts_set h ls pk, h).
Proof.
  intros i acc Hwf. revert i acc.
  induction Hwf as [|l ls Hl _ IH]; intros i acc.
  { simpl. unfold ret, assoc_gts_set. simpl.
    by rewrite (right_id_L ∅ (∪)). }
  cbn [for_enum]. mstep (assoc_gts_body_run l pk acc Hl).
  by rewrite IH, (assoc_gts_set_cons l ls), (assoc_L (∪)).
Qed.

Lemma assoc_preds_body_run l fg acc :
  wf_pred h l →
  (let* info := getitem l "info" in
   let* mw := dict_get info "matched_with" in
   let* cond := in_ids mw fg in
   if cond
   then let* v := getitem l "_id" in
        let* p := as_int v in
        ret (acc ∪ {[p]})
   else ret acc) h
  = Ok (acc ∪ assoc_preds_set h [l] fg, h).
Proof.
  intros (Hwf & im & (il & Hinfo & Him)%info_of_Some & Hlink).
  destruct (wf_ann_views _ _ Hwf) as (Hid & _).
  assert (matched_with h l = im !! "matched_with" ≫= int_of) as Hmw.
  { unfold matched_with, info_of. by rewrite Hinfo, Him. }
  unfold assoc_preds_set. rewrite filter_cons, filter_nil.
  unfold linked. rewrite Hmw.
  mstep (getitem_ok _ _ _ _ Hinfo).
  mstep (dict_get_ok _ _ _ "matched_with" Him).
  destruct (im !! "matched_with") as [v|] eqn:Hv; simpl.
  - destruct (Hlink _ eq_refl) as [g Hg]. apply int_of_Some in Hg as ->.
    mstep (in_ids_int h g fg). simpl.
    destruct (bool_decide (g ∈ fg)); simpl.
    + mstep (getitem_ok _ _ _ _ (proj1 (ann_id_field _ _ _) Hid)).
      mstep (as_int_ok h (id_of h l)). unfold ret.
      by rewrite (right_id_L ∅ (∪)).
    + unfold ret. by rewrite (right_id_L ∅ (∪)).
  - mstep (eq_refl : in_ids VNone fg h = Ok (false, h)).
    unfold ret. by rewrite (right_id_L ∅ (∪)).
Qed.

Lemma assoc_preds_set_cons l ls fg :
  assoc_preds_set h (l :: ls) fg
  = assoc_preds_set h [l] fg ∪ assoc_preds_set h ls fg.
Proof.
  unfold assoc_preds_set.
  change (l :: ls) with ([l] ++ ls).
  by rewrite filter_app, fmap_app, list_to_set_app_L.
Qed.

Lemma assoc_preds_loop_run ls fg : ∀ i acc,
  Forall (wf_pred h) ls →
  for_enum (λ _ pred (acc : gset Z),
              let* info := getitem pred "info" in
              let* mw := dict_get info "matched_with" in
              let* cond := in_ids mw fg in
              if cond
              then let* v := getitem pred "_id" in
                   let* p := as_int v in
                   ret (acc ∪ {[p]})
              else ret acc)
           i ls acc h
  = Ok (acc ∪ assoc_preds_set h ls fg, h).
Proof.
  intros i acc Hwf. revert i acc.
  induction Hwf as [|l ls Hl _ IH]; intros i acc.
  { simpl. unfold ret, assoc_preds_set. simpl.
    by rewrite (right_id_L ∅ (∪)). }
  cbn [for_enum]. mstep (assoc_preds_body_run l fg acc Hl).
  by rewrite IH, (assoc_preds_set_cons l ls), (assoc_L (∪)).
Qed.
End enlarger_loops.

(** ** What the enlarger computes *)

Lemma elem_of_assoc_gts_set h ls pk g :
  g ∈ assoc_gts_set h ls pk ↔
  ∃ l, l ∈ ls ∧ matched_with h l = Some g ∧
       ∃ i, ann_id h l = Some i ∧ i ∈ pk.
Proof.
  unfold assoc_gts_set. rewrite elem_of_list_to_set, list_elem_of_omap.
  split.
  - intros (l & [Hk Hl]%list_elem_of_filter & Hmw).
    apply kept_iff in Hk. eauto.
  - intros (l & Hl & Hmw & Hk). exists l. split; [|done].
    apply list_elem_of_filter. split; [by apply kept_iff|done].
Qed.

Lemma linked_iff h fg l :
  linked h fg l ↔ ∃ g, matched_with h l = Some g ∧ g ∈ fg.
Proof.
  unfold linked. destruct (matched_with h l) as [g|].
  - rewrite bool_decide_spec. split; [eauto|]. by intros (? & [= <-] & ?).
  - split; [done|]. by intros (? & ? & ?).
Qed.

Lemma elem_of_assoc_preds_set h ls fg p :
  Forall (wf_ann h) ls →
  p ∈ assoc_preds_set h ls fg ↔
  ∃ l, l ∈ ls ∧ ann_id h l = Some p ∧
       ∃ g, matched_with h l = Some g ∧ g ∈ fg.
Proof.
  intros Hwf. unfold assoc_preds_set.
  rewrite elem_of_list_to_set, list_elem_of_fmap. split.
  - intros (l & -> & [Hk Hl]%list_elem_of_filter).
    apply linked_iff in Hk. exists l. split_and!; [done| |done].
    eapply Forall_forall in Hwf; [|done].
    by destruct (wf_ann_views _ _ Hwf) as (? & _).
  - intros (l & Hl & Hid & Hk). exists l. split.
    + unfold id_of. by rewrite Hid.
    + apply list_elem_of_filter. split; [by apply linked_iff|done].
Qed.

Lemma wf_pred_wf_ann h ls : Forall (wf_pred h) ls → Forall (wf_ann h) ls.
Proof. intros H. eapply Forall_impl; [done|]. by intros l [? _]. Qed.

Lemma assoc_gts_of_run h preds pk :
  Forall (wf_pred h) (annotations preds) →
  assoc_gts_of preds pk h = Ok (assoc_gts_set h (annotations preds) pk, h).
Proof.
  intros Hwf. unfold assoc_gts_of, for_each.
  by rewrite assoc_gts_loop_run, (left_id_L ∅ (∪)).
Qed.

Lemma assoc_preds_of_run h preds fg :
  Forall (wf_pred h) (annotations preds) →
  assoc_preds_of preds fg h = Ok (assoc_preds_set h (annotations preds) fg, h).
Proof.
  intros Hwf. unfold assoc_preds_of, for_each.
  by rewrite assoc_preds_loop_run, (left_id_L ∅ (∪)).
Qed.

Lemma enlarge_run h gts preds gk pk :
  Forall (wf_ann h) (annotations gts) →
  Forall (wf_pred h) (annotations preds) →
  let fg := enlarged_gts h preds gk pk in
  let fp := enlarged_preds h preds gk pk in
  let h1 := filtered_heap h gts fg in
  enlarge_dataset_to_respect_TIDE gts preds gk pk h
  = Ok (((filtered h gts fg filtered_data).1,
         (filtered h1 preds fp filtered_data).1,
         (filtered h gts fg filtered_data).2,
         (filtered h1 preds fp filtered_data).2),
        filtered_heap h1 preds fp).
Proof.
  intros Hg Hp fg fp h1. unfold enlarge_dataset_to_respect_TIDE.
  mstep (assoc_gts_of_run h preds pk Hp).
  mstep (assoc_preds_of_run h preds fg Hp).
  mstep (create_filtered_Data_run h gts fg filtered_data Hg).
  destruct (filtered h gts fg filtered_data) as [ge gm] eqn:Hge.
  assert (Forall (wf_ann h1) (annotations preds)) as Hp1
    by by apply Forall_wf_ann_app, wf_pred_wf_ann.
  mstep (create_filtered_Data_run h1 preds fp filtered_data Hp1).
  by destruct (filtered h1 preds fp filtered_data) as [pe pm] eqn:Hpe.
Qed.

(** ** Reading a dataset in a larger store *)

Lemma kept_app h ext keep l : wf_ann h l → kept (h ++ ext) keep l = kept h keep l.
Proof.
  intros (Hid & _)%(ann_views_app _ ext). unfold kept. by rewrite Hid.
Qed.

Lemma selected_app h ext d keep :
  Forall (wf_ann h) (annotations d) →
  selected (h ++ ext) d keep = selected h d keep.
Proof.
  intros Hwf. apply filter_ext_in. intros l Hl.
  eapply Forall_forall in Hwf; [|done]. by rewrite kept_app.
Qed.

Lemma class_of_app h ext l : wf_ann h l → class_of (h ++ ext) l = class_of h l.
Proof.
  intros (_ & H & _)%(ann_views_app _ ext). unfold class_of. by rewrite H.
Qed.

Lemma image_of_app h ext l : wf_ann h l → image_of (h ++ ext) l = image_of h l.
Proof.
  intros (_ & _ & H)%(ann_views_app _ ext). unfold image_of. by rewrite H.
Qed.

Lemma dataset_ids_app h ext d :
  Forall (wf_ann h) (annotations d) →
  dataset_ids (h ++ ext) d = dataset_ids h d.
Proof.
  intros Hwf. unfold dataset_ids. f_equal. apply Forall_fmap_ext.
  eapply Forall_impl; [done|]. intros. by apply id_of_app.
Qed.

(** The values of [new_to_old] are the kept ids that the dataset has. *)
Lemma elem_of_map_img_seq (xs : list Z) x :
  x ∈ (map_img (map_seq (M := gmap nat Z) 0 xs) : gset Z) ↔ x ∈ xs.
Proof.
  rewrite elem_of_map_img, list_elem_of_lookup.
  by setoid_rewrite lookup_map_seq_0.
Qed.

Lemma new_to_old_values h d keep nm :
  Forall (wf_ann h) (annotations d) →
  map_img (filtered h d keep nm).2 = keep ∩ dataset_ids h d.
Proof.
  intros Hwf. apply set_eq. intros x. unfold filtered. simpl.
  rewrite elem_of_map_img_seq, elem_of_intersection, list_elem_of_fmap.
  unfold dataset_ids. rewrite elem_of_list_to_set, list_elem_of_fmap. split.
  - intros (l & -> & (Hl & i & Hi & Hin)%elem_of_selected).
    unfold id_of. rewrite Hi. simpl. split; [done|].
    exists l. by rewrite Hi.
  - intros (Hin & l & -> & Hl). exists l. split; [done|].
    apply elem_of_selected. split; [done|]. exists (id_of h l).
    split; [|done]. eapply Forall_forall in Hwf; [|done].
    by destruct (wf_ann_views _ _ Hwf) as (? & _).
Qed.

(** ** Closure of the enlarged sets *)

Lemma sample_preds_wf : Forall (wf_pred sample_heap) (annotations sample_preds).
Proof.
  repeat constructor; try (by eexists).
  all: eexists; split; [reflexivity|].
  all: intros v Hv; vm_compute in Hv; injection Hv as <-; by eexists.
Qed.

Lemma sample_links_valid l g :
  l ∈ annotations sample_preds →
  matched_with sample_heap l = Some g →
  ∃ lg, lg ∈ annotations sample_gts ∧ ann_id sample_heap lg = Some g.
Proof.
  intros Hl Hg. exists 0. split; [by left|].
  simpl in Hl. rewrite !elem_of_cons in Hl.
  destruct Hl as [->|[->|[->|Hl]]].
  - by injection Hg as <-.
  - by injection Hg as <-.
  - done.
  - by apply not_elem_of_nil in Hl.
Qed.

(** C1. For datasets that satisfy the invariants, where every prediction has
    an [info] mapping and every [matched_with] is the [_id] of a ground truth,
    the enlarger succeeds, and (i) whenever a kept prediction is matched with
    [g], [g] is among the values of [gts_map]; (ii) whenever [g] is among the
    values of [gts_map], every prediction matched with [g], kept or not, has
    its [_id] among the values of [preds_map]. *)
Theorem enlarge_closure h gts preds gk pk :
  Invariants h gts →
  Invariants h preds →
  Forall (wf_pred h) (annotations preds) →
  (∀ l g, l ∈ annotations preds → matched_with h l = Some g →
          ∃ lg, lg ∈ annotations gts ∧ ann_id h lg = Some g) →
  ∃ ge pe (gm pm : gmap nat Z) h',
    enlarge_dataset_to_respect_TIDE gts preds gk pk h
    = Ok ((ge, pe, gm, pm), h') ∧
    (∀ l p g, l ∈ annotations preds → ann_id h l = Some p → p ∈ pk →
              matched_with h l = Some g → g ∈ (map_img gm : gset Z)) ∧
    (∀ g l q, g ∈ (map_img gm : gset Z) → l ∈ annotations preds →
              matched_with h l = Some g → ann_id h l = Some q →
              q ∈ (map_img pm : gset Z)).
Proof.
  intros Hg Hp Hwp Hvalid.
  pose proof (inv_wf _ _ Hg) as Hwg. pose proof (inv_wf _ _ Hp) as Hwpa.
  eexists _, _, _, _, _. split; [by apply enlarge_run|].
  set (fg := enlarged_gts h preds gk pk).
  set (fp := enlarged_preds h preds gk pk).
  rewrite !new_to_old_values by (done || by apply Forall_wf_ann_app).
  unfold filtered_heap. rewrite dataset_ids_app by done.
  assert (∀ l q, l ∈ annotations preds → ann_id h l = Some q →
                 q ∈ dataset_ids h preds) as Hidp.
  { intros l q Hl Hq. apply elem_of_list_to_set, list_elem_of_fmap.
    exists l. unfold id_of. by rewrite Hq. }
  split.
  - intros l p g Hl Hid Hpk Hmw. apply elem_of_intersection. split.
    + apply elem_of_union_r, elem_of_assoc_gts_set. eauto 10.
    + destruct (Hvalid _ _ Hl Hmw) as (lg & Hlg & Hidg).
      apply elem_of_list_to_set, list_elem_of_fmap.
      exists lg. unfold id_of. by rewrite Hidg.
  - intros g l q [Hfg _]%elem_of_intersection Hl Hmw Hid.
    apply elem_of_intersection. split; [|by eapply Hidp].
    apply elem_of_union_l, elem_of_assoc_preds_set; [done|]. eauto 10.
Qed.

Lemma enlarge_closure_witness :
  ∃ ge pe (gm pm : gmap nat Z) h',
    enlarge_dataset_to_respect_TIDE sample_gts sample_preds ∅ {[1%Z]}
                                    sample_heap
    = Ok ((ge, pe, gm, pm), h') ∧
    (∀ l p g, l ∈ annotations sample_preds → ann_id sample_heap l = Some p →
              p ∈ ({[1%Z]} : gset Z) →
              matched_with sample_heap l = Some g →
              g ∈ (map_img gm : gset Z)) ∧
    (∀ g l q, g ∈ (map_img gm : gset Z) → l ∈ annotations sample_preds →
              matched_with sample_heap l = Some g →
              ann_id sample_heap l = Some q →
              q ∈ (map_img pm : gset Z)).
Proof.
  exact (enlarge_closure sample_heap sample_gts sample_preds ∅ {[1%Z]}
           sample_gts_Invariants sample_preds_Invariants sample_preds_wf
           sample_links_valid).
Defined.

(** ** Re-running the enlarger on its own output *)

Lemma info_of_app h ext l im :
  info_of h l = Some im → info_of (h ++ ext) l = Some im.
Proof.
  rewrite !info_of_Some. intros (il & Hi & Hd).
  exists il. eauto using field_app, dict_at_app.
Qed.

Lemma wf_pred_app h ext l :
  wf_pred h l →
  wf_pred (h ++ ext) l ∧ matched_with (h ++ ext) l = matched_with h l.
Proof.
  intros (Hwf & im & Him & Hlink). split.
  - split; [by apply wf_ann_app|]. exists im. eauto using info_of_app.
  - unfold matched_with. by rewrite (info_of_app _ ext _ _ Him), Him.
Qed.

Lemma Forall_wf_pred_app h ext ls :
  Forall (wf_pred h) ls → Forall (wf_pred (h ++ ext)) ls.
Proof.
  intros H. eapply Forall_impl; [done|]. intros l Hl.
  by apply wf_pred_app.
Qed.

Lemma assoc_gts_set_app h ext ls pk :
  Forall (wf_pred h) ls →
  assoc_gts_set (h ++ ext) ls pk = assoc_gts_set h ls pk.
Proof.
  intros Hwf. apply set_eq. intros g. rewrite !elem_of_assoc_gts_set.
  split; intros (l & Hl & Hmw & i & Hi & Hin); exists l;
    pose proof (proj1 (Forall_forall _ _) Hwf l Hl) as Hwl;
    destruct (wf_pred_app _ ext _ Hwl) as [_ Hmw'];
    destruct (ann_views_app _ ext _ (proj1 Hwl)) as (Hid' & _);
    (split_and!; [done|congruence|exists i; split; [congruence|done]]).
Qed.

Lemma assoc_preds_set_app h ext ls fg :
  Forall (wf_pred h) ls →
  assoc_preds_set (h ++ ext) ls fg = assoc_preds_set h ls fg.
Proof.
  intros Hwf. apply set_eq. intros p.
  rewrite !elem_of_assoc_preds_set
    by by (try apply Forall_wf_ann_app); apply wf_pred_wf_ann.
  split; intros (l & Hl & Hi & g & Hmw & Hin); exists l;
    pose proof (proj1 (Forall_forall _ _) Hwf l Hl) as Hwl;
    destruct (wf_pred_app _ ext _ Hwl) as [_ Hmw'];
    destruct (ann_views_app _ ext _ (proj1 Hwl)) as (Hid' & _);
    (split_and!; [done|congruence|exists g; split; [congruence|done]]).
Qed.

Lemma contents_app h ext ls :
  Forall (wf_ann h) ls → dict_at (h ++ ext) <$> ls = dict_at h <$> ls.
Proof.
  intros Hwf. apply Forall_fmap_ext. eapply Forall_impl; [done|].
  intros l [m Hm]%wf_ann_dict. by rewrite (dict_at_app _ _ _ _ Hm).
Qed.

(** The result of the filter in a store [h ++ e], in terms of the dataset as
    read in [h]. *)
Lemma filtered_in_extension h e d keep nm :
  Forall (wf_ann h) (annotations d) →
  let sel := selected h d keep in
  name (filtered (h ++ e) d keep nm).1 = nm ∧
  classes (filtered (h ++ e) d keep nm).1
  = build_classes (class_of h <$> sel) ∧
  images (filtered (h ++ e) d keep nm).1
  = build_images
      (group_ids (imap (λ j l, (image_of h l, Z.of_nat j)) sel) ∅) ∧
  (filtered (h ++ e) d keep nm).2 = map_seq 0 (id_of h <$> sel) ∧
  dict_at (filtered_heap (h ++ e) d keep)
    <$> annotations (filtered (h ++ e) d keep nm).1
  = imap (λ j l, insert "_id" (VInt (Z.of_nat j)) <$> dict_at h l) sel.
Proof.
  intros Hwf sel.
  pose proof (selected_wf _ _ keep Hwf) as Hsel. fold sel in Hsel.
  pose proof (Forall_wf_ann_app _ e _ Hsel) as Hsel'.
  unfold filtered, filtered_heap. rewrite selected_app by done. fold sel.
  simpl. split_and!.
  - done.
  - unfold rebuilt_classes. rewrite new_classes by done. f_equal.
    apply Forall_fmap_ext. eapply Forall_impl; [exact Hsel|].
    intros. by apply class_of_app.
  - unfold rebuilt_images. rewrite new_image_ids by done. do 2 f_equal.
    apply imap_ext. intros j l Hl. simpl.
    by rewrite image_of_app by by eapply Forall_lookup_1.
  - f_equal. apply Forall_fmap_ext. eapply Forall_impl; [exact Hsel|].
    intros. by apply id_of_app.
  - apply fmap_seq_new. intros j l Hl.
    destruct (wf_ann_dict _ _ (Forall_lookup_1 _ _ _ _ Hsel Hl)) as [m Hm].
    rewrite Hm. simpl. apply (new_ann_dict _ _ _ l); [done|].
    by apply dict_at_app.
Qed.

Lemma filtered_same h e1 e2 d k1 k2 nm :
  Forall (wf_ann h) (annotations d) →
  selected h d k1 = selected h d k2 →
  same_dataset (filtered_heap (h ++ e1) d k1) (filtered (h ++ e1) d k1 nm).1
               (filtered_heap (h ++ e2) d k2) (filtered (h ++ e2) d k2 nm).1 ∧
  (filtered (h ++ e1) d k1 nm).2 = (filtered (h ++ e2) d k2 nm).2.
Proof.
  intros Hwf Hsel. unfold same_dataset.
  destruct (filtered_in_extension h e1 d k1 nm Hwf) as (-> & -> & -> & -> & ->).
  destruct (filtered_in_extension h e2 d k2 nm Hwf) as (-> & -> & -> & -> & ->).
  by rewrite Hsel.
Qed.

Lemma filtered_same_prefix h H1 H2 d k1 k2 nm :
  Forall (wf_ann h) (annotations d) →
  h `prefix_of` H1 → h `prefix_of` H2 →
  selected h d k1 = selected h d k2 →
  same_dataset (filtered_heap H1 d k1) (filtered H1 d k1 nm).1
               (filtered_heap H2 d k2) (filtered H2 d k2 nm).1 ∧
  (filtered H1 d k1 nm).2 = (filtered H2 d k2 nm).2.
Proof. intros Hwf [e1 ->] [e2 ->]. by apply filtered_same. Qed.

Lemma same_dataset_app_l h1 e d1 h2 d2 :
  Forall (wf_ann h1) (annotations d1) →
  same_dataset h1 d1 h2 d2 → same_dataset (h1 ++ e) d1 h2 d2.
Proof.
  intros Hwf (? & ? & ? & ?). split_and!; [done..|].
  by rewrite contents_app.
Qed.

Lemma same_dataset_app_r h1 d1 h2 e d2 :
  Forall (wf_ann h2) (annotations d2) →
  same_dataset h1 d1 h2 d2 → same_dataset h1 d1 (h2 ++ e) d2.
Proof.
  intros Hwf (? & ? & ? & ?). split_and!; [done..|].
  by rewrite contents_app.
Qed.

Lemma filtered_wf h d keep nm :
  Forall (wf_ann h) (annotations d) →
  Forall (wf_ann (filtered_heap h d keep))
         (annotations (filtered h d keep nm).1).
Proof. intros Hwf. by apply new_anns_wf, selected_wf. Qed.

Lemma ids_inj h d l1 l2 p :
  Invariants h d →
  l1 ∈ annotations d → l2 ∈ annotations d →
  ann_id h l1 = Some p → ann_id h l2 = Some p → l1 = l2.
Proof.
  intros Hinv [i1 H1]%list_elem_of_lookup [i2 H2]%list_elem_of_lookup Hp1 Hp2.
  rewrite (inv_ids _ _ Hinv _ _ H1) in Hp1.
  rewrite (inv_ids _ _ Hinv _ _ H2) in Hp2.
  assert (i1 = i2) as -> by (apply (inj Z.of_nat); congruence).
  congruence.
Qed.

Lemma elem_of_dataset_ids h d l p :
  l ∈ annotations d → ann_id h l = Some p → p ∈ dataset_ids h d.
Proof.
  intros Hl Hp. apply elem_of_list_to_set, list_elem_of_fmap.
  exists l. unfold id_of. by rewrite Hp.
Qed.

Section fixpoint.
Variables (h : heap) (gts preds : Data) (gk pk : gset Z).
Hypothesis Hg : Invariants h gts.
Hypothesis Hp : Invariants h preds.
Hypothesis Hwp : Forall (wf_pred h) (annotations preds).

Lemma fix_gts_sub g :
  g ∈ enlarged_gts h preds (fix_G h gts preds gk pk) (fix_P h preds gk pk) →
  g ∈ enlarged_gts h preds gk pk.
Proof.
  unfold fix_G, fix_P, enlarged_preds, enlarged_gts.
  intros [[? _]%elem_of_intersection|Hin]%elem_of_union; [done|].
  apply elem_of_assoc_gts_set in Hin as (l2 & Hl2 & Hmw & i & Hi & Hin).
  apply elem_of_intersection in Hin as [[Hin|Hin]%elem_of_union _].
  - apply elem_of_assoc_preds_set in Hin
      as (l3 & Hl3 & Hi3 & g3 & Hmw3 & Hg3); [|by apply inv_wf].
    assert (l3 = l2) as -> by by eapply ids_inj.
    congruence.
  - apply elem_of_union_r, elem_of_assoc_gts_set. eauto 10.
Qed.

Lemma fix_linked l g :
  l ∈ annotations preds → matched_with h l = Some g →
  g ∈ enlarged_gts h preds gk pk →
  g ∈ enlarged_gts h preds (fix_G h gts preds gk pk) (fix_P h preds gk pk).
Proof.
  unfold fix_G, fix_P, enlarged_preds, enlarged_gts. intros Hl Hmw Hin.
  pose proof (proj1 (Forall_forall _ _) (inv_wf _ _ Hp) l Hl) as Hwl.
  destruct (wf_ann_views _ _ Hwl) as (Hid & _).
  apply elem_of_union_r, elem_of_assoc_gts_set.
  exists l. split_and!; [done..|]. exists (id_of h l). split; [done|].
  apply elem_of_intersection. split; [|by eapply elem_of_dataset_ids].
  apply elem_of_union_l, elem_of_assoc_preds_set; [by apply inv_wf|].
  eauto 10.
Qed.

Lemma fix_selected_gts :
  selected h gts
    (enlarged_gts h preds (fix_G h gts preds gk pk) (fix_P h preds gk pk))
  = selected h gts (enlarged_gts h preds gk pk).
Proof.
  apply filter_ext_in. intros l Hl. rewrite !kept_iff.
  split; intros (i & Hi & Hin); exists i; (split; [done|]).
  - by apply fix_gts_sub.
  - unfold enlarged_gts at 1, fix_G.
    apply elem_of_union_l, elem_of_intersection.
    split; [done|by eapply elem_of_dataset_ids].
Qed.

Lemma fix_selected_preds :
  selected h preds
    (enlarged_preds h preds (fix_G h gts preds gk pk) (fix_P h preds gk pk))
  = selected h preds (enlarged_preds h preds gk pk).
Proof.
  apply filter_ext_in. intros l Hl. rewrite !kept_iff.
  split; intros (i & Hi & Hin); exists i; (split; [done|]).
  - unfold enlarged_preds at 1, fix_P in Hin. unfold enlarged_preds at 1.
    apply elem_of_union in Hin as [Hin|[? _]%elem_of_intersection];
      [|done].
    apply elem_of_assoc_preds_set in Hin
      as (l2 & Hl2 & Hi2 & g & Hmw & Hin); [|by apply inv_wf].
    apply elem_of_union_l, elem_of_assoc_preds_set; [by apply inv_wf|].
    exists l2. split_and!; [done..|]. exists g. split; [done|].
    by apply fix_gts_sub.
  - unfold enlarged_preds at 1, fix_P.
    apply elem_of_union_r, elem_of_intersection.
    split; [done|by eapply elem_of_dataset_ids].
Qed.
End fixpoint.

(** C2. For datasets that satisfy the invariants, each prediction carrying an
    [info] mapping, the enlarger succeeds, and running it again with the
    values of the two maps it returned as the sets to keep gives the same
    result: from the same store it returns the very same datasets and maps,
    and run after the first call (in the store the first call left) it
    returns the same maps and datasets equal to the first ones. *)
Theorem enlarge_fixpoint h gts preds gk pk :
  Invariants h gts →
  Invariants h preds →
  Forall (wf_pred h) (annotations preds) →
  ∃ ge pe (gm pm : gmap nat Z) h1,
    enlarge_dataset_to_respect_TIDE gts preds gk pk h
    = Ok ((ge, pe, gm, pm), h1) ∧
    enlarge_dataset_to_respect_TIDE gts preds (map_img gm) (map_img pm) h
    = Ok ((ge, pe, gm, pm), h1) ∧
    ∃ ge' pe' h2,
      enlarge_dataset_to_respect_TIDE gts preds (map_img gm) (map_img pm) h1
      = Ok ((ge', pe', gm, pm), h2) ∧
      same_dataset h2 ge' h1 ge ∧ same_dataset h2 pe' h1 pe.
Proof.
  intros Hg Hp Hwp.
  pose proof (inv_wf _ _ Hg) as Hwg. pose proof (inv_wf _ _ Hp) as Hwpa.
  set (fg := enlarged_gts h preds gk pk).
  set (fp := enlarged_preds h preds gk pk).
  set (ha := filtered_heap h gts fg).
  set (h1 := filtered_heap ha preds fp).
  assert (h `prefix_of` ha) as Hha by by eexists.
  assert (ha `prefix_of` h1) as Hh1' by by eexists.
  assert (h `prefix_of` h1) as Hh1 by by etrans.
  assert (Forall (wf_ann ha) (annotations preds)) as Hwpa'
    by by apply Forall_wf_ann_app.
  assert (map_img (filtered h gts fg filtered_data).2
          = fix_G h gts preds gk pk) as HG
    by by apply new_to_old_values.
  assert (map_img (filtered ha preds fp filtered_data).2
          = fix_P h preds gk pk) as HP.
  { rewrite new_to_old_values by done. unfold fix_P. f_equal.
    by apply dataset_ids_app. }
  pose proof (fix_selected_gts h gts preds gk pk Hp) as Hsg.
  pose proof (fix_selected_preds h gts preds gk pk Hp) as Hsp.
  set (fg' := enlarged_gts h preds (fix_G h gts preds gk pk)
                (fix_P h preds gk pk)) in *.
  set (fp' := enlarged_preds h preds (fix_G h gts preds gk pk)
                (fix_P h preds gk pk)) in *.
  exists (filtered h gts fg filtered_data).1,
         (filtered ha preds fp filtered_data).1,
         (filtered h gts fg filtered_data).2,
         (filtered ha preds fp filtered_data).2, h1.
  split; [by apply enlarge_run|]. rewrite HG, HP. split.
  - rewrite enlarge_run by done. fold fg' fp'.
    destruct (filtered_selected h gts fg' fg filtered_data Hsg) as [-> ->].
    fold ha.
    assert (selected ha preds fp' = selected ha preds fp) as Hsp'.
    { unfold ha, filtered_heap. by rewrite !selected_app. }
    by destruct (filtered_selected ha preds fp' fp filtered_data Hsp')
      as [-> ->].
  - pose proof Hh1 as [e He].
    assert (Forall (wf_ann h1) (annotations gts)) as Hwg1
      by (rewrite He; by apply Forall_wf_ann_app).
    assert (Forall (wf_pred h1) (annotations preds)) as Hwp1
      by (rewrite He; by apply Forall_wf_pred_app).
    assert (enlarged_gts h1 preds (fix_G h gts preds gk pk)
              (fix_P h preds gk pk) = fg') as Hfg1.
    { unfold enlarged_gts. rewrite He. by rewrite assoc_gts_set_app. }
    assert (enlarged_preds h1 preds (fix_G h gts preds gk pk)
              (fix_P h preds gk pk) = fp') as Hfp1.
    { unfold enlarged_preds. rewrite Hfg1. rewrite He.
      by rewrite assoc_preds_set_app. }
    eexists _, _, _. rewrite enlarge_run by done. rewrite Hfg1, Hfp1.
    set (hb := filtered_heap h1 gts fg').
    assert (h `prefix_of` hb) as Hhb.
    { exists (e ++ renumbered h1 0 (selected h1 gts fg')).
      unfold hb, filtered_heap. by rewrite He, app_assoc. }
    destruct (filtered_same_prefix h h1 h gts fg' fg filtered_data
                Hwg Hh1 (reflexivity h) Hsg) as [Hsame_g Hgm].
    destruct (filtered_same_prefix h hb ha preds fp' fp filtered_data
                Hwpa Hhb Hha Hsp) as [Hsame_p Hpm].
    split; [by rewrite Hgm, Hpm|]. split; [|done].
    apply same_dataset_app_l; [by apply filtered_wf|].
    apply (same_dataset_app_r _ _ ha); [by apply filtered_wf|done].
Qed.

Lemma enlarge_fixpoint_witness :
  ∃ ge pe (gm pm : gmap nat Z) h1,
    enlarge_dataset_to_respect_TIDE sample_gts sample_preds ∅ {[1%Z]}
                                    sample_heap
    = Ok ((ge, pe, gm, pm), h1) ∧
    enlarge_dataset_to_respect_TIDE sample_gts sample_preds (map_img gm)
                                    (map_img pm) sample_heap
    = Ok ((ge, pe, gm, pm), h1) ∧
    ∃ ge' pe' h2,
      enlarge_dataset_to_respect_TIDE sample_gts sample_preds (map_img gm)
                                      (map_img pm) h1
      = Ok ((ge', pe', gm, pm), h2) ∧
      same_dataset h2 ge' h1 ge ∧ same_dataset h2 pe' h1 pe.
Proof.
  exact (enlarge_fixpoint sample_heap sample_gts sample_preds ∅ {[1%Z]}
           sample_gts_Invariants sample_preds_Invariants sample_preds_wf).
Defined.

(** ** Predictions without [info], predictions without [matched_with] *)

Lemma lacks_info_not_wf_pred h l : lacks_info h l → ¬ wf_pred h l.
Proof.
  intros [_ Hno] (_ & im & (il & Hi & _)%info_of_Some & _). congruence.
Qed.

Lemma getitem_info_raise h l :
  lacks_info h l → getitem l "info" h = Raise (KeyError "info").
Proof.
  intros [[m Hm]%wf_ann_dict Hno]. apply (getitem_missing _ _ _ m); [done|].
  unfold field in Hno. by rewrite Hm in Hno.
Qed.

Lemma assoc_gts_loop_raise h ls pk :
  Forall (λ l, wf_pred h l ∨ lacks_info h l) ls →
  Exists (lacks_info h) ls →
  ∀ i acc,
    for_enum (λ _ pred (acc : gset Z),
                let* info := getitem pred "info" in
                let* has := contains "matched_with" info in
                let* cond :=
                  if has
                  then let* v := getitem pred "_id" in in_ids v pk
                  else ret false in
                if cond
                then let* info := getitem pred "info" in
                     let* mw := subscript info "matched_with" in
                     let* g := as_int mw in
                     ret (acc ∪ {[g]})
                else ret acc)
             i ls acc h
    = Raise (KeyError "info").
Proof.
  induction 1 as [|l ls [Hl|Hl] _ IH]; intros Hex i acc.
  - by apply Exists_nil in Hex.
  - apply Exists_cons in Hex as [Hno|Hex];
      [by apply lacks_info_not_wf_pred in Hno|].
    cbn [for_enum]. mstep (assoc_gts_body_run h l pk acc Hl). by apply IH.
  - cbn [for_enum]. apply bind_raise, bind_raise.
    by apply getitem_info_raise.
Qed.

Lemma no_link_assoc_gts h ls1 l ls2 pk :
  matched_with h l = None →
  assoc_gts_set h (ls1 ++ l :: ls2) pk = assoc_gts_set h (ls1 ++ ls2) pk.
Proof.
  intros Hno. unfold assoc_gts_set.
  rewrite !filter_app, filter_cons, !omap_app.
  destruct (decide (kept h pk l)); [|done].
  cbn [omap list_omap]. by rewrite Hno.
Qed.

Lemma no_link_assoc_preds h ls1 l ls2 fg :
  matched_with h l = None →
  assoc_preds_set h (ls1 ++ l :: ls2) fg = assoc_preds_set h (ls1 ++ ls2) fg.
Proof.
  intros Hno. unfold assoc_preds_set.
  rewrite !filter_app, filter_cons.
  rewrite decide_False; [done|]. unfold linked. rewrite Hno. by intros [].
Qed.

(** C10. The enlarger reads [info] on every prediction: if some prediction
    has no [info] key (the others having an [info] mapping), the call raises
    [KeyError "info"] whatever the two sets of ids to keep are, the empty ones
    included.  If every prediction has an [info] mapping, the call succeeds
    also when some of them have no [matched_with] key, and such a prediction
    contributes nothing: an id is in [assoc_gts] only through a kept
    prediction that has that [matched_with], an id is in [assoc_preds] only
    through a prediction whose [matched_with] is in the enlarged ground-truth
    set, and both sets are what they would be without a prediction that has
    no [matched_with]. *)
Theorem enlarge_info_field h gts preds gk pk :
  (Forall (λ l, wf_pred h l ∨ lacks_info h l) (annotations preds) →
   Exists (lacks_info h) (annotations preds) →
   enlarge_dataset_to_respect_TIDE gts preds gk pk h
   = Raise (KeyError "info") ∧
   enlarge_dataset_to_respect_TIDE gts preds ∅ ∅ h
   = Raise (KeyError "info")) ∧
  (Invariants h gts →
   Invariants h preds →
   Forall (wf_pred h) (annotations preds) →
   ∃ G P r,
     assoc_gts_of preds pk h = Ok (G, h) ∧
     assoc_preds_of preds (gk ∪ G) h = Ok (P, h) ∧
     enlarge_dataset_to_respect_TIDE gts preds gk pk h = Ok r ∧
     (∀ g, g ∈ G ↔
           ∃ l, l ∈ annotations preds ∧ matched_with h l = Some g ∧
                ∃ i, ann_id h l = Some i ∧ i ∈ pk) ∧
     (∀ p, p ∈ P ↔
           ∃ l, l ∈ annotations preds ∧ ann_id h l = Some p ∧
                ∃ g, matched_with h l = Some g ∧ g ∈ gk ∪ G) ∧
     (∀ ls1 l ls2 nm cls imgs,
        annotations preds = ls1 ++ l :: ls2 →
        matched_with h l = None →
        let preds' := mkData nm (ls1 ++ ls2) cls imgs in
        assoc_gts_of preds' pk h = Ok (G, h) ∧
        assoc_preds_of preds' (gk ∪ G) h = Ok (P, h))).
Proof.
  split.
  - intros Hall Hex.
    split; apply bind_raise; unfold assoc_gts_of, for_each;
      by apply assoc_gts_loop_raise.
  - intros Hg Hp Hwp.
    eexists _, _, _. split_and!.
    + by apply assoc_gts_of_run.
    + by apply assoc_preds_of_run.
    + apply enlarge_run; [by apply inv_wf|done].
    + apply elem_of_assoc_gts_set.
    + intros p. apply elem_of_assoc_preds_set. by apply inv_wf.
    + intros ls1 l ls2 nm cls imgs Hls Hno preds'.
      assert (Forall (wf_pred h) (ls1 ++ ls2)) as Hwp'.
      { rewrite Hls in Hwp.
        apply Forall_app in Hwp as [? [_ ?]%Forall_cons].
        by apply Forall_app. }
      rewrite assoc_gts_of_run, assoc_preds_of_run by done.
      rewrite Hls. simpl.
      by rewrite no_link_assoc_gts, no_link_assoc_preds.
Qed.

Lemma noinfo_preds_shape :
  Forall (λ l, wf_pred noinfo_heap l ∨ lacks_info noinfo_heap l)
         (annotations sample_preds) ∧
  Exists (lacks_info noinfo_heap) (annotations sample_preds).
Proof.
  assert (lacks_info noinfo_heap 3) as H3.
  { split; [|done]. repeat split; by eexists. }
  split.
  - apply Forall_cons; split; [left|].
    2: apply Forall_cons; split; [by right|].
    2: apply Forall_cons; split; [left|by apply Forall_nil].
    all: split; [repeat split; by eexists|].
    all: eexists; split; [reflexivity|].
    all: intros v Hv; vm_compute in Hv.
    all: first [discriminate Hv | injection Hv as <-; by eexists].
  - apply Exists_cons_tl, Exists_cons_hd, H3.
Qed.

Lemma enlarge_info_field_witness :
  (enlarge_dataset_to_respect_TIDE sample_gts sample_preds {[0%Z]} {[0%Z]}
                                   noinfo_heap
   = Raise (KeyError "info") ∧
   enlarge_dataset_to_respect_TIDE sample_gts sample_preds ∅ ∅ noinfo_heap
   = Raise (KeyError "info")) ∧
  ∃ G P r,
    assoc_gts_of sample_preds {[2%Z]} sample_heap = Ok (G, sample_heap) ∧
    assoc_preds_of sample_preds (∅ ∪ G) sample_heap = Ok (P, sample_heap) ∧
    enlarge_dataset_to_respect_TIDE sample_gts sample_preds ∅ {[2%Z]}
                                    sample_heap = Ok r ∧
    (∀ g, g ∈ G ↔
          ∃ l, l ∈ annotations sample_preds ∧
               matched_with sample_heap l = Some g ∧
               ∃ i, ann_id sample_heap l = Some i ∧ i ∈ ({[2%Z]} : gset Z)) ∧
    (∀ p, p ∈ P ↔
          ∃ l, l ∈ annotations sample_preds ∧ ann_id sample_heap l = Some p ∧
               ∃ g, matched_with sample_heap l = Some g ∧ g ∈ ∅ ∪ G) ∧
    (∀ ls1 l ls2 nm cls imgs,
       annotations sample_preds = ls1 ++ l :: ls2 →
       matched_with sample_heap l = None →
       let preds' := mkData nm (ls1 ++ ls2) cls imgs in
       assoc_gts_of preds' {[2%Z]} sample_heap = Ok (G, sample_heap) ∧
       assoc_preds_of preds' (∅ ∪ G) sample_heap = Ok (P, sample_heap)).
Proof.
  exact (conj
    (proj1 (enlarge_info_field noinfo_heap sample_gts sample_preds
              {[0%Z]} {[0%Z]})
       (proj1 noinfo_preds_shape) (proj2 noinfo_preds_shape))
    (proj2 (enlarge_info_field sample_heap sample_gts sample_preds ∅ {[2%Z]})
       sample_gts_Invariants sample_preds_Invariants sample_preds_wf)).
Defined.

(** ** The importer on concrete records *)

(** C9. On the two records of the scenario the importer returns a
    ground-truth dataset with one annotation, whose [_id] is 0 and [class] is
    5, and a prediction dataset with one annotation, whose [_id] is 0, [class]
    is 5 and [score] is 0.9. *)
Theorem importer_scenario :
  ∃ gts preds h',
    json_to_Data scenario_data scenario_heap = Ok ((gts, preds), h') ∧
    (∃ g, annotations gts = [g] ∧
          field h' g "_id" = Some (VInt 0) ∧
          field h' g "class" = Some (VInt 5)) ∧
    (∃ p, annotations preds = [p] ∧
          field h' p "_id" = Some (VInt 0) ∧
          field h' p "class" = Some (VInt 5) ∧
          field h' p "score" = Some (VFloat 0x1.ccccccccccccdp-1)).
Proof.
  assert (match json_to_Data scenario_data scenario_heap with
          | Ok ((gts, preds), h') =>
              Some (annotations gts, field h' 0 "_id", field h' 0 "class",
                    annotations preds, field h' 2 "_id", field h' 2 "class",
                    field h' 2 "score")
          | Raise _ => None
          end
          = Some ([0], Some (VInt 0), Some (VInt 5),
                  [2], Some (VInt 0), Some (VInt 5),
                  Some (VFloat 0x1.ccccccccccccdp-1))) as Hrun
    by (vm_compute; reflexivity).
  destruct (json_to_Data scenario_data scenario_heap)
    as [[[gts preds] h']|e]; [|discriminate Hrun].
  injection Hrun as Hg Hgi Hgc Hp Hpi Hpc Hps.
  exists gts, preds, h'. split; [done|].
  split; [exists 0|exists 2]; by split_and!.
Qed.

(** C4 fails on the code.  A record with both tags is one dictionary held by
    both annotation lists, and the prediction loop overwrites what the
    ground-truth loop wrote into it: in the returned ground-truth dataset the
    second annotation has [_id] 0 instead of 1 and [class] 2 although its
    [gold] is 1, while [classes] only has the key 1 and [images] lists the ids
    0 and 1; invariants 1 to 3 do not hold. *)
Theorem importer_both_tags :
  ∃ gts preds h',
    json_to_Data both_data both_heap = Ok ((gts, preds), h') ∧
    annotations gts = [0; 2] ∧
    annotations preds = [2] ∧
    ann_id h' 0 = Some 0%Z ∧
    ann_id h' 2 = Some 0%Z ∧
    field h' 2 "gold" = Some (VInt 1) ∧
    ann_class h' 2 = Some 2%Z ∧
    map_to_list (classes gts) = [(1%Z, "Class 1")] ∧
    images gts !! KStr "a" = Some (Image "Image a" [0%Z; 1%Z]) ∧
    ¬ Invariants h' gts.
Proof.
  assert (match json_to_Data both_data both_heap with
          | Ok ((gts, preds), h') =>
              Some (annotations gts, annotations preds, ann_id h' 0,
                    ann_id h' 2, field h' 2 "gold", ann_class h' 2,
                    map_to_list (classes gts), images gts !! KStr "a")
          | Raise _ => None
          end
          = Some ([0; 2], [2], Some 0%Z, Some 0%Z, Some (VInt 1), Some 2%Z,
                  [(1%Z, "Class 1")],
                  Some (Image "Image a" [0%Z; 1%Z]))) as Hrun
    by (vm_compute; reflexivity).
  destruct (json_to_Data both_data both_heap)
    as [[[gts preds] h']|e]; [|discriminate Hrun].
  injection Hrun as Hg Hp Hi0 Hi2 Hgold Hc2 Hcls Himg.
  exists gts, preds, h'. split_and!; try done.
  intros Hinv.
  assert (ann_id h' 2 = Some 1%Z) as Hid
    by (apply (inv_ids _ _ Hinv 1 2); by rewrite Hg).
  congruence.
Qed.


(** ** The importer when no record has both tags *)

Lemma dict_at_insert h l d :
  l < length h → dict_at (<[l := ODict d]> h) l = Some d.
Proof. intros Hl. apply dict_at_Some. by apply list_lookup_insert_eq. Qed.

Lemma dict_at_insert_ne h l l' o :
  l ≠ l' → dict_at (<[l := o]> h) l' = dict_at h l'.
Proof. intros Hne. unfold dict_at. by rewrite list_lookup_insert_ne. Qed.

Lemma dict_at_lt h l d : dict_at h l = Some d → l < length h.
Proof. intros Hd%dict_at_Some. by eapply lookup_lt_Some. Qed.

Lemma setitem_at h l d k v :
  l < length h →
  setitem l k v (<[l := ODict d]> h)
  = Ok (tt, <[l := ODict (<[k := v]> d)]> h).
Proof.
  intros Hl. rewrite (setitem_ok _ _ d) by by apply dict_at_insert.
  by rewrite list_insert_insert_eq.
Qed.

Lemma getitem_at h l d k v :
  l < length h → d !! k = Some v →
  getitem l k (<[l := ODict d]> h) = Ok (v, <[l := ODict d]> h).
Proof.
  intros Hl Hk. apply getitem_ok, field_Some.
  exists d. split; [by apply dict_at_insert|done].
Qed.

Lemma gt_body_run i l (m : gmap key (list Z)) h d :
  dict_at h l = Some d → gt_fields d →
  (let* _ := setitem l "_id" (VInt (Z.of_nat i)) in
   let* _ := setitem l "mask" VNone in
   let* _ := setitem l "ignore" (VBool false) in
   let* g := getitem l "gold" in
   let* _ := setitem l "class" g in
   let* b := getitem l "bbox_xywh" in
   let* _ := setitem l "bbox" b in
   let* kv := getitem l "image_id" in
   let* k := as_key kv in
   let* v := getitem l "_id" in
   let* id := as_int v in
   ret (append_id k id m)) h
  = Ok (append_id (image_of h l) (Z.of_nat i) m,
        <[l := ODict (gt_update i d)]> h).
Proof.
  intros Hd ([k Hk] & [b Hb] & [g Hg]).
  pose proof (dict_at_lt _ _ _ Hd) as Hl.
  destruct (d !! "image_id") as [kv|] eqn:Hkv; [simpl in Hk|done].
  destruct (d !! "gold") as [gv|] eqn:Hgv; [simpl in Hg|done].
  assert (image_of h l = k) as ->.
  { unfold image_of, ann_image, field. rewrite Hd. simpl.
    by rewrite Hkv; simpl; rewrite Hk. }
  unfold gt_update. cbn zeta.
  mstep (setitem_ok _ _ _ "_id" (VInt (Z.of_nat i)) Hd).
  mstep (setitem_at h l (<["_id" := VInt (Z.of_nat i)]> d) "mask" VNone Hl).
  mstep (setitem_at h l (<["mask" := VNone]> (<["_id" := VInt (Z.of_nat i)]> d))
           "ignore" (VBool false) Hl).
  set (d3 := <["ignore" := VBool false]> _).
  assert (d3 !! "gold" = Some gv) as Hg3
    by (unfold d3; by rewrite !lookup_insert_ne).
  mstep (getitem_at h l d3 "gold" gv Hl Hg3).
  mstep (setitem_at h l d3 "class" gv Hl).
  rewrite Hg3. simpl.
  set (d4 := <["class" := gv]> d3).
  assert (d4 !! "bbox_xywh" = Some b) as Hb4
    by (unfold d4, d3; by rewrite !lookup_insert_ne).
  mstep (getitem_at h l d4 "bbox_xywh" b Hl Hb4).
  mstep (setitem_at h l d4 "bbox" b Hl).
  rewrite Hb4. simpl.
  set (d5 := <["bbox" := b]> d4).
  assert (d5 !! "image_id" = Some kv) as Hk5
    by (unfold d5, d4, d3; by rewrite !lookup_insert_ne).
  assert (d5 !! "_id" = Some (VInt (Z.of_nat i))) as Hi5.
  { unfold d5, d4, d3.
    do 4 (rewrite lookup_insert_ne by done). apply lookup_insert_eq. }
  mstep (getitem_at h l d5 "image_id" kv Hl Hk5).
  mstep (as_key_ok (<[l := ODict d5]> h) _ _ Hk).
  mstep (getitem_at h l d5 "_id" _ Hl Hi5).
  by mstep (as_int_ok (<[l := ODict d5]> h) (Z.of_nat i)).
Qed.

Lemma pred_body_run i l (m : gmap key (list Z)) h d :
  dict_at h l = Some d → pred_fields d →
  (let* _ := setitem l "_id" (VInt (Z.of_nat i)) in
   let* _ := setitem l "mask" VNone in
   let* _ := setitem l "ignore" (VBool false) in
   let* c := getitem l "pred" in
   let* _ := setitem l "class" c in
   let* s := getitem l "confidence" in
   let* _ := setitem l "score" s in
   let* b := getitem l "bbox_xywh" in
   let* _ := setitem l "bbox" b in
   let* kv := getitem l "image_id" in
   let* k := as_key kv in
   let* v := getitem l "_id" in
   let* id := as_int v in
   ret (append_id k id m)) h
  = Ok (append_id (image_of h l) (Z.of_nat i) m,
        <[l := ODict (pred_update i d)]> h).
Proof.
  intros Hd ([k Hk] & [b Hb] & [g Hg] & [c Hc]).
  pose proof (dict_at_lt _ _ _ Hd) as Hl.
  destruct (d !! "image_id") as [kv|] eqn:Hkv; [simpl in Hk|done].
  destruct (d !! "pred") as [gv|] eqn:Hgv; [simpl in Hg|done].
  assert (image_of h l = k) as ->.
  { unfold image_of, ann_image, field. rewrite Hd. simpl.
    by rewrite Hkv; simpl; rewrite Hk. }
  unfold pred_update. cbn zeta.
  mstep (setitem_ok _ _ _ "_id" (VInt (Z.of_nat i)) Hd).
  mstep (setitem_at h l (<["_id" := VInt (Z.of_nat i)]> d) "mask" VNone Hl).
  mstep (setitem_at h l (<["mask" := VNone]> (<["_id" := VInt (Z.of_nat i)]> d))
           "ignore" (VBool false) Hl).
  set (d3 := <["ignore" := VBool false]> _).
  assert (d3 !! "pred" = Some gv) as Hg3
    by (unfold d3; by rewrite !lookup_insert_ne).
  mstep (getitem_at h l d3 "pred" gv Hl Hg3).
  mstep (setitem_at h l d3 "class" gv Hl).
  rewrite Hg3. simpl.
  set (d4 := <["class" := gv]> d3).
  assert (d4 !! "confidence" = Some c) as Hc4
    by (unfold d4, d3; by rewrite !lookup_insert_ne).
  mstep (getitem_at h l d4 "confidence" c Hl Hc4).
  mstep (setitem_at h l d4 "score" c Hl).
  rewrite Hc4. simpl.
  set (d5 := <["score" := c]> d4).
  assert (d5 !! "bbox_xywh" = Some b) as Hb5
    by (unfold d5, d4, d3; by rewrite !lookup_insert_ne).
  mstep (getitem_at h l d5 "bbox_xywh" b Hl Hb5).
  mstep (setitem_at h l d5 "bbox" b Hl).
  rewrite Hb5. simpl.
  set (d6 := <["bbox" := b]> d5).
  assert (d6 !! "image_id" = Some kv) as Hk6
    by (unfold d6, d5, d4, d3; by rewrite !lookup_insert_ne).
  assert (d6 !! "_id" = Some (VInt (Z.of_nat i))) as Hi6.
  { unfold d6, d5, d4, d3.
    do 5 (rewrite lookup_insert_ne by done). apply lookup_insert_eq. }
  mstep (getitem_at h l d6 "image_id" kv Hl Hk6).
  mstep (as_key_ok (<[l := ODict d6]> h) _ _ Hk).
  mstep (getitem_at h l d6 "_id" _ Hl Hi6).
  by mstep (as_int_ok (<[l := ODict d6]> h) (Z.of_nat i)).
Qed.

Lemma mutate_length upd ls : ∀ i h, length (mutate upd i ls h) = length h.
Proof.
  induction ls as [|l ls IH]; intros i h; [done|].
  simpl. by rewrite IH, length_insert.
Qed.

Lemma mutate_notin upd ls l : ∀ i h,
  l ∉ ls → mutate upd i ls h !! l = h !! l.
Proof.
  induction ls as [|l' ls IH]; intros i h Hl; [done|].
  apply not_elem_of_cons in Hl as [Hne Hl].
  simpl. rewrite IH by done. by apply list_lookup_insert_ne.
Qed.

Lemma mutate_at upd ls : ∀ i h j l d,
  NoDup ls → ls !! j = Some l → dict_at h l = Some d →
  dict_at (mutate upd i ls h) l = Some (upd (i + j) d).
Proof.
  induction ls as [|l' ls IH]; intros i h j l d Hnd Hj Hd; [done|].
  apply NoDup_cons in Hnd as [Hl' Hnd]. destruct j as [|j]; simpl in *.
  - injection Hj as ->. apply dict_at_Some.
    rewrite mutate_notin by done. rewrite Hd. simpl. rewrite Nat.add_0_r.
    by apply list_lookup_insert_eq, (dict_at_lt _ _ d).
  - assert (l' ≠ l) as Hne.
    { intros ->. apply list_elem_of_lookup_2 in Hj. by apply Hl'. }
    rewrite (IH (S i) _ j l d); [|done..|by rewrite dict_at_insert_ne].
    by rewrite Nat.add_succ_r.
Qed.

Lemma image_of_insert_ne h l l' o :
  l ≠ l' → image_of (<[l := o]> h) l' = image_of h l'.
Proof.
  intros Hne. unfold image_of, ann_image, field.
  by rewrite dict_at_insert_ne.
Qed.

Section mutation.
Variable upd : nat → gmap string pyval → gmap string pyval.
Variable P : gmap string pyval → Prop.
Variable body : nat → loc → gmap key (list Z) → M (gmap key (list Z)).
Hypothesis body_run : ∀ i l m h d,
  dict_at h l = Some d → P d →
  body i l m h = Ok (append_id (image_of h l) (Z.of_nat i) m,
                     <[l := ODict (upd i d)]> h).

Lemma mutate_loop_run ls : ∀ i m h,
  NoDup ls →
  Forall (λ l, ∃ d, dict_at h l = Some d ∧ P d) ls →
  for_enum body i ls m h
  = Ok (group_ids (imap (λ j l, (image_of h l, Z.of_nat (i + j))) ls) m,
        mutate upd i ls h).
Proof.
  induction ls as [|l ls IH]; intros i m h Hnd Hall; [done|].
  apply NoDup_cons in Hnd as [Hl Hnd].
  apply Forall_cons in Hall as [(d & Hd & HP) Hall].
  cbn [for_enum mutate]. mstep (body_run i l m h d Hd HP).
  rewrite Hd. simpl. rewrite IH; [|done|].
  - rewrite Nat.add_0_r. do 2 f_equal. unfold group_ids. simpl.
    f_equal. apply imap_ext. intros j l0 Hl0. simpl.
    rewrite image_of_insert_ne, Nat.add_succ_r; [done|].
    intros ->. apply list_elem_of_lookup_2 in Hl0. by apply Hl.
  - apply Forall_forall. intros l0 Hl0.
    destruct (proj1 (Forall_forall _ _) Hall l0 Hl0) as (d0 & Hd0 & HP0).
    exists d0. split; [|done]. rewrite dict_at_insert_ne; [done|].
    by intros ->.
Qed.
End mutation.

Lemma has_tag_run h tag ls :
  Forall (λ l, ∃ d b, dict_at h l = Some d ∧ d !! tag = Some (VBool b)) ls →
  filterM (λ ann, let* v := getitem ann tag in truthy v) ls h
  = Ok (filter (λ l, has_tag h tag l) ls, h).
Proof.
  induction 1 as [|l ls (d & b & Hd & Hb) _ IH]; [done|].
  assert (field h l tag = Some (VBool b)) as Hf
    by (apply field_Some; eauto).
  cbn [filterM]. rewrite (bind_ok _ _ _ b h) by by mstep (getitem_ok _ _ _ _ Hf).
  mstep IH. unfold ret. rewrite filter_cons.
  assert (has_tag h tag l = b) as -> by (unfold has_tag; by rewrite Hf).
  by destruct b.
Qed.

Lemma views_dict_eq h h' l :
  dict_at h' l = dict_at h l →
  ann_id h' l = ann_id h l ∧ ann_class h' l = ann_class h l ∧
  ann_image h' l = ann_image h l ∧ (wf_ann h l → wf_ann h' l) ∧
  ∀ k, field h' l k = field h l k.
Proof.
  intros Heq. unfold wf_ann, ann_id, ann_class, ann_image, field.
  rewrite Heq. by split_and!.
Qed.

Lemma mutate_dict_notin upd ls l i h :
  l ∉ ls → dict_at (mutate upd i ls h) l = dict_at h l.
Proof. intros Hl. unfold dict_at. by rewrite mutate_notin. Qed.

Section phase.
Variable upd : nat → gmap string pyval → gmap string pyval.
Variable fields : gmap string pyval → Prop.
Variable label : string.
Hypothesis upd_id : ∀ i d, upd i d !! "_id" = Some (VInt (Z.of_nat i)).
Hypothesis upd_class : ∀ i d,
  upd i d !! "class" = Some (default VNone (d !! label)).
Hypothesis upd_image : ∀ i d, upd i d !! "image_id" = d !! "image_id".
Hypothesis fields_ok : ∀ d,
  fields d →
  is_Some (d !! "image_id" ≫= key_of) ∧ is_Some (d !! label ≫= int_of).

(** After the loop, the [j]-th record of the list has the id [j], the class
    that its label field gave, and the image id it had. *)
Lemma phase_views h ls j l d :
  NoDup ls → ls !! j = Some l → dict_at h l = Some d → fields d →
  ann_id (mutate upd 0 ls h) l = Some (Z.of_nat j) ∧
  ann_class (mutate upd 0 ls h) l = d !! label ≫= int_of ∧
  ann_image (mutate upd 0 ls h) l = ann_image h l ∧
  wf_ann (mutate upd 0 ls h) l.
Proof.
  intros Hnd Hj Hd Hf.
  pose proof (mutate_at upd ls 0 h j l d Hnd Hj Hd) as Hnew. simpl in Hnew.
  destruct (fields_ok d Hf) as [[k Hk] [c Hc]].
  assert (ann_id (mutate upd 0 ls h) l = Some (Z.of_nat j)) as Hid.
  { unfold ann_id, field. rewrite Hnew. simpl. by rewrite upd_id. }
  assert (ann_class (mutate upd 0 ls h) l = d !! label ≫= int_of) as Hcl.
  { unfold ann_class, field. rewrite Hnew. simpl. rewrite upd_class. simpl.
    by destruct (d !! label). }
  assert (ann_image (mutate upd 0 ls h) l = ann_image h l) as Him.
  { unfold ann_image, field. rewrite Hnew, Hd. simpl. by rewrite upd_image. }
  split_and!; try done.
  unfold wf_ann. rewrite Hid, Hcl, Him, Hc. split_and!; [done..|].
  unfold ann_image, field. rewrite Hd. simpl. eauto.
Qed.

Lemma phase_wf h ls :
  NoDup ls →
  Forall (λ l, ∃ d, dict_at h l = Some d ∧ fields d) ls →
  Forall (wf_ann (mutate upd 0 ls h)) ls ∧
  ∀ i l, ls !! i = Some l → ann_id (mutate upd 0 ls h) l = Some (Z.of_nat i).
Proof.
  intros Hnd Hall. split.
  - apply Forall_lookup. intros j l Hj.
    destruct (Forall_lookup_1 _ _ _ _ Hall Hj) as (d & Hd & Hf).
    by destruct (phase_views h ls j l d) as (_ & _ & _ & ?).
  - intros j l Hj.
    destruct (Forall_lookup_1 _ _ _ _ Hall Hj) as (d & Hd & Hf).
    by destruct (phase_views h ls j l d) as (? & _).
Qed.

(** The image index that the loop builds is the one rebuilt from the list
    in the store the loop leaves. *)
Lemma phase_images h ls :
  NoDup ls →
  Forall (λ l, ∃ d, dict_at h l = Some d ∧ fields d) ls →
  imap (λ j l, (image_of h l, Z.of_nat (0 + j))) ls
  = (λ l, (image_of (mutate upd 0 ls h) l, id_of (mutate upd 0 ls h) l))
      <$> ls.
Proof.
  intros Hnd Hall. apply list_eq. intros j.
  rewrite list_lookup_imap, list_lookup_fmap.
  destruct (ls !! j) as [l|] eqn:Hj; [|done]. simpl.
  destruct (Forall_lookup_1 _ _ _ _ Hall Hj) as (d & Hd & Hf).
  destruct (phase_views h ls j l d) as (Hid & _ & Him & _); [done..|].
  unfold image_of, id_of. by rewrite Hid, Him.
Qed.
End phase.

Lemma gt_update_lookup i d :
  gt_update i d !! "_id" = Some (VInt (Z.of_nat i)) ∧
  gt_update i d !! "class" = Some (default VNone (d !! "gold")) ∧
  gt_update i d !! "image_id" = d !! "image_id" ∧
  gt_update i d !! "is_pred" = d !! "is_pred".
Proof.
  unfold gt_update. cbn zeta. split_and!.
  - do 4 (rewrite lookup_insert_ne by done). apply lookup_insert_eq.
  - rewrite lookup_insert_ne by done. rewrite lookup_insert_eq.
    by rewrite !lookup_insert_ne.
  - by rewrite !lookup_insert_ne.
  - by rewrite !lookup_insert_ne.
Qed.

Lemma pred_update_lookup i d :
  pred_update i d !! "_id" = Some (VInt (Z.of_nat i)) ∧
  pred_update i d !! "class" = Some (default VNone (d !! "pred")) ∧
  pred_update i d !! "image_id" = d !! "image_id" ∧
  pred_update i d !! "score" = Some (default VNone (d !! "confidence")).
Proof.
  unfold pred_update. cbn zeta. split_and!.
  - do 5 (rewrite lookup_insert_ne by done). apply lookup_insert_eq.
  - do 2 (rewrite lookup_insert_ne by done). rewrite lookup_insert_eq.
    by rewrite !lookup_insert_ne.
  - by rewrite !lookup_insert_ne.
  - rewrite lookup_insert_ne by done. rewrite lookup_insert_eq.
    by rewrite !lookup_insert_ne.
Qed.

Lemma gt_fields_ok d :
  gt_fields d →
  is_Some (d !! "image_id" ≫= key_of) ∧ is_Some (d !! "gold" ≫= int_of).
Proof. by intros (? & _ & ?). Qed.

Lemma pred_fields_ok d :
  pred_fields d →
  is_Some (d !! "image_id" ≫= key_of) ∧ is_Some (d !! "pred" ≫= int_of).
Proof. by intros (? & _ & ? & _). Qed.

Lemma has_tag_true h tag l :
  has_tag h tag l → field h l tag = Some (VBool true).
Proof.
  unfold has_tag. by destruct (field h l tag) as [[| [] | | | |]|].
Qed.

Section importer.
Variables (h : heap) (data : list loc).
Hypothesis Hnd : NoDup data.
Hypothesis Hok : Forall (record_ok h) data.

Lemma record_tags tag :
  tag = "is_gold" ∨ tag = "is_pred" →
  Forall (λ l, ∃ d b, dict_at h l = Some d ∧ d !! tag = Some (VBool b)) data.
Proof.
  intros Htag. eapply Forall_impl; [exact Hok|].
  intros l (d & g & p & Hd & Hg & Hp & _).
  destruct Htag as [-> | ->]; eauto.
Qed.

Lemma gold_records :
  Forall (λ l, ∃ d, dict_at h l = Some d ∧ gt_fields d)
         (filter (λ l, has_tag h "is_gold" l) data).
Proof.
  apply Forall_forall. intros l [Ht Hl]%list_elem_of_filter.
  destruct (proj1 (Forall_forall _ _) Hok l Hl)
    as (d & g & p & Hd & Hg & Hp & _ & Hgf & _).
  exists d. split; [done|]. apply Hgf.
  apply has_tag_true, field_Some in Ht as (d' & Hd' & Ht). congruence.
Qed.

Lemma pred_records :
  Forall (λ l, ∃ d, dict_at h l = Some d ∧ pred_fields d)
         (filter (λ l, has_tag h "is_pred" l) data).
Proof.
  apply Forall_forall. intros l [Ht Hl]%list_elem_of_filter.
  destruct (proj1 (Forall_forall _ _) Hok l Hl)
    as (d & g & p & Hd & Hg & Hp & _ & _ & Hpf).
  exists d. split; [done|]. apply Hpf.
  apply has_tag_true, field_Some in Ht as (d' & Hd' & Ht). congruence.
Qed.

(** No record is in both lists. *)
Lemma tags_disjoint l :
  l ∈ filter (λ l, has_tag h "is_gold" l) data →
  l ∉ filter (λ l, has_tag h "is_pred" l) data.
Proof.
  intros [Hg Hl]%list_elem_of_filter [Hp _]%list_elem_of_filter.
  destruct (proj1 (Forall_forall _ _) Hok l Hl)
    as (d & g & p & Hd & Hdg & Hdp & Hex & _).
  apply has_tag_true, field_Some in Hg as (d1 & Hd1 & Hg).
  apply has_tag_true, field_Some in Hp as (d2 & Hd2 & Hp).
  assert (g = true) as -> by congruence.
  assert (p = true) as -> by congruence. done.
Qed.
End importer.

(** X2. When no record carries both tags, the importer succeeds and both
    datasets it returns satisfy invariants 1 to 3 in the store it leaves; the
    ground truths are the gold records in their order, with [class] their
    [gold] label, and the predictions are the pred records in their order,
    with [class] their [pred] label and [score] their [confidence]. *)
Theorem importer_exclusive_tags h data :
  NoDup data →
  Forall (record_ok h) data →
  ∃ gts preds h',
    json_to_Data data h = Ok ((gts, preds), h') ∧
    annotations gts = filter (λ l, has_tag h "is_gold" l) data ∧
    annotations preds = filter (λ l, has_tag h "is_pred" l) data ∧
    Invariants h' gts ∧ images_exact h' gts ∧
    Invariants h' preds ∧ images_exact h' preds ∧
    (∀ l, l ∈ annotations gts →
          ann_class h' l = field h l "gold" ≫= int_of) ∧
    (∀ l, l ∈ annotations preds →
          ann_class h' l = field h l "pred" ≫= int_of ∧
          field h' l "score" = field h l "confidence").
Proof.
  intros Hnd Hok.
  set (gt_ls := filter (λ l, has_tag h "is_gold" l) data).
  set (pred_ls := filter (λ l, has_tag h "is_pred" l) data).
  set (h1 := mutate gt_update 0 gt_ls h).
  set (h2 := mutate pred_update 0 pred_ls h1).
  assert (NoDup gt_ls) as Hndg by by apply NoDup_filter.
  assert (NoDup pred_ls) as Hndp by by apply NoDup_filter.
  pose proof (gold_records h data Hok) as Hgold. fold gt_ls in Hgold.
  pose proof (pred_records h data Hok) as Hpred. fold pred_ls in Hpred.
  pose proof (tags_disjoint h data Hok) as Hdisj. fold gt_ls pred_ls in Hdisj.
  (* the ground-truth loop *)
  destruct (phase_wf gt_update gt_fields "gold"
              (λ i d, proj1 (gt_update_lookup i d))
              (λ i d, proj1 (proj2 (gt_update_lookup i d)))
              (λ i d, proj1 (proj2 (proj2 (gt_update_lookup i d))))
              gt_fields_ok h gt_ls Hndg Hgold) as [Hwf1 Hids1].
  fold h1 in Hwf1, Hids1.
  (* the tags as the second comprehension reads them *)
  assert (∀ l, l ∈ data → field h1 l "is_pred" = field h l "is_pred")
    as Htag.
  { intros l Hl. destruct (decide (l ∈ gt_ls)) as [Hin|Hin].
    - apply list_elem_of_lookup in Hin as [j Hj].
      destruct (Forall_lookup_1 _ _ _ _ Hgold Hj) as (d & Hd & _).
      pose proof (mutate_at gt_update gt_ls 0 h j l d Hndg Hj Hd) as Hnew.
      fold h1 in Hnew. unfold field. rewrite Hnew, Hd. simpl.
      apply gt_update_lookup.
    - by apply views_dict_eq, mutate_dict_notin. }
  assert (Forall (λ l, ∃ d b, dict_at h1 l = Some d ∧
                              d !! "is_pred" = Some (VBool b)) data)
    as Htag1.
  { apply Forall_forall. intros l Hl.
    destruct (proj1 (Forall_forall _ _)
                (record_tags h data Hok "is_pred" (or_intror eq_refl)) l Hl)
      as (d & b & Hd & Hb).
    assert (field h1 l "is_pred" = Some (VBool b)) as Hf.
    { rewrite Htag by done. apply field_Some. eauto. }
    apply field_Some in Hf as (d1 & Hd1 & Hb1). eauto. }
  assert (filter (λ l, has_tag h1 "is_pred" l) data = pred_ls) as Hsel.
  { apply filter_ext_in. intros l Hl. unfold has_tag. by rewrite Htag. }
  (* the prediction loop *)
  assert (Forall (λ l, ∃ d, dict_at h1 l = Some d ∧ pred_fields d) pred_ls)
    as Hpred1.
  { apply Forall_forall. intros l Hl.
    destruct (proj1 (Forall_forall _ _) Hpred l Hl) as (d & Hd & Hf).
    exists d. split; [|done]. unfold h1.
    rewrite mutate_dict_notin; [done|]. intros Hin. by apply (Hdisj l). }
  destruct (phase_wf pred_update pred_fields "pred"
              (λ i d, proj1 (pred_update_lookup i d))
              (λ i d, proj1 (proj2 (pred_update_lookup i d)))
              (λ i d, proj1 (proj2 (proj2 (pred_update_lookup i d))))
              pred_fields_ok h1 pred_ls Hndp Hpred1) as [Hwf2 Hids2].
  fold h2 in Hwf2, Hids2.
  (* the ground truths are out of reach of the prediction loop *)
  assert (∀ l, l ∈ gt_ls → dict_at h2 l = dict_at h1 l) as Hkeep.
  { intros l Hl. apply mutate_dict_notin. by apply Hdisj. }
  assert (Forall (wf_ann h2) gt_ls) as Hwfg.
  { apply Forall_forall. intros l Hl.
    apply (views_dict_eq h1 h2 l (Hkeep l Hl)).
    by apply (proj1 (Forall_forall _ _) Hwf1). }
  assert (∀ i l, gt_ls !! i = Some l → ann_id h2 l = Some (Z.of_nat i))
    as Hidg.
  { intros i l Hl.
    destruct (views_dict_eq h1 h2 l) as (-> & _); [|by apply Hids1].
    by eapply Hkeep, list_elem_of_lookup_2. }
  (* run *)
  exists (mkData "test_gt" gt_ls (rebuilt_classes h2 gt_ls)
                 (rebuilt_images h2 gt_ls)),
         (mkData "test_pred" pred_ls (rebuilt_classes h2 pred_ls)
                 (rebuilt_images h2 pred_ls)), h2.
  split.
  { unfold json_to_Data.
    mstep (has_tag_run h "is_gold" data
             (record_tags h data Hok "is_gold" (or_introl eq_refl))).
    fold gt_ls.
    erewrite bind_ok;
      [|apply (mutate_loop_run gt_update gt_fields);
        [intros; by apply gt_body_run|done..]].
    fold h1. cbv beta.
    mstep (class_loop_run h1 gt_ls Hwf1).
    mstep (has_tag_run h1 "is_pred" data Htag1). rewrite Hsel.
    erewrite bind_ok;
      [|apply (mutate_loop_run pred_update pred_fields);
        [intros; by apply pred_body_run|done..]].
    fold h2. cbv beta.
    mstep (class_loop_run h2 pred_ls Hwf2).
    unfold ret. do 3 f_equal.
    - f_equal.
      + unfold rebuilt_classes. f_equal. apply Forall_fmap_ext, Forall_forall.
        intros l Hl. unfold class_of.
        by destruct (views_dict_eq h1 h2 l (Hkeep l Hl)) as (_ & -> & _).
      + unfold rebuilt_images. do 2 f_equal.
        rewrite (phase_images gt_update gt_fields "gold"
                   (λ i d, proj1 (gt_update_lookup i d))
                   (λ i d, proj1 (proj2 (gt_update_lookup i d)))
                   (λ i d, proj1 (proj2 (proj2 (gt_update_lookup i d))))
                   gt_fields_ok h gt_ls Hndg Hgold).
        fold h1. apply Forall_fmap_ext, Forall_forall.
        intros l Hl. unfold image_of, id_of.
        by destruct (views_dict_eq h1 h2 l (Hkeep l Hl)) as (-> & _ & -> & _).
    - f_equal. unfold rebuilt_images. do 2 f_equal.
      apply (phase_images pred_update pred_fields "pred"
               (λ i d, proj1 (pred_update_lookup i d))
               (λ i d, proj1 (proj2 (pred_update_lookup i d)))
               (λ i d, proj1 (proj2 (proj2 (pred_update_lookup i d))))
               pred_fields_ok h1 pred_ls Hndp Hpred1). }
  destruct (rebuilt_Invariants h2 gt_ls Hwfg Hidg "test_gt") as [? ?].
  destruct (rebuilt_Invariants h2 pred_ls Hwf2 Hids2 "test_pred") as [? ?].
  split_and!; try done; simpl.
  - intros l Hl.
    destruct (views_dict_eq h1 h2 l (Hkeep l Hl)) as (_ & -> & _).
    apply list_elem_of_lookup in Hl as [j Hj].
    destruct (Forall_lookup_1 _ _ _ _ Hgold Hj) as (d & Hd & Hf).
    destruct (phase_views gt_update gt_fields "gold"
                (λ i d, proj1 (gt_update_lookup i d))
                (λ i d, proj1 (proj2 (gt_update_lookup i d)))
                (λ i d, proj1 (proj2 (proj2 (gt_update_lookup i d))))
                gt_fields_ok h gt_ls j l d Hndg Hj Hd Hf) as (_ & Hc & _).
    fold h1 in Hc. rewrite Hc. unfold field. by rewrite Hd.
  - intros l Hl.
    apply list_elem_of_lookup in Hl as [j Hj].
    destruct (Forall_lookup_1 _ _ _ _ Hpred Hj) as (d & Hd & Hf).
    destruct (Forall_lookup_1 _ _ _ _ Hpred1 Hj) as (d1 & Hd1 & Hf1).
    assert (d1 = d) as ->.
    { unfold h1 in Hd1. rewrite mutate_dict_notin in Hd1; [congruence|].
      intros Hin. apply (Hdisj l Hin). by eapply list_elem_of_lookup_2. }
    destruct (phase_views pred_update pred_fields "pred"
                (λ i d, proj1 (pred_update_lookup i d))
                (λ i d, proj1 (proj2 (pred_update_lookup i d)))
                (λ i d, proj1 (proj2 (proj2 (pred_update_lookup i d))))
                pred_fields_ok h1 pred_ls j l d Hndp Hj Hd1 Hf1)
      as (_ & Hc & _).
    fold h2 in Hc. rewrite Hc. unfold field at 1 3. rewrite Hd. simpl.
    split; [done|].
    pose proof (mutate_at pred_update pred_ls 0 h1 j l d Hndp Hj Hd1) as Hnew.
    fold h2 in Hnew. unfold field. rewrite Hnew. simpl.
    destruct (pred_update_lookup j d) as (_ & _ & _ & ->).
    destruct Hf as (_ & _ & _ & [c ->]). done.
Qed.

Lemma scenario_records_ok :
  NoDup scenario_data ∧ Forall (record_ok scenario_heap) scenario_data.
Proof.
  split.
  - apply NoDup_cons. split; [|apply NoDup_singleton].
    by intros ?%list_elem_of_singleton.
  - apply Forall_cons. split; [|apply Forall_cons; split; [|done]].
    + eexists _, true, false. by split_and!.
    + eexists _, false, true. by split_and!.
Qed.

Lemma importer_exclusive_tags_scenario :
  ∃ gts preds h',
    json_to_Data scenario_data scenario_heap = Ok ((gts, preds), h') ∧
    annotations gts
    = filter (λ l, has_tag scenario_heap "is_gold" l) scenario_data ∧
    annotations preds
    = filter (λ l, has_tag scenario_heap "is_pred" l) scenario_data ∧
    Invariants h' gts ∧ images_exact h' gts ∧
    Invariants h' preds ∧ images_exact h' preds ∧
    (∀ l, l ∈ annotations gts →
          ann_class h' l = field scenario_heap l "gold" ≫= int_of) ∧
    (∀ l, l ∈ annotations preds →
          ann_class h' l = field scenario_heap l "pred" ≫= int_of ∧
          field h' l "score" = field scenario_heap l "confidence").
Proof.
  exact (importer_exclusive_tags scenario_heap scenario_data
           (proj1 scenario_records_ok) (proj2 scenario_records_ok)).
Defined.

(** * Further properties of the code *)

(** ** A dataset read in a larger store *)

Lemma Invariants_app h e d : Invariants h d → Invariants (h ++ e) d.
Proof.
  intros [Hwf Hids Hsound Hcomplete Hcls].
  assert (∀ l, l ∈ annotations d →
               ann_id (h ++ e) l = ann_id h l ∧
               ann_class (h ++ e) l = ann_class h l ∧
               ann_image (h ++ e) l = ann_image h l) as Hv.
  { intros l Hl. apply ann_views_app. by eapply Forall_forall in Hwf. }
  split.
  - by apply Forall_wf_ann_app.
  - intros i l Hl.
    destruct (Hv l (list_elem_of_lookup_2 _ _ _ Hl)) as (-> & _). eauto.
  - intros k img id Hk Hin. destruct (Hsound k img id Hk Hin) as (l & Hl & ?).
    exists l. split; [done|]. by destruct (Hv l Hl) as (-> & _).
  - intros l Hl. unfold image_of, id_of.
    destruct (Hv l Hl) as (-> & _ & ->). by apply Hcomplete.
  - intros c. rewrite Hcls. split; intros (l & Hl & Hc); exists l;
      (split; [done|]); destruct (Hv l Hl) as (_ & Hcl & _); congruence.
Qed.

Lemma images_exact_app h e d :
  Forall (wf_ann h) (annotations d) →
  images_exact h d → images_exact (h ++ e) d.
Proof.
  intros Hwf [Hdom Hanns].
  assert (∀ l, l ∈ annotations d →
               ann_id (h ++ e) l = ann_id h l ∧
               ann_image (h ++ e) l = ann_image h l) as Hv.
  { intros l Hl. eapply Forall_forall in Hwf; [|done].
    by destruct (ann_views_app h e l Hwf) as (? & _ & ?). }
  split.
  - intros k. rewrite Hdom. split; intros (l & Hl & Hk); exists l;
      (split; [done|]); destruct (Hv l Hl) as (_ & Him); congruence.
  - intros k img Hk. destruct (Hanns k img Hk) as [Hnd Hin].
    split; [done|]. intros id. rewrite Hin.
    split; intros (l & Hl & Hki & Hid); exists l;
      (split; [done|]); destruct (Hv l Hl) as (Hi & Him);
      split; congruence.
Qed.

(** The dataset that the filter returns, in the store it leaves. *)
Lemma filtered_Invariants h d keep nm :
  Forall (wf_ann h) (annotations d) →
  Invariants (filtered_heap h d keep) (filtered h d keep nm).1 ∧
  images_exact (filtered_heap h d keep) (filtered h d keep nm).1.
Proof.
  intros Hwf. apply rebuilt_Invariants.
  - by apply new_anns_wf, selected_wf.
  - intros i l. by apply filtered_ids.
Qed.

(** ** [filter_dataset_to_label] *)

Lemma eq_int_int h z c : eq_int (VInt z) c h = Ok (Z.eqb z c, h).
Proof. done. Qed.

Lemma class_ids_set_cons h l ls c :
  class_ids_set h (l :: ls) c
  = class_ids_set h [l] c ∪ class_ids_set h ls c.
Proof.
  unfold class_ids_set. change (l :: ls) with ([l] ++ ls).
  by rewrite filter_app, fmap_app, list_to_set_app_L.
Qed.

Lemma class_ids_loop_run h c ls : ∀ i acc,
  Forall (wf_ann h) ls →
  for_enum (λ _ ann (acc : gset Z),
              let* cv := getitem ann "class" in
              let* cond := eq_int cv c in
              if cond
              then let* v := getitem ann "_id" in
                   let* i := as_int v in
                   ret (acc ∪ {[i]})
              else ret acc)
           i ls acc h
  = Ok (acc ∪ class_ids_set h ls c, h).
Proof.
  intros i acc Hwf. revert i acc.
  induction Hwf as [|l ls Hl _ IH]; intros i acc.
  { simpl. unfold ret, class_ids_set. simpl.
    by rewrite (right_id_L ∅ (∪)). }
  destruct (wf_ann_views _ _ Hl) as (Hid & Hc & _).
  cbn [for_enum].
  rewrite (bind_ok _ _ _ (acc ∪ class_ids_set h [l] c) h).
  - by rewrite IH, (class_ids_set_cons h l ls), (assoc_L (∪)).
  - mstep (getitem_ok _ _ _ _ (proj1 (ann_class_field _ _ _) Hc)).
    mstep (eq_int_int h (class_of h l) c).
    unfold class_ids_set. rewrite filter_cons, filter_nil.
    assert (has_class h c l = Z.eqb (class_of h l) c) as ->
      by (unfold has_class; by rewrite Hc).
    destruct (Z.eqb (class_of h l) c); simpl.
    + mstep (getitem_ok _ _ _ _ (proj1 (ann_id_field _ _ _) Hid)).
      mstep (as_int_ok h (id_of h l)). unfold ret.
      by rewrite (right_id_L ∅ (∪)).
    + unfold ret. by rewrite (right_id_L ∅ (∪)).
Qed.

Lemma class_ids_of_run h d c :
  Forall (wf_ann h) (annotations d) →
  class_ids_of d c h = Ok (class_ids_set h (annotations d) c, h).
Proof.
  intros Hwf. unfold class_ids_of, for_each.
  by rewrite class_ids_loop_run, (left_id_L ∅ (∪)).
Qed.

Lemma has_class_iff h c l : has_class h c l ↔ ann_class h l = Some c.
Proof.
  unfold has_class. destruct (ann_class h l) as [c'|]; [|done].
  rewrite Is_true_true, Z.eqb_eq. split; congruence.
Qed.

(** With unique ids, the annotations whose id is the id of an annotation of
    class [c] are the annotations of class [c]. *)
Lemma selected_class_ids h d c :
  Invariants h d →
  selected h d (class_ids_set h (annotations d) c)
  = filter (λ l, has_class h c l) (annotations d).
Proof.
  intros Hinv. apply filter_ext_in. intros l Hl. rewrite kept_iff.
  pose proof (proj1 (Forall_forall _ _) (inv_wf _ _ Hinv) l Hl) as Hwl.
  destruct (wf_ann_views _ _ Hwl) as (Hid & _).
  unfold class_ids_set. split.
  - intros (i & Hi & Hin).
    apply elem_of_list_to_set, list_elem_of_fmap in Hin
      as (l' & -> & [Hc Hl']%list_elem_of_filter).
    pose proof (proj1 (Forall_forall _ _) (inv_wf _ _ Hinv) l' Hl') as Hwl'.
    destruct (wf_ann_views _ _ Hwl') as (Hid' & _).
    by rewrite (ids_inj h d l l' _ Hinv Hl Hl' Hi Hid').
  - intros Hc. exists (id_of h l). split; [done|].
    apply elem_of_list_to_set, list_elem_of_fmap_2, list_elem_of_filter.
    done.
Qed.

Lemma filter_dataset_to_label_run h gts preds c :
  Forall (wf_ann h) (annotations gts) →
  Forall (wf_ann h) (annotations preds) →
  let G := class_ids_set h (annotations gts) c in
  let P := class_ids_set h (annotations preds) c in
  let h1 := filtered_heap h gts G in
  filter_dataset_to_label gts preds c h
  = Ok (((filtered h gts G filtered_data).1,
         (filtered h1 preds P filtered_data).1),
        filtered_heap h1 preds P).
Proof.
  intros Hg Hp G P h1. unfold filter_dataset_to_label.
  mstep (class_ids_of_run h gts c Hg).
  mstep (class_ids_of_run h preds c Hp).
  mstep (create_filtered_Data_run h gts G filtered_data Hg).
  destruct (filtered h gts G filtered_data) as [ge gm] eqn:Hge.
  assert (Forall (wf_ann h1) (annotations preds)) as Hp1
    by by apply Forall_wf_ann_app.
  mstep (create_filtered_Data_run h1 preds P filtered_data Hp1).
  by destruct (filtered h1 preds P filtered_data) as [pe pm] eqn:Hpe.
Qed.

Lemma class_filtered h e d c nm :
  Invariants h d →
  let K := class_ids_set h (annotations d) c in
  dict_at (filtered_heap (h ++ e) d K)
    <$> annotations (filtered (h ++ e) d K nm).1
  = imap (λ j l, insert "_id" (VInt (Z.of_nat j)) <$> dict_at h l)
         (filter (λ l, ann_class h l = Some c) (annotations d)) ∧
  ∀ l, l ∈ annotations (filtered (h ++ e) d K nm).1 →
       ann_class (filtered_heap (h ++ e) d K) l = Some c.
Proof.
  intros Hinv K. pose proof (inv_wf _ _ Hinv) as Hwf.
  assert (selected h d K = filter (λ l, ann_class h l = Some c) (annotations d))
    as Hsel.
  { unfold K. rewrite selected_class_ids by done.
    apply filter_ext_in. intros l _. apply has_class_iff. }
  split.
  - destruct (filtered_in_extension h e d K nm Hwf) as (_ & _ & _ & _ & ->).
    by rewrite Hsel.
  - unfold filtered, filtered_heap. simpl.
    intros l' [j [-> Hj]%lookup_seq]%list_elem_of_lookup.
    destruct (lookup_lt_is_Some_2 _ _ Hj) as [l Hl].
    assert (l ∈ selected h d K) as Hin.
    { rewrite <- (selected_app h e) by done.
      by eapply list_elem_of_lookup_2. }
    pose proof Hin as [Hla _]%elem_of_selected.
    pose proof (proj1 (Forall_forall _ _) Hwf l Hla) as Hwl.
    destruct (new_ann_views (h ++ e) _ j l (wf_ann_app _ e _ Hwl) Hl)
      as (_ & -> & _).
    destruct (ann_views_app h e l Hwl) as (_ & -> & _).
    rewrite Hsel in Hin. by apply list_elem_of_filter in Hin as [? _].
Qed.

(** X1. For datasets that satisfy the invariants, [filter_dataset_to_label]
    succeeds; each dataset it returns satisfies invariants 1 to 3, holds, in
    order, renumbered copies of exactly the input annotations of class
    [cls_id], and has no class key other than [cls_id].  The predictions need
    no [info] and no link is followed. *)
Theorem label_filter h gts preds c :
  Invariants h gts →
  Invariants h preds →
  ∃ ge pe h',
    filter_dataset_to_label gts preds c h = Ok ((ge, pe), h') ∧
    Invariants h' ge ∧ images_exact h' ge ∧
    Invariants h' pe ∧ images_exact h' pe ∧
    dict_at h' <$> annotations ge
    = imap (λ j l, insert "_id" (VInt (Z.of_nat j)) <$> dict_at h l)
           (filter (λ l, ann_class h l = Some c) (annotations gts)) ∧
    dict_at h' <$> annotations pe
    = imap (λ j l, insert "_id" (VInt (Z.of_nat j)) <$> dict_at h l)
           (filter (λ l, ann_class h l = Some c) (annotations preds)) ∧
    (∀ k, k ∈ dom (classes ge) → k = c) ∧
    (∀ k, k ∈ dom (classes pe) → k = c).
Proof.
  intros Hg Hp.
  pose proof (inv_wf _ _ Hg) as Hwg. pose proof (inv_wf _ _ Hp) as Hwp.
  set (G := class_ids_set h (annotations gts) c).
  set (P := class_ids_set h (annotations preds) c).
  set (h1 := filtered_heap h gts G).
  assert (Forall (wf_ann h1) (annotations preds)) as Hwp1
    by by apply Forall_wf_ann_app.
  destruct (filtered_Invariants h gts G filtered_data Hwg) as [Hig Heg].
  destruct (filtered_Invariants h1 preds P filtered_data Hwp1) as [Hip Hep].
  destruct (class_filtered h [] gts c filtered_data Hg) as [Hcg Hclg].
  rewrite app_nil_r in Hcg, Hclg. fold G h1 in Hcg, Hclg.
  destruct (class_filtered h (renumbered h 0 (selected h gts G)) preds c
              filtered_data Hp) as [Hcp Hclp].
  fold P in Hcp, Hclp.
  change (h ++ renumbered h 0 (selected h gts G)) with h1 in Hcp, Hclp.
  eexists _, _, _. split; [by apply filter_dataset_to_label_run|].
  fold G P h1. unfold filtered_heap at 1 3 5.
  split_and!.
  - by apply Invariants_app.
  - apply images_exact_app; [by apply inv_wf|done].
  - done.
  - done.
  - rewrite contents_app by by apply inv_wf. done.
  - done.
  - intros k [l [Hl Hk]]%(inv_classes _ _ Hig).
    pose proof (Hclg l Hl) as Hc. unfold h1 in Hc. rewrite Hk in Hc.
    by injection Hc.
  - intros k [l [Hl Hk]]%(inv_classes _ _ Hip).
    pose proof (Hclp l Hl) as Hc. rewrite Hk in Hc. by injection Hc.
Qed.

Lemma label_filter_witness :
  ∃ ge pe h',
    filter_dataset_to_label sample_gts sample_preds 1 sample_heap
    = Ok ((ge, pe), h') ∧
    Invariants h' ge ∧ images_exact h' ge ∧
    Invariants h' pe ∧ images_exact h' pe ∧
    dict_at h' <$> annotations ge
    = imap (λ j l, insert "_id" (VInt (Z.of_nat j)) <$> dict_at sample_heap l)
           (filter (λ l, ann_class sample_heap l = Some 1%Z)
                   (annotations sample_gts)) ∧
    dict_at h' <$> annotations pe
    = imap (λ j l, insert "_id" (VInt (Z.of_nat j)) <$> dict_at sample_heap l)
           (filter (λ l, ann_class sample_heap l = Some 1%Z)
                   (annotations sample_preds)) ∧
    (∀ k, k ∈ dom (classes ge) → k = 1%Z) ∧
    (∀ k, k ∈ dom (classes pe) → k = 1%Z).
Proof.
  exact (label_filter sample_heap sample_gts sample_preds 1
           sample_gts_Invariants sample_preds_Invariants).
Defined.

(** ** The datasets that the enlarger returns *)

(** X3. For ground truths with well-formed annotations and predictions that
    each carry an [info] mapping, the enlarger succeeds whatever the ids to
    keep are, and both datasets it returns satisfy invariants 1 to 3, also
    when the input datasets do not.  It changes no object of the input store
    and allocates one object for each returned annotation. *)
Theorem enlarge_invariants h gts preds gk pk :
  Forall (wf_ann h) (annotations gts) →
  Forall (wf_pred h) (annotations preds) →
  ∃ ge pe (gm pm : gmap nat Z) h',
    enlarge_dataset_to_respect_TIDE gts preds gk pk h
    = Ok ((ge, pe, gm, pm), h') ∧
    Invariants h' ge ∧ images_exact h' ge ∧
    Invariants h' pe ∧ images_exact h' pe ∧
    (∀ l o, h !! l = Some o → h' !! l = Some o) ∧
    length h' = length h + length (annotations ge) + length (annotations pe).
Proof.
  intros Hg Hp.
  set (fg := enlarged_gts h preds gk pk).
  set (fp := enlarged_preds h preds gk pk).
  set (h1 := filtered_heap h gts fg).
  assert (Forall (wf_ann h1) (annotations preds)) as Hp1
    by by apply Forall_wf_ann_app, wf_pred_wf_ann.
  destruct (filtered_Invariants h gts fg filtered_data Hg) as [Hig Heg].
  destruct (filtered_Invariants h1 preds fp filtered_data Hp1) as [Hip Hep].
  eexists _, _, _, _, _. split; [by apply enlarge_run|].
  fold fg fp h1. split_and!.
  - by apply Invariants_app.
  - apply images_exact_app; [by apply inv_wf|done].
  - done.
  - done.
  - intros l o Hl. unfold filtered_heap at 1. unfold h1, filtered_heap.
    by apply lookup_app_l_Some, lookup_app_l_Some.
  - unfold filtered_heap at 1. unfold h1, filtered_heap, filtered, renumbered.
    simpl. rewrite !length_app, !length_imap, !length_seq. done.
Qed.

Lemma enlarge_invariants_witness :
  ∃ ge pe (gm pm : gmap nat Z) h',
    enlarge_dataset_to_respect_TIDE sample_gts sample_preds ∅ {[1%Z]}
                                    sample_heap
    = Ok ((ge, pe, gm, pm), h') ∧
    Invariants h' ge ∧ images_exact h' ge ∧
    Invariants h' pe ∧ images_exact h' pe ∧
    (∀ l o, sample_heap !! l = Some o → h' !! l = Some o) ∧
    length h' = length sample_heap + length (annotations ge)
                + length (annotations pe).
Proof.
  exact (enlarge_invariants sample_heap sample_gts sample_preds ∅ {[1%Z]}
           (inv_wf _ _ sample_gts_Invariants) sample_preds_wf).
Defined.




Lemma enlarged_gts_mono h preds gk pk gk' pk' :
  gk ⊆ gk' → pk ⊆ pk' →
  enlarged_gts h preds gk pk ⊆ enlarged_gts h preds gk' pk'.
Proof.
  intros Hgk Hpk g. unfold enlarged_gts.
  rewrite !elem_of_union, !elem_of_assoc_gts_set.
  intros [Hg|(l & Hl & Hmw & i & Hi & Hin)]; [left; by apply Hgk|].
  right. exists l. split_and!; [done..|]. exists i. split; [done|].
  by apply Hpk.
Qed.

Lemma enlarged_preds_mono h preds gk pk gk' pk' :
  Forall (wf_ann h) (annotations preds) →
  gk ⊆ gk' → pk ⊆ pk' →
  enlarged_preds h preds gk pk ⊆ enlarged_preds h preds gk' pk'.
Proof.
  intros Hwf Hgk Hpk p. unfold enlarged_preds.
  rewrite !elem_of_union, !elem_of_assoc_preds_set by done.
  intros [(l & Hl & Hi & g & Hmw & Hin)|Hp]; [|right; by apply Hpk].
  left. exists l. split_and!; [done..|]. exists g. split; [done|].
  by apply (enlarged_gts_mono h preds gk pk gk' pk').
Qed.

(** X5. The enlarger only adds: every kept id that is an id of the dataset is
    among the values of the returned map, and the values of the maps are ids
    of the input datasets.  It is monotone: with larger sets of ids to keep,
    the values of both maps can only grow. *)
Theorem enlarge_monotone h gts preds gk pk gk' pk' :
  Forall (wf_ann h) (annotations gts) →
  Forall (wf_pred h) (annotations preds) →
  gk ⊆ gk' → pk ⊆ pk' →
  ∃ ge pe (gm pm : gmap nat Z) h1 ge' pe' (gm' pm' : gmap nat Z) h2,
    enlarge_dataset_to_respect_TIDE gts preds gk pk h
    = Ok ((ge, pe, gm, pm), h1) ∧
    enlarge_dataset_to_respect_TIDE gts preds gk' pk' h
    = Ok ((ge', pe', gm', pm'), h2) ∧
    gk ∩ dataset_ids h gts ⊆ map_img gm ∧
    pk ∩ dataset_ids h preds ⊆ map_img pm ∧
    (map_img gm : gset Z) ⊆ dataset_ids h gts ∧
    (map_img pm : gset Z) ⊆ dataset_ids h preds ∧
    (map_img gm : gset Z) ⊆ map_img gm' ∧
    (map_img pm : gset Z) ⊆ map_img pm'.
Proof.
  intros Hg Hp Hgk Hpk.
  pose proof (wf_pred_wf_ann _ _ Hp) as Hpa.
  eexists _, _, _, _, _, _, _, _, _, _.
  split; [by apply enlarge_run|]. split; [by apply enlarge_run|].
  rewrite !new_to_old_values by (done || by apply Forall_wf_ann_app).
  unfold filtered_heap. rewrite !dataset_ids_app by done.
  pose proof (enlarged_gts_mono h preds gk pk gk' pk' Hgk Hpk) as Hmg.
  pose proof (enlarged_preds_mono h preds gk pk gk' pk' Hpa Hgk Hpk) as Hmp.
  split_and!; intros x; rewrite !elem_of_intersection.
  - intros [Hx ?]. split; [|done]. by apply elem_of_union_l.
  - intros [Hx ?]. split; [|done]. by apply elem_of_union_r.
  - by intros [_ ?].
  - by intros [_ ?].
  - intros [Hx ?]. split; [|done]. by apply Hmg.
  - intros [Hx ?]. split; [|done]. by apply Hmp.
Qed.

Lemma enlarge_monotone_witness :
  ∃ ge pe (gm pm : gmap nat Z) h1 ge' pe' (gm' pm' : gmap nat Z) h2,
    enlarge_dataset_to_respect_TIDE sample_gts sample_preds {[1%Z]} {[1%Z]}
                                    sample_heap
    = Ok ((ge, pe, gm, pm), h1) ∧
    enlarge_dataset_to_respect_TIDE sample_gts sample_preds
                                    ({[1%Z]} ∪ {[5%Z]}) ({[1%Z]} ∪ {[2%Z]})
                                    sample_heap
    = Ok ((ge', pe', gm', pm'), h2) ∧
    {[1%Z]} ∩ dataset_ids sample_heap sample_gts ⊆ map_img gm ∧
    {[1%Z]} ∩ dataset_ids sample_heap sample_preds ⊆ map_img pm ∧
    (map_img gm : gset Z) ⊆ dataset_ids sample_heap sample_gts ∧
    (map_img pm : gset Z) ⊆ dataset_ids sample_heap sample_preds ∧
    (map_img gm : gset Z) ⊆ map_img gm' ∧
    (map_img pm : gset Z) ⊆ map_img pm'.
Proof.
  exact (enlarge_monotone sample_heap sample_gts sample_preds
           {[1%Z]} {[1%Z]} ({[1%Z]} ∪ {[5%Z]}) ({[1%Z]} ∪ {[2%Z]})
           (inv_wf _ _ sample_gts_Invariants) sample_preds_wf
           (union_subseteq_l _ _) (union_subseteq_l _ _)).
Defined.

Lemma sample_matches l :
  l ∈ annotations sample_preds →
  (ann_id sample_heap l = Some 0%Z ∧ matched_with sample_heap l = Some 0%Z) ∨
  (ann_id sample_heap l = Some 1%Z ∧ matched_with sample_heap l = Some 0%Z) ∨
  (ann_id sample_heap l = Some 2%Z ∧ matched_with sample_heap l = None).
Proof.
  simpl. rewrite !elem_of_cons.
  intros [->|[->|[->|Hl]]]; [by left|by right; left|by right; right|].
  by apply not_elem_of_nil in Hl.
Qed.

Lemma sample_keeps_closed :
  (∀ l p g, l ∈ annotations sample_preds → ann_id sample_heap l = Some p →
            p ∈ ({[0%Z; 1%Z]} : gset Z) →
            matched_with sample_heap l = Some g → g ∈ ({[0%Z]} : gset Z)) ∧
  (∀ l p g, l ∈ annotations sample_preds → ann_id sample_heap l = Some p →
            matched_with sample_heap l = Some g → g ∈ ({[0%Z]} : gset Z) →
            p ∈ ({[0%Z; 1%Z]} : gset Z)).
Proof.
  split; intros l p g Hl Hp.
  - intros _ Hg.
    destruct (sample_matches l Hl) as [[_ Hm]|[[_ Hm]|[_ Hm]]];
      rewrite Hm in Hg; [| |done]; injection Hg as <-;
      by apply elem_of_singleton.
  - intros Hg _.
    destruct (sample_matches l Hl) as [[Hi Hm]|[[Hi Hm]|[_ Hm]]];
      [| |by rewrite Hm in Hg]; rewrite Hi in Hp; injection Hp as <-.
    + by apply elem_of_union_l, elem_of_singleton.
    + by apply elem_of_union_r, elem_of_singleton.
Qed.

(** X6. On sets of ids that are already closed under the links (every kept
    prediction is matched with a kept ground truth, and every prediction
    matched with a kept ground truth is kept), the enlarger adds nothing: it
    returns what the subset filter returns for the ground truths and then for
    the predictions.  This covers predictions that have no [matched_with] at
    all. *)
Theorem enlarge_closed_keeps h gts preds gk pk :
  Forall (wf_ann h) (annotations gts) →
  Forall (wf_pred h) (annotations preds) →
  (∀ l p g, l ∈ annotations preds → ann_id h l = Some p → p ∈ pk →
            matched_with h l = Some g → g ∈ gk) →
  (∀ l p g, l ∈ annotations preds → ann_id h l = Some p →
            matched_with h l = Some g → g ∈ gk → p ∈ pk) →
  ∃ ge pe (gm pm : gmap nat Z) h1 h',
    create_filtered_Data gts gk filtered_data h = Ok ((ge, gm), h1) ∧
    create_filtered_Data preds pk filtered_data h1 = Ok ((pe, pm), h') ∧
    enlarge_dataset_to_respect_TIDE gts preds gk pk h
    = Ok ((ge, pe, gm, pm), h').
Proof.
  intros Hg Hp Hc1 Hc2.
  pose proof (wf_pred_wf_ann _ _ Hp) as Hpa.
  assert (enlarged_gts h preds gk pk = gk) as Hfg.
  { apply set_eq. intros g. unfold enlarged_gts.
    rewrite elem_of_union, elem_of_assoc_gts_set. split; [|by left].
    intros [?|(l & Hl & Hmw & i & Hi & Hin)]; [done|]. by eapply Hc1. }
  assert (enlarged_preds h preds gk pk = pk) as Hfp.
  { apply set_eq. intros p. unfold enlarged_preds. rewrite Hfg.
    rewrite elem_of_union, elem_of_assoc_preds_set by done.
    split; [|by right].
    intros [(l & Hl & Hi & g & Hmw & Hin)|?]; [|done]. by eapply Hc2. }
  exists (filtered h gts gk filtered_data).1,
         (filtered (filtered_heap h gts gk) preds pk filtered_data).1,
         (filtered h gts gk filtered_data).2,
         (filtered (filtered_heap h gts gk) preds pk filtered_data).2,
         (filtered_heap h gts gk),
         (filtered_heap (filtered_heap h gts gk) preds pk).
  split_and!.
  - rewrite create_filtered_Data_run by done.
    by destruct (filtered h gts gk filtered_data).
  - rewrite create_filtered_Data_run by by apply Forall_wf_ann_app.
    by destruct (filtered (filtered_heap h gts gk) preds pk filtered_data).
  - rewrite enlarge_run by done. by rewrite Hfp, Hfg.
Qed.

Lemma enlarge_closed_keeps_witness :
  ∃ ge pe (gm pm : gmap nat Z) h1 h',
    create_filtered_Data sample_gts {[0%Z]} filtered_data sample_heap
    = Ok ((ge, gm), h1) ∧
    create_filtered_Data sample_preds {[0%Z; 1%Z]} filtered_data h1
    = Ok ((pe, pm), h') ∧
    enlarge_dataset_to_respect_TIDE sample_gts sample_preds
                                    {[0%Z]} {[0%Z; 1%Z]} sample_heap
    = Ok ((ge, pe, gm, pm), h').
Proof.
  exact (enlarge_closed_keeps sample_heap sample_gts sample_preds
           {[0%Z]} {[0%Z; 1%Z]}
           (inv_wf _ _ sample_gts_Invariants) sample_preds_wf
           (proj1 sample_keeps_closed) (proj2 sample_keeps_closed)).
Defined.

(** ** What the subset filter reads *)

(** X7. The filter asks less of its input than the invariants: when every
    annotation has an int [_id] and the selected ones are well formed, the
    call succeeds and returns, in a dataset that satisfies invariants 1 to 3,
    the renumbered copies of the selected annotations.  The annotations that
    are not selected need no [class] and no [image_id], and the input's ids
    need not be distinct or in order. *)
Theorem filter_reads_selected h d keep nm :
  Forall (λ l, is_Some (ann_id h l)) (annotations d) →
  Forall (wf_ann h) (selected h d keep) →
  ∃ d' n2o h',
    create_filtered_Data d keep nm h = Ok ((d', n2o), h') ∧
    Invariants h' d' ∧ images_exact h' d' ∧
    dict_at h' <$> annotations d'
    = imap (λ j l, insert "_id" (VInt (Z.of_nat j)) <$> dict_at h l)
           (selected h d keep).
Proof.
  intros Hids Hsel.
  exists (filtered h d keep nm).1, (filtered h d keep nm).2,
         (filtered_heap h d keep).
  split; [|split_and!].
  - unfold create_filtered_Data.
    mstep (select_run_ids h keep _ Hids). fold (selected h d keep).
    mstep (copy_loop_run _ 0 ∅ [] h Hsel). cbn [app].
    pose proof (new_anns_wf _ _ Hsel) as Hnew.
    mstep (class_loop_run _ _ Hnew).
    mstep (image_loop_run _ _ 0 ∅ Hnew).
    unfold ret, filtered. by rewrite (right_id_L ∅ (∪)).
  - apply rebuilt_Invariants; [by apply new_anns_wf|].
    intros i l [-> Hi]%lookup_seq.
    destruct (lookup_lt_is_Some_2 _ _ Hi) as [l Hl].
    pose proof (Forall_lookup_1 _ _ _ _ Hsel Hl) as Hwfl.
    by destruct (new_ann_views _ _ _ _ Hwfl Hl) as (? & _).
  - apply rebuilt_Invariants; [by apply new_anns_wf|].
    intros i l [-> Hi]%lookup_seq.
    destruct (lookup_lt_is_Some_2 _ _ Hi) as [l Hl].
    pose proof (Forall_lookup_1 _ _ _ _ Hsel Hl) as Hwfl.
    by destruct (new_ann_views _ _ _ _ Hwfl Hl) as (? & _).
  - unfold filtered, filtered_heap. simpl.
    apply fmap_seq_new. intros j l Hl.
    destruct (wf_ann_dict _ _ (Forall_lookup_1 _ _ _ _ Hsel Hl)) as [m Hm].
    rewrite Hm. simpl. by apply (new_ann_dict _ _ _ l).
Qed.

Lemma filter_reads_selected_witness :
  ∃ d' n2o h',
    create_filtered_Data partial_data {[0%Z]} filtered_data partial_heap
    = Ok ((d', n2o), h') ∧
    Invariants h' d' ∧ images_exact h' d' ∧
    dict_at h' <$> annotations d'
    = imap (λ j l, insert "_id" (VInt (Z.of_nat j)) <$> dict_at partial_heap l)
           (selected partial_heap partial_data {[0%Z]}).
Proof.
  apply (filter_reads_selected partial_heap partial_data {[0%Z]}
           filtered_data).
  - repeat constructor; by eexists.
  - change (selected partial_heap partial_data {[0%Z]}) with [0].
    repeat constructor; by eexists.
Defined.

Lemma filterM_raise (c : loc → M bool) ls1 l ls2 h e :
  Forall (λ x, ∃ b, c x h = Ok (b, h)) ls1 →
  c l h = Raise e →
  filterM c (ls1 ++ l :: ls2) h = Raise e.
Proof.
  intros Hok Hl. induction Hok as [|x ls1 [b Hb] _ IH]; cbn [filterM app].
  - by apply bind_raise.
  - mstep Hb. by apply bind_raise.
Qed.

(** X8. The filter reads [_id] on every annotation, selected or not: if an
    annotation has no [_id] (those before it having one), the call raises
    [KeyError "_id"] whatever the set of ids to keep is, the empty one
    included. *)
Theorem filter_missing_id h d keep nm ls1 l ls2 m :
  annotations d = ls1 ++ l :: ls2 →
  Forall (λ x, is_Some (ann_id h x)) ls1 →
  dict_at h l = Some m →
  m !! "_id" = None →
  create_filtered_Data d keep nm h = Raise (KeyError "_id").
Proof.
  intros Hd Hids Hm Hno.
  unfold create_filtered_Data. apply bind_raise. rewrite Hd.
  apply filterM_raise.
  - eapply Forall_impl; [exact Hids|]. intros x [i Hi]. simpl.
    exists (bool_decide (i ∈ keep)).
    mstep (getitem_ok _ _ _ _ (proj1 (ann_id_field _ _ _) Hi)).
    apply in_ids_int.
  - apply bind_raise. by apply (getitem_missing _ _ _ m).
Qed.

Lemma filter_missing_id_witness :
  create_filtered_Data (mkData "raw" scenario_data ∅ ∅) ∅ filtered_data
                       scenario_heap = Raise (KeyError "_id").
Proof.
  eapply (filter_missing_id scenario_heap (mkData "raw" scenario_data ∅ ∅)
            ∅ filtered_data [] 0 [2]).
  - reflexivity.
  - constructor.
  - reflexivity.
  - reflexivity.
Defined.

(** ** How many annotations the filter returns *)

Lemma selected_ids_NoDup h d keep :
  Invariants h d → NoDup (id_of h <$> selected h d keep).
Proof.
  intros Hinv.
  eapply sublist_NoDup; [|apply fmap_sublist, sublist_filter].
  rewrite (ids_dense _ _ (inv_ids _ _ Hinv)).
  apply NoDup_fmap_2; [apply _|apply NoDup_seq].
Qed.

Lemma selected_ids_set h d keep :
  Forall (wf_ann h) (annotations d) →
  list_to_set (id_of h <$> selected h d keep) = keep ∩ dataset_ids h d.
Proof.
  intros Hwf. rewrite <- (new_to_old_values h d keep filtered_data Hwf).
  apply set_eq. intros x. unfold filtered. simpl.
  by rewrite elem_of_map_img_seq, elem_of_list_to_set.
Qed.

Lemma size_map_seq (xs : list Z) : ∀ start,
  size (map_seq start xs : gmap nat Z) = length xs.
Proof.
  induction xs as [|x xs IH]; intros start; [done|].
  cbn [map_seq length]. rewrite map_size_insert_None, IH; [done|].
  apply lookup_map_seq_None. lia.
Qed.

(** X9. For a dataset that satisfies the invariants, the filter returns as
    many annotations as there are kept ids among the ids of the dataset;
    [new_to_old] has that many entries and the store grows by that many
    objects.  So the result is never larger than the input, nor than the set
    of ids to keep. *)
Theorem filter_size h d keep nm :
  Invariants h d →
  ∃ d' n2o h',
    create_filtered_Data d keep nm h = Ok ((d', n2o), h') ∧
    length (annotations d') = size (keep ∩ dataset_ids h d) ∧
    size n2o = size (keep ∩ dataset_ids h d) ∧
    length h' = length h + size (keep ∩ dataset_ids h d) ∧
    length (annotations d') ≤ length (annotations d) ∧
    length (annotations d') ≤ size keep.
Proof.
  intros Hinv. pose proof (inv_wf _ _ Hinv) as Hwf.
  eexists _, _, _. split; [by apply create_filtered_Data_run|].
  assert (length (selected h d keep) = size (keep ∩ dataset_ids h d)) as Hlen.
  { rewrite <- selected_ids_set by done.
    rewrite size_list_to_set by by apply selected_ids_NoDup.
    by rewrite length_fmap. }
  unfold filtered, filtered_heap, renumbered. simpl.
  rewrite length_seq, length_app, length_imap, Hlen. split_and!.
  - done.
  - by rewrite size_map_seq, length_fmap.
  - done.
  - rewrite <- Hlen. apply sublist_length, sublist_filter.
  - apply subseteq_size. apply intersection_subseteq_l.
Qed.

Lemma filter_size_witness :
  ∃ d' n2o h',
    create_filtered_Data sample_preds {[0%Z; 2%Z; 7%Z]} filtered_data
                         sample_heap = Ok ((d', n2o), h') ∧
    length (annotations d')
    = size ({[0%Z; 2%Z; 7%Z]} ∩ dataset_ids sample_heap sample_preds) ∧
    size n2o
    = size ({[0%Z; 2%Z; 7%Z]} ∩ dataset_ids sample_heap sample_preds) ∧
    length h'
    = length sample_heap
      + size ({[0%Z; 2%Z; 7%Z]} ∩ dataset_ids sample_heap sample_preds) ∧
    length (annotations d') ≤ length (annotations sample_preds) ∧
    length (annotations d') ≤ size ({[0%Z; 2%Z; 7%Z]} : gset Z).
Proof.
  exact (filter_size sample_heap sample_preds {[0%Z; 2%Z; 7%Z]} filtered_data
           sample_preds_Invariants).
Defined.

(** ** Filtering a filtered dataset *)

Lemma elem_of_old_ids (m : gmap nat Z) keep x :
  x ∈ old_ids m keep ↔ ∃ j, m !! j = Some x ∧ Z.of_nat j ∈ keep.
Proof.
  unfold old_ids. rewrite elem_of_map_img.
  by setoid_rewrite map_lookup_filter_Some.
Qed.

Lemma Forall2_filter {A B} (R : A → B → Prop) (P : A → Prop) (Q : B → Prop)
    `{!∀ x, Decision (P x)} `{!∀ y, Decision (Q y)} xs ys :
  Forall2 (λ x y, R x y ∧ (P x ↔ Q y)) xs ys →
  Forall2 R (filter P xs) (filter Q ys).
Proof.
  induction 1 as [|x y xs ys [HR HPQ] _ IH]; [constructor|].
  rewrite !filter_cons.
  destruct (decide (P x)) as [HP|HP], (decide (Q y)) as [HQ|HQ].
  - by constructor.
  - by apply HPQ in HP.
  - by apply HPQ in HQ.
  - done.
Qed.

Section compose.
Variables (h : heap) (d : Data) (k1 k2 : gset Z) (nm : string).
Hypothesis Hinv : Invariants h d.

Local Abbreviation sel1 := (selected h d k1).
Local Abbreviation h1 := (filtered_heap h d k1).
Local Abbreviation d1 := (filtered h d k1 nm).1.
Local Abbreviation m1 := (filtered h d k1 nm).2.
Local Abbreviation k3 := (old_ids m1 k2).

Lemma compose_kept j l :
  sel1 !! j = Some l →
  kept h k3 l ↔ kept h1 k2 (length h + j).
Proof.
  intros Hl. pose proof (inv_wf _ _ Hinv) as Hwf.
  pose proof (Forall_lookup_1 _ _ _ _ (selected_wf _ _ k1 Hwf) Hl) as Hwl.
  destruct (wf_ann_views _ _ Hwl) as (Hid & _).
  destruct (new_ann_views h sel1 j l Hwl Hl) as (Hnid & _).
  rewrite !kept_iff. unfold filtered_heap. rewrite Hnid, Hid.
  split.
  - intros (i & [= <-] & (j' & Hj' & Hin)%elem_of_old_ids).
    exists (Z.of_nat j). split; [done|].
    unfold filtered in Hj'. simpl in Hj'.
    rewrite lookup_map_seq_0 in Hj'.
    assert ((id_of h <$> sel1) !! j = Some (id_of h l)) as Hj
      by by rewrite list_lookup_fmap, Hl.
    by rewrite <- (NoDup_lookup _ _ _ _ (selected_ids_NoDup h d k1 Hinv) Hj' Hj).
  - intros (i & [= <-] & Hin). exists (id_of h l). split; [done|].
    apply elem_of_old_ids. exists j. split; [|done].
    unfold filtered. simpl.
    by rewrite lookup_map_seq_0, list_lookup_fmap, Hl.
Qed.

Lemma compose_selected :
  Forall2 (λ l l', ∃ j, sel1 !! j = Some l ∧ l' = length h + j)
          (selected h d k3) (selected h1 d1 k2).
Proof.
  pose proof (inv_wf _ _ Hinv) as Hwf.
  assert (selected h d k3 = filter (λ l, kept h k3 l) sel1) as ->.
  { unfold selected. rewrite list_filter_filter.
    apply filter_ext_in. intros l Hl. split; [|by intros [? _]].
    intros Hk. split; [done|].
    apply kept_iff in Hk as (i & Hi & (j & Hj & _)%elem_of_old_ids).
    unfold filtered in Hj. simpl in Hj.
    rewrite lookup_map_seq_0, list_lookup_fmap in Hj.
    fold (selected h d k1) in Hj.
    destruct (selected h d k1 !! j) as [l'|] eqn:Hl'; [|done].
    injection Hj as Hj.
    apply list_elem_of_lookup_2, elem_of_selected in Hl'
      as (Hl'a & i' & Hi' & Hin).
    assert (l' = l) as ->.
    { eapply (ids_inj h d); [done..| |done].
      unfold id_of in Hj. rewrite Hi' in Hj. simpl in Hj. congruence. }
    apply kept_iff. eauto. }
  change (Forall2 (λ l l', ∃ j, sel1 !! j = Some l ∧ l' = length h + j)
            (filter (λ l, kept h k3 l) sel1)
            (filter (λ l, kept h1 k2 l) (seq (length h) (length sel1)))).
  apply Forall2_filter, Forall2_same_length_lookup. split.
  - by rewrite length_seq.
  - intros j l l' Hl [-> _]%lookup_seq. split; [eauto|].
    by apply compose_kept.
Qed.

Lemma compose_lookup i :
  (selected h d k3 !! i = None ∧ selected h1 d1 k2 !! i = None) ∨
  ∃ (l : loc) (j : nat) (l' : loc), selected h d k3 !! i = Some l ∧
            selected h1 d1 k2 !! i = Some l' ∧
            l' = length h + j ∧ sel1 !! j = Some l.
Proof.
  pose proof compose_selected as H.
  destruct (selected h d k3 !! i) as [l|] eqn:Hl.
  - destruct (Forall2_lookup_l _ _ _ _ _ H Hl) as (l' & Hl' & j & Hj & ->).
    right. by exists l, j, (length h + j).
  - left. split; [done|]. apply lookup_ge_None_2.
    apply lookup_ge_None_1 in Hl.
    eapply Nat.le_trans; [|exact Hl].
    apply Nat.eq_le_incl. symmetry. exact (Forall2_length _ _ _ H).
Qed.

Lemma compose_views j l :
  sel1 !! j = Some l →
  wf_ann h l ∧
  id_of h1 (length h + j) = Z.of_nat j ∧
  class_of h1 (length h + j) = class_of h l ∧
  image_of h1 (length h + j) = image_of h l ∧
  ∃ m, dict_at h l = Some m ∧
       dict_at h1 (length h + j) = Some (<["_id" := VInt (Z.of_nat j)]> m).
Proof.
  intros Hl. pose proof (inv_wf _ _ Hinv) as Hwf.
  pose proof (Forall_lookup_1 _ _ _ _ (selected_wf _ _ k1 Hwf) Hl) as Hwl.
  destruct (new_ann_views h sel1 j l Hwl Hl) as (Hi & Hc & Hk).
  destruct (wf_ann_dict _ _ Hwl) as [m Hm].
  unfold id_of, class_of, image_of, filtered_heap.
  rewrite Hi, Hc, Hk. split_and!; [done..|].
  exists m. split; [done|]. by apply (new_ann_dict _ _ _ l).
Qed.

End compose.

(** X10. Filtering twice is filtering once.  For a dataset that satisfies
    the invariants, filtering it to [k1] and the result to [k2] succeeds, and
    returns a dataset equal to the one obtained by filtering the input to the
    old ids of the annotations whose new id is in [k2]; the renumbering of
    that single call is the composition of the two renumberings. *)
Theorem filter_compose h d k1 k2 nm :
  Invariants h d →
  ∃ d1 m1 h1 d2 m2 h2 d3 m3 h3,
    create_filtered_Data d k1 nm h = Ok ((d1, m1), h1) ∧
    create_filtered_Data d1 k2 nm h1 = Ok ((d2, m2), h2) ∧
    create_filtered_Data d (old_ids m1 k2) nm h = Ok ((d3, m3), h3) ∧
    same_dataset h2 d2 h3 d3 ∧
    ∀ i, m3 !! i = m2 !! i ≫= λ j, m1 !! Z.to_nat j.
Proof.
  intros Hinv. pose proof (inv_wf _ _ Hinv) as Hwf.
  pose proof (filtered_wf h d k1 nm Hwf) as Hwf1.
  pose proof (compose_lookup h d k1 k2 nm Hinv) as Hlk.
  pose proof (compose_views h d k1 Hinv) as Hv.
  exists (filtered h d k1 nm).1, (filtered h d k1 nm).2, (filtered_heap h d k1).
  exists (filtered (filtered_heap h d k1) (filtered h d k1 nm).1 k2 nm).1,
         (filtered (filtered_heap h d k1) (filtered h d k1 nm).1 k2 nm).2,
         (filtered_heap (filtered_heap h d k1) (filtered h d k1 nm).1 k2).
  exists (filtered h d (old_ids (filtered h d k1 nm).2 k2) nm).1,
         (filtered h d (old_ids (filtered h d k1 nm).2 k2) nm).2,
         (filtered_heap h d (old_ids (filtered h d k1 nm).2 k2)).
  split; [|split; [|split]].
  - rewrite create_filtered_Data_run by done.
    by destruct (filtered h d k1 nm).
  - rewrite create_filtered_Data_run by done.
    by destruct (filtered (filtered_heap h d k1) (filtered h d k1 nm).1 k2 nm).
  - rewrite create_filtered_Data_run by done.
    by destruct (filtered h d (old_ids (filtered h d k1 nm).2 k2) nm).
  - destruct (filtered_in_extension _ [] _ k2 nm Hwf1)
      as (Hn2 & Hc2 & Hi2 & Hm2 & Hd2).
    destruct (filtered_in_extension h [] d
                (old_ids (filtered h d k1 nm).2 k2) nm Hwf)
      as (Hn3 & Hc3 & Hi3 & Hm3 & Hd3).
    rewrite !app_nil_r in Hn2, Hc2, Hi2, Hm2, Hd2, Hn3, Hc3, Hi3, Hm3, Hd3.
    split.
    + unfold same_dataset. rewrite Hn2, Hc2, Hi2, Hd2, Hn3, Hc3, Hi3, Hd3.
      split_and!.
      * done.
      * f_equal. apply list_eq. intros i. rewrite !list_lookup_fmap.
        destruct (Hlk i) as [[H1 H2]|(l & j & l' & H1 & H2 & -> & Hj)];
          rewrite H1, H2; [done|].
        simpl. by destruct (Hv j l Hj) as (_ & _ & -> & _).
      * do 2 f_equal. apply list_eq. intros i. rewrite !list_lookup_imap.
        destruct (Hlk i) as [[H1 H2]|(l & j & l' & H1 & H2 & -> & Hj)];
          rewrite H1, H2; [done|].
        simpl. by destruct (Hv j l Hj) as (_ & _ & _ & -> & _).
      * apply list_eq. intros i. rewrite !list_lookup_imap.
        destruct (Hlk i) as [[H1 H2]|(l & j & l' & H1 & H2 & -> & Hj)];
          rewrite H1, H2; [done|].
        simpl. destruct (Hv j l Hj) as (_ & _ & _ & _ & m & -> & ->).
        simpl. by rewrite insert_insert_eq.
    + intros i. rewrite Hm2, Hm3.
      rewrite !lookup_map_seq_0, !list_lookup_fmap.
      destruct (Hlk i) as [[H1 H2]|(l & j & l' & H1 & H2 & -> & Hj)];
          rewrite H1, H2; [done|].
      simpl. destruct (Hv j l Hj) as (_ & -> & _).
      rewrite Nat2Z.id. unfold filtered. simpl.
      by rewrite lookup_map_seq_0, list_lookup_fmap, Hj.
Qed.

Lemma filter_compose_witness :
  ∃ d1 m1 h1 d2 m2 h2 d3 m3 h3,
    create_filtered_Data sample_preds {[1%Z; 2%Z]} filtered_data sample_heap
    = Ok ((d1, m1), h1) ∧
    create_filtered_Data d1 {[1%Z]} filtered_data h1 = Ok ((d2, m2), h2) ∧
    create_filtered_Data sample_preds (old_ids m1 {[1%Z]}) filtered_data
                         sample_heap = Ok ((d3, m3), h3) ∧
    same_dataset h2 d2 h3 d3 ∧
    ∀ i, m3 !! i = m2 !! i ≫= λ j, m1 !! Z.to_nat j.
Proof.
  exact (filter_compose sample_heap sample_preds {[1%Z; 2%Z]} {[1%Z]}
           filtered_data sample_preds_Invariants).
Defined.

(** ** The importer on records of any tags *)

Lemma truth_run h v b : truth v = Some b → truthy v h = Ok (b, h).
Proof. destruct v; simpl; intros [= <-]; done. Qed.

Lemma tagged_at h tag l d :
  dict_at h l = Some d → tagged h tag l = default false (d !! tag ≫= truth).
Proof. intros Hd. unfold tagged, field. by rewrite Hd. Qed.

Lemma tagged_run h tag ls :
  Forall (λ l, ∃ d, dict_at h l = Some d ∧ is_Some (d !! tag ≫= truth)) ls →
  filterM (λ ann, let* v := getitem ann tag in truthy v) ls h
  = Ok (filter (λ l, tagged h tag l) ls, h).
Proof.
  induction 1 as [|l ls (d & Hd & [b Hb]) _ IH]; [done|].
  destruct (d !! tag) as [v|] eqn:Hv; [simpl in Hb|done].
  assert (field h l tag = Some v) as Hf by (apply field_Some; eauto).
  cbn [filterM].
  rewrite (bind_ok _ _ _ b h)
    by by mstep (getitem_ok _ _ _ _ Hf); apply truth_run.
  mstep IH. unfold ret. rewrite filter_cons.
  assert (tagged h tag l = b) as <-
    by (unfold tagged; rewrite Hf; simpl; by rewrite Hb).
  by destruct (tagged h tag l).
Qed.

Lemma gt_update_other i d k :
  k ∉ written → gt_update i d !! k = d !! k.
Proof.
  intros Hk. unfold written in Hk. rewrite !not_elem_of_cons in Hk.
  destruct Hk as (? & ? & ? & ? & ? & ? & _).
  unfold gt_update. cbn zeta. by rewrite !lookup_insert_ne.
Qed.

Lemma pred_update_other i d k :
  k ∉ written → pred_update i d !! k = d !! k.
Proof.
  intros Hk. unfold written in Hk. rewrite !not_elem_of_cons in Hk.
  destruct Hk as (? & ? & ? & ? & ? & ? & _).
  unfold pred_update. cbn zeta. by rewrite !lookup_insert_ne.
Qed.

Ltac not_written :=
  unfold written; rewrite !not_elem_of_cons;
  split_and!; [done..|apply not_elem_of_nil].

Lemma gt_update_pred_fields i d : pred_fields d → pred_fields (gt_update i d).
Proof.
  unfold pred_fields. by rewrite !(gt_update_other i d) by not_written.
Qed.

Section records.
Variables (h : heap) (data : list loc).
Hypothesis Hnd : NoDup data.
Hypothesis Hok : Forall (record_fields h) data.

Local Abbreviation gt_ls := (filter (λ l, tagged h "is_gold" l) data).
Local Abbreviation pred_ls := (filter (λ l, tagged h "is_pred" l) data).
Local Abbreviation h1 := (mutate gt_update 0 gt_ls h).
Local Abbreviation h2 := (mutate pred_update 0 pred_ls h1).

Lemma gold_fields :
  Forall (λ l, ∃ d, dict_at h l = Some d ∧ gt_fields d) gt_ls.
Proof.
  apply Forall_forall. intros l [Ht Hl]%list_elem_of_filter.
  destruct (proj1 (Forall_forall _ _) Hok l Hl) as (d & Hd & _ & _ & Hg & _).
  eauto.
Qed.

(** What the ground-truth loop leaves at a record of [data]. *)
Lemma after_gold l d :
  l ∈ data → dict_at h l = Some d →
  ∃ d1, dict_at h1 l = Some d1 ∧
        (∀ k, k ∉ written → d1 !! k = d !! k) ∧
        (l ∉ gt_ls → d1 = d) ∧
        (∀ j, gt_ls !! j = Some l → d1 = gt_update j d).
Proof.
  intros Hl Hd. destruct (decide (l ∈ gt_ls)) as [Hin|Hin].
  - apply list_elem_of_lookup in Hin as [j Hj].
    pose proof (mutate_at gt_update gt_ls 0 h j l d
                  (NoDup_filter _ _ Hnd) Hj Hd) as Hnew. simpl in Hnew.
    exists (gt_update j d). split_and!; [done| | |].
    + intros k Hk. by apply gt_update_other.
    + intros Hno. destruct Hno. by eapply list_elem_of_lookup_2.
    + intros j' Hj'.
      by rewrite (NoDup_lookup _ _ _ _ (NoDup_filter _ _ Hnd) Hj' Hj).
  - exists d. split_and!; [by rewrite mutate_dict_notin|done..|].
    intros j Hj. destruct Hin. by eapply list_elem_of_lookup_2.
Qed.

Lemma tagged_after_gold l :
  l ∈ data → tagged h1 "is_pred" l = tagged h "is_pred" l.
Proof.
  intros Hl.
  destruct (proj1 (Forall_forall _ _) Hok l Hl) as (d & Hd & _).
  destruct (after_gold l d Hl Hd) as (d1 & Hd1 & Hsame & _).
  rewrite (tagged_at _ _ _ _ Hd1), (tagged_at _ _ _ _ Hd).
  rewrite Hsame; [done|]. not_written.
Qed.

Lemma pred_fields_after_gold :
  Forall (λ l, ∃ d, dict_at h1 l = Some d ∧ pred_fields d) pred_ls.
Proof.
  apply Forall_forall. intros l [Ht Hl]%list_elem_of_filter.
  destruct (proj1 (Forall_forall _ _) Hok l Hl)
    as (d & Hd & _ & _ & _ & Hp).
  destruct (after_gold l d Hl Hd) as (d1 & Hd1 & _ & Hout & Hin).
  exists d1. split; [done|].
  destruct (decide (l ∈ gt_ls)) as [[j Hj]%list_elem_of_lookup|Hno].
  - rewrite (Hin j Hj). by apply gt_update_pred_fields, Hp.
  - rewrite (Hout Hno). by apply Hp.
Qed.

Lemma json_to_Data_run :
  json_to_Data data h
  = Ok ((mkData "test_gt" gt_ls (rebuilt_classes h1 gt_ls)
                (rebuilt_images h1 gt_ls),
         mkData "test_pred" pred_ls (rebuilt_classes h2 pred_ls)
                (rebuilt_images h2 pred_ls)), h2).
Proof.
  pose proof (NoDup_filter (λ l, tagged h "is_gold" l) _ Hnd) as Hndg.
  pose proof (NoDup_filter (λ l, tagged h "is_pred" l) _ Hnd) as Hndp.
  pose proof gold_fields as Hgold.
  pose proof pred_fields_after_gold as Hpred.
  destruct (phase_wf gt_update gt_fields "gold"
              (λ i d, proj1 (gt_update_lookup i d))
              (λ i d, proj1 (proj2 (gt_update_lookup i d)))
              (λ i d, proj1 (proj2 (proj2 (gt_update_lookup i d))))
              gt_fields_ok h gt_ls Hndg Hgold) as [Hwf1 Hids1].
  destruct (phase_wf pred_update pred_fields "pred"
              (λ i d, proj1 (pred_update_lookup i d))
              (λ i d, proj1 (proj2 (pred_update_lookup i d)))
              (λ i d, proj1 (proj2 (proj2 (pred_update_lookup i d))))
              pred_fields_ok h1 pred_ls Hndp Hpred) as [Hwf2 Hids2].
  unfold json_to_Data.
  rewrite (bind_ok _ _ _ gt_ls h).
  2:{ apply tagged_run. eapply Forall_impl; [exact Hok|].
      intros l (d & Hd & Hg & _). eauto. }
  erewrite bind_ok;
    [|apply (mutate_loop_run gt_update gt_fields);
      [intros; by apply gt_body_run|done..]].
  cbv beta.
  mstep (class_loop_run h1 gt_ls Hwf1).
  rewrite (bind_ok _ _ _ pred_ls h1).
  2:{ rewrite tagged_run.
      - do 2 f_equal. apply filter_ext_in. intros l Hl.
        by rewrite tagged_after_gold.
      - apply Forall_forall. intros l Hl.
        destruct (proj1 (Forall_forall _ _) Hok l Hl)
          as (d & Hd & _ & Hp & _).
        destruct (after_gold l d Hl Hd) as (d1 & Hd1 & Hsame & _).
        exists d1. split; [done|]. rewrite Hsame; [done|]. not_written. }
  erewrite bind_ok;
    [|apply (mutate_loop_run pred_update pred_fields);
      [intros; by apply pred_body_run|done..]].
  cbv beta.
  mstep (class_loop_run h2 pred_ls Hwf2).
  unfold ret. do 3 f_equal.
  - f_equal. unfold rebuilt_images. do 2 f_equal.
    apply (phase_images gt_update gt_fields "gold"
             (λ i d, proj1 (gt_update_lookup i d))
             (λ i d, proj1 (proj2 (gt_update_lookup i d)))
             (λ i d, proj1 (proj2 (proj2 (gt_update_lookup i d))))
             gt_fields_ok h gt_ls Hndg Hgold).
  - f_equal. unfold rebuilt_images. do 2 f_equal.
    apply (phase_images pred_update pred_fields "pred"
             (λ i d, proj1 (pred_update_lookup i d))
             (λ i d, proj1 (proj2 (pred_update_lookup i d)))
             (λ i d, proj1 (proj2 (proj2 (pred_update_lookup i d))))
             pred_fields_ok h1 pred_ls Hndp Hpred).
Qed.

End records.

Lemma update_written i d :
  (gt_update i d !! "mask" = Some VNone ∧
   gt_update i d !! "ignore" = Some (VBool false) ∧
   gt_update i d !! "bbox" = Some (default VNone (d !! "bbox_xywh"))) ∧
  (pred_update i d !! "mask" = Some VNone ∧
   pred_update i d !! "ignore" = Some (VBool false) ∧
   pred_update i d !! "bbox" = Some (default VNone (d !! "bbox_xywh"))).
Proof.
  unfold gt_update, pred_update. cbn zeta. split_and!.
  - do 3 (rewrite lookup_insert_ne by done). apply lookup_insert_eq.
  - do 2 (rewrite lookup_insert_ne by done). apply lookup_insert_eq.
  - rewrite lookup_insert_eq. by rewrite !lookup_insert_ne.
  - do 4 (rewrite lookup_insert_ne by done). apply lookup_insert_eq.
  - do 3 (rewrite lookup_insert_ne by done). apply lookup_insert_eq.
  - rewrite lookup_insert_eq. by rewrite !lookup_insert_ne.
Qed.

Section shared.
Variables (h : heap) (data : list loc).
Hypothesis Hnd : NoDup data.
Hypothesis Hok : Forall (record_fields h) data.

Local Abbreviation gt_ls := (filter (λ l, tagged h "is_gold" l) data).
Local Abbreviation pred_ls := (filter (λ l, tagged h "is_pred" l) data).
Local Abbreviation h1 := (mutate gt_update 0 gt_ls h).
Local Abbreviation h2 := (mutate pred_update 0 pred_ls h1).

(** What the two loops leave at a record of [data]. *)
Lemma after_loops l d :
  l ∈ data → dict_at h l = Some d →
  ∃ d1 d2,
    dict_at h1 l = Some d1 ∧ dict_at h2 l = Some d2 ∧
    (∀ k, k ∉ written → d1 !! k = d !! k) ∧
    (∀ k, k ∉ written → d2 !! k = d !! k) ∧
    (l ∉ gt_ls → d1 = d) ∧
    (∀ i, gt_ls !! i = Some l → d1 = gt_update i d) ∧
    (l ∉ pred_ls → d2 = d1) ∧
    (∀ j, pred_ls !! j = Some l → d2 = pred_update j d1).
Proof.
  intros Hl Hd.
  destruct (after_gold h data Hnd l d Hl Hd) as (d1 & Hd1 & Hs1 & Ho1 & Hi1).
  exists d1. destruct (decide (l ∈ pred_ls)) as [Hin|Hin].
  - apply list_elem_of_lookup in Hin as [j Hj].
    pose proof (mutate_at pred_update pred_ls 0 h1 j l d1
                  (NoDup_filter _ _ Hnd) Hj Hd1) as Hnew. simpl in Hnew.
    exists (pred_update j d1). split_and!; [done..| | | | |].
    + intros k Hk. rewrite pred_update_other by done. by apply Hs1.
    + done.
    + done.
    + intros Hno. destruct Hno. by eapply list_elem_of_lookup_2.
    + intros j' Hj'.
      by rewrite (NoDup_lookup _ _ _ _ (NoDup_filter _ _ Hnd) Hj' Hj).
  - exists d1. split_and!; [done|by rewrite mutate_dict_notin|done..|].
    intros j Hj. destruct Hin. by eapply list_elem_of_lookup_2.
Qed.

Lemma record_dict l : l ∈ data → is_Some (dict_at h l).
Proof.
  intros Hl. destruct (proj1 (Forall_forall _ _) Hok l Hl) as (d & Hd & _).
  eauto.
Qed.

Lemma preds_phase :
  Forall (wf_ann h2) pred_ls ∧
  ∀ i l, pred_ls !! i = Some l → ann_id h2 l = Some (Z.of_nat i).
Proof.
  apply (phase_wf pred_update pred_fields "pred"
           (λ i d, proj1 (pred_update_lookup i d))
           (λ i d, proj1 (proj2 (pred_update_lookup i d)))
           (λ i d, proj1 (proj2 (proj2 (pred_update_lookup i d))))
           pred_fields_ok h1 pred_ls (NoDup_filter _ _ Hnd)
           (pred_fields_after_gold h data Hnd Hok)).
Qed.

Lemma gts_phase :
  Forall (wf_ann h1) gt_ls ∧
  ∀ i l, gt_ls !! i = Some l → ann_id h1 l = Some (Z.of_nat i).
Proof.
  apply (phase_wf gt_update gt_fields "gold"
           (λ i d, proj1 (gt_update_lookup i d))
           (λ i d, proj1 (proj2 (gt_update_lookup i d)))
           (λ i d, proj1 (proj2 (proj2 (gt_update_lookup i d))))
           gt_fields_ok h gt_ls (NoDup_filter _ _ Hnd)
           (gold_fields h data Hok)).
Qed.

(** The views of a record after the loops, by the lists it is in. *)
Lemma pred_views j l :
  pred_ls !! j = Some l →
  ann_id h2 l = Some (Z.of_nat j) ∧
  ann_class h2 l = field h l "pred" ≫= int_of ∧
  field h2 l "score" = field h l "confidence".
Proof.
  intros Hj.
  pose proof (list_elem_of_lookup_2 _ _ _ Hj) as [Ht Hl]%list_elem_of_filter.
  destruct (proj1 (Forall_forall _ _) Hok l Hl)
    as (d & Hd & _ & _ & _ & Hp).
  destruct (Hp Ht) as (_ & _ & _ & [c Hc]).
  destruct (after_loops l d Hl Hd)
    as (d1 & d2 & Hd1 & Hd2 & Hs1 & _ & _ & _ & _ & Hin).
  rewrite (Hin j Hj) in Hd2.
  destruct (pred_update_lookup j d1) as (Hid & Hcl & _ & Hsc).
  unfold ann_id, ann_class, field. rewrite Hd2, Hd. simpl.
  rewrite Hid, Hcl, Hsc, !Hs1 by not_written. simpl. split_and!.
  - done.
  - by destruct (d !! "pred").
  - by rewrite Hc.
Qed.

Lemma gold_views i l :
  gt_ls !! i = Some l →
  ann_id h1 l = Some (Z.of_nat i) ∧
  ann_class h1 l = field h l "gold" ≫= int_of ∧
  ann_image h1 l = ann_image h l ∧
  (l ∉ pred_ls → dict_at h2 l = dict_at h1 l).
Proof.
  intros Hi.
  pose proof (list_elem_of_lookup_2 _ _ _ Hi) as [Ht Hl]%list_elem_of_filter.
  destruct (proj1 (Forall_forall _ _) Hok l Hl)
    as (d & Hd & _ & _ & Hg & _).
  destruct (phase_views gt_update gt_fields "gold"
              (λ i d, proj1 (gt_update_lookup i d))
              (λ i d, proj1 (proj2 (gt_update_lookup i d)))
              (λ i d, proj1 (proj2 (proj2 (gt_update_lookup i d))))
              gt_fields_ok h gt_ls i l d (NoDup_filter _ _ Hnd) Hi Hd (Hg Ht))
    as (Hid & Hc & Him & _).
  split_and!; [done| |done|].
  - rewrite Hc. unfold field. by rewrite Hd.
  - intros Hno. by apply mutate_dict_notin.
Qed.

End shared.

Lemma scenario_record_fields :
  NoDup scenario_data ∧ Forall (record_fields scenario_heap) scenario_data.
Proof.
  split.
  - apply NoDup_cons. split; [|apply NoDup_singleton].
    by intros ?%list_elem_of_singleton.
  - apply Forall_cons. split; [|apply Forall_cons; split; [|done]].
    + eexists. split; [reflexivity|]. split_and!; try by eexists.
      all: try (intros _; split_and!; by eexists).
      all: try (intros H; by vm_compute in H).
    + eexists. split; [reflexivity|]. split_and!; try by eexists.
      all: try (intros _; split_and!; by eexists).
      all: try (intros H; by vm_compute in H).
Qed.

Lemma both_record_fields :
  NoDup both_data ∧ Forall (record_fields both_heap) both_data.
Proof.
  split.
  - apply NoDup_cons. split; [|apply NoDup_singleton].
    by intros ?%list_elem_of_singleton.
  - apply Forall_cons. split; [|apply Forall_cons; split; [|done]].
    + eexists. split; [reflexivity|]. split_and!; try by eexists.
      all: try (intros _; split_and!; by eexists).
      all: try (intros H; by vm_compute in H).
    + eexists. split; [reflexivity|]. split_and!; try by eexists.
      all: try (intros _; split_and!; by eexists).
      all: try (intros H; by vm_compute in H).
Qed.

(** X11. The importer works in place.  For distinct records whose tags are
    immediate values and that have the fields their tags ask for, the call
    succeeds; the annotations of the two datasets are the records themselves,
    selected by the truth value of [is_gold] and of [is_pred], in input
    order; no object is allocated and every object that is not a selected
    record is left as it was; on every object, the fields other than [_id],
    [mask], [ignore], [class], [bbox] and [score] keep their value; every
    annotation ends with [mask] [None], [ignore] [False] and [bbox] its
    [bbox_xywh]. *)
Theorem importer_in_place h data :
  NoDup data →
  Forall (record_fields h) data →
  ∃ gts preds h',
    json_to_Data data h = Ok ((gts, preds), h') ∧
    annotations gts = filter (λ l, tagged h "is_gold" l) data ∧
    annotations preds = filter (λ l, tagged h "is_pred" l) data ∧
    length h' = length h ∧
    (∀ l, l ∉ annotations gts → l ∉ annotations preds → h' !! l = h !! l) ∧
    (∀ l k, k ∉ written → field h' l k = field h l k) ∧
    (∀ l, l ∈ annotations gts ∨ l ∈ annotations preds →
          field h' l "mask" = Some VNone ∧
          field h' l "ignore" = Some (VBool false) ∧
          field h' l "bbox" = field h l "bbox_xywh").
Proof.
  intros Hnd Hok.
  eexists _, _, _. split; [by apply json_to_Data_run|]. simpl.
  set (gt_ls := filter (λ l, tagged h "is_gold" l) data).
  set (pred_ls := filter (λ l, tagged h "is_pred" l) data).
  set (h1 := mutate gt_update 0 gt_ls h).
  set (h2 := mutate pred_update 0 pred_ls h1).
  split_and!; [done|done| | | |].
  - unfold h2, h1. by rewrite !mutate_length.
  - intros l Hg Hp. unfold h2, h1. by rewrite !mutate_notin.
  - intros l k Hk.
    destruct (decide (l ∈ data)) as [Hl|Hl].
    + destruct (record_dict h data Hok l Hl) as [d Hd].
      destruct (after_loops h data Hnd l d Hl Hd)
        as (d1 & d2 & _ & Hd2 & _ & Hs2 & _).
      fold gt_ls pred_ls h1 h2 in Hd2.
      unfold field. rewrite Hd2, Hd. simpl. by apply Hs2.
    + unfold field, dict_at, h2, h1. rewrite !mutate_notin; [done|..].
      * intros [_ ?]%list_elem_of_filter. done.
      * intros [_ ?]%list_elem_of_filter. done.
  - intros l Hl.
    assert (l ∈ data) as Hld.
    { destruct Hl as [Hl|Hl]; by apply list_elem_of_filter in Hl as [_ ?]. }
    destruct (proj1 (Forall_forall _ _) Hok l Hld)
      as (d & Hd & _ & _ & Hgf & Hpf).
    destruct (after_loops h data Hnd l d Hld Hd)
      as (d1 & d2 & Hd1 & Hd2 & Hs1 & Hs2 & Hg0 & Hg1 & Hp0 & Hp1).
    fold gt_ls pred_ls h1 h2 in Hd1, Hd2, Hg0, Hg1, Hp0, Hp1.
    assert (is_Some (d !! "bbox_xywh")) as [b Hb].
    { destruct Hl as [[Ht _]%list_elem_of_filter|[Ht _]%list_elem_of_filter].
      - by destruct (Hgf Ht) as (_ & ? & _).
      - by destruct (Hpf Ht) as (_ & ? & _). }
    assert (d1 !! "bbox_xywh" = Some b) as Hb1
      by (rewrite Hs1; [done|not_written]).
    unfold field. rewrite Hd2, Hd. simpl. rewrite Hb.
    destruct (decide (l ∈ pred_ls)) as [[j Hj]%list_elem_of_lookup|Hnp].
    + rewrite (Hp1 j Hj).
      destruct (update_written j d1) as [_ (-> & -> & ->)].
      by rewrite Hb1.
    + rewrite (Hp0 Hnp).
      destruct Hl as [[i Hi]%list_elem_of_lookup|Hl]; [|done].
      rewrite (Hg1 i Hi).
      destruct (update_written i d) as [(-> & -> & ->) _].
      by rewrite Hb.
Qed.

Lemma importer_in_place_witness :
  ∃ gts preds h',
    json_to_Data scenario_data scenario_heap = Ok ((gts, preds), h') ∧
    annotations gts
    = filter (λ l, tagged scenario_heap "is_gold" l) scenario_data ∧
    annotations preds
    = filter (λ l, tagged scenario_heap "is_pred" l) scenario_data ∧
    length h' = length scenario_heap ∧
    (∀ l, l ∉ annotations gts → l ∉ annotations preds →
          h' !! l = scenario_heap !! l) ∧
    (∀ l k, k ∉ written → field h' l k = field scenario_heap l k) ∧
    (∀ l, l ∈ annotations gts ∨ l ∈ annotations preds →
          field h' l "mask" = Some VNone ∧
          field h' l "ignore" = Some (VBool false) ∧
          field h' l "bbox" = field scenario_heap l "bbox_xywh").
Proof.
  exact (importer_in_place scenario_heap scenario_data
           (proj1 scenario_record_fields) (proj2 scenario_record_fields)).
Defined.

(** X12. Records that carry both tags.  Under the same hypotheses, records
    with both tags allowed, the prediction dataset always satisfies
    invariants 1 to 3, with [class] the [pred] label and [score] the
    [confidence].  A ground truth that is not a prediction has its position
    as [_id] and its [gold] label as [class]; a ground truth that is also a
    prediction ends with its position among the predictions as [_id] and its
    [pred] label as [class].  The [classes] and [images] of the ground-truth
    dataset still describe what the ground-truth loop wrote: the gold labels,
    and the positions among the ground truths. *)
Theorem importer_shared_records h data :
  NoDup data →
  Forall (record_fields h) data →
  ∃ gts preds h',
    json_to_Data data h = Ok ((gts, preds), h') ∧
    Invariants h' preds ∧ images_exact h' preds ∧
    (∀ l, l ∈ annotations preds →
          ann_class h' l = field h l "pred" ≫= int_of ∧
          field h' l "score" = field h l "confidence") ∧
    (∀ i l, annotations gts !! i = Some l → l ∉ annotations preds →
            ann_id h' l = Some (Z.of_nat i) ∧
            ann_class h' l = field h l "gold" ≫= int_of) ∧
    (∀ i j l, annotations gts !! i = Some l → annotations preds !! j = Some l →
              ann_id h' l = Some (Z.of_nat j) ∧
              ann_class h' l = field h l "pred" ≫= int_of) ∧
    (∀ c, c ∈ dom (classes gts) ↔
          ∃ l, l ∈ annotations gts ∧ field h l "gold" ≫= int_of = Some c) ∧
    (∀ k img id, images gts !! k = Some img →
       (id ∈ anns img ↔
        ∃ i l, annotations gts !! i = Some l ∧ ann_image h l = Some k ∧
               id = Z.of_nat i)).
Proof.
  intros Hnd Hok.
  eexists _, _, _. split; [by apply json_to_Data_run|]. simpl.
  set (gt_ls := filter (λ l, tagged h "is_gold" l) data).
  set (pred_ls := filter (λ l, tagged h "is_pred" l) data).
  set (h1 := mutate gt_update 0 gt_ls h).
  set (h2 := mutate pred_update 0 pred_ls h1).
  destruct (preds_phase h data Hnd Hok) as [Hwf2 Hids2].
  destruct (gts_phase h data Hnd Hok) as [Hwf1 Hids1].
  fold gt_ls pred_ls h1 h2 in Hwf2, Hids2, Hwf1, Hids1.
  destruct (rebuilt_Invariants h2 pred_ls Hwf2 Hids2 "test_pred") as [Hip Hep].
  destruct (rebuilt_Invariants h1 gt_ls Hwf1 Hids1 "test_gt") as [Hig Heg].
  pose proof (pred_views h data Hnd Hok) as Hpv.
  pose proof (gold_views h data Hnd Hok) as Hgv.
  fold gt_ls pred_ls h1 h2 in Hpv, Hgv.
  split_and!; [done|done| | | | |].
  - intros l [j Hj]%list_elem_of_lookup.
    by destruct (Hpv j l Hj) as (_ & ? & ?).
  - intros i l Hi Hno.
    destruct (Hgv i l Hi) as (Hid & Hc & _ & Hsame).
    destruct (views_dict_eq h1 h2 l (Hsame Hno)) as (-> & -> & _).
    done.
  - intros i j l _ Hj. by destruct (Hpv j l Hj) as (? & ? & _).
  - intros c. rewrite (inv_classes _ _ Hig). simpl.
    split; intros (l & Hl & Hc); exists l; (split; [done|]);
      apply list_elem_of_lookup in Hl as [i Hi];
      destruct (Hgv i l Hi) as (_ & Hcl & _); congruence.
  - intros k img id Hk. destruct Heg as [_ Heg].
    destruct (Heg k img Hk) as [_ Hin]. rewrite Hin. simpl. split.
    + intros (l & [i Hi]%list_elem_of_lookup & Him & Hid).
      destruct (Hgv i l Hi) as (Hid' & _ & Him' & _).
      exists i, l. split_and!; [done|congruence|congruence].
    + intros (i & l & Hi & Him & ->).
      destruct (Hgv i l Hi) as (Hid' & _ & Him' & _).
      exists l. split_and!; [by eapply list_elem_of_lookup_2|congruence|done].
Qed.

Lemma importer_shared_records_witness :
  ∃ gts preds h',
    json_to_Data both_data both_heap = Ok ((gts, preds), h') ∧
    Invariants h' preds ∧ images_exact h' preds ∧
    (∀ l, l ∈ annotations preds →
          ann_class h' l = field both_heap l "pred" ≫= int_of ∧
          field h' l "score" = field both_heap l "confidence") ∧
    (∀ i l, annotations gts !! i = Some l → l ∉ annotations preds →
            ann_id h' l = Some (Z.of_nat i) ∧
            ann_class h' l = field both_heap l "gold" ≫= int_of) ∧
    (∀ i j l, annotations gts !! i = Some l → annotations preds !! j = Some l →
              ann_id h' l = Some (Z.of_nat j) ∧
              ann_class h' l = field both_heap l "pred" ≫= int_of) ∧
    (∀ c, c ∈ dom (classes gts) ↔
          ∃ l, l ∈ annotations gts ∧
               field both_heap l "gold" ≫= int_of = Some c) ∧
    (∀ k img id, images gts !! k = Some img →
       (id ∈ anns img ↔
        ∃ i l, annotations gts !! i = Some l ∧
               ann_image both_heap l = Some k ∧ id = Z.of_nat i)).
Proof.
  exact (importer_shared_records both_heap both_data
           (proj1 both_record_fields) (proj2 both_record_fields)).
Defined.

(** X13. Every record needs the key [is_gold], a prediction too: if a
    record has no [is_gold] (those before it having one), the importer raises
    [KeyError "is_gold"]. *)
Theorem importer_missing_tag h data ls1 l ls2 d :
  data = ls1 ++ l :: ls2 →
  Forall (λ x, ∃ dx, dict_at h x = Some dx ∧
                     is_Some (dx !! "is_gold" ≫= truth)) ls1 →
  dict_at h l = Some d →
  d !! "is_gold" = None →
  json_to_Data data h = Raise (KeyError "is_gold").
Proof.
  intros -> Hok Hd Hno. unfold json_to_Data. apply bind_raise.
  apply filterM_raise.
  - eapply Forall_impl; [exact Hok|]. intros x (dx & Hdx & [b Hb]). simpl.
    destruct (dx !! "is_gold") as [v|] eqn:Hv; [simpl in Hb|done].
    exists b.
    assert (field h x "is_gold" = Some v) as Hf by (apply field_Some; eauto).
    mstep (getitem_ok _ _ _ _ Hf). by apply truth_run.
  - apply bind_raise. by apply (getitem_missing _ _ _ d).
Qed.

Lemma importer_missing_tag_witness :
  json_to_Data (annotations sample_gts) sample_heap
  = Raise (KeyError "is_gold").
Proof.
  eapply (importer_missing_tag sample_heap (annotations sample_gts)
            [] 0 [1]).
  - reflexivity.
  - constructor.
  - reflexivity.
  - reflexivity.
Defined.

(** ** Enlarging a union of selections *)

Lemma enlarged_gts_union h preds gk pk gk' pk' :
  enlarged_gts h preds (gk ∪ gk') (pk ∪ pk')
  = enlarged_gts h preds gk pk ∪ enlarged_gts h preds gk' pk'.
Proof.
  apply set_eq. intros g. unfold enlarged_gts.
  rewrite !elem_of_union, !elem_of_assoc_gts_set. split.
  - intros [[?|?]|(l & Hl & Hmw & i & Hi & [?|?]%elem_of_union)].
    + by left; left.
    + by right; left.
    + left; right. eauto 10.
    + right; right. eauto 10.
  - intros [[?|(l & Hl & Hmw & i & Hi & ?)]|[?|(l & Hl & Hmw & i & Hi & ?)]].
    + by left; left.
    + right. exists l. split_and!; [done..|]. exists i. split; [done|].
      by apply elem_of_union_l.
    + by left; right.
    + right. exists l. split_and!; [done..|]. exists i. split; [done|].
      by apply elem_of_union_r.
Qed.

Lemma enlarged_preds_union h preds gk pk gk' pk' :
  Forall (wf_ann h) (annotations preds) →
  enlarged_preds h preds (gk ∪ gk') (pk ∪ pk')
  = enlarged_preds h preds gk pk ∪ enlarged_preds h preds gk' pk'.
Proof.
  intros Hwf. apply set_eq. intros p. unfold enlarged_preds.
  rewrite enlarged_gts_union.
  rewrite !elem_of_union, !elem_of_assoc_preds_set by done. split.
  - intros [(l & Hl & Hi & g & Hmw & [?|?]%elem_of_union)|[?|?]].
    + left; left. eauto 10.
    + right; left. eauto 10.
    + by left; right.
    + by right; right.
  - intros [[(l & Hl & Hi & g & Hmw & ?)|?]|[(l & Hl & Hi & g & Hmw & ?)|?]].
    + left. exists l. split_and!; [done..|]. exists g. split; [done|].
      by apply elem_of_union_l.
    + by right; left.
    + left. exists l. split_and!; [done..|]. exists g. split; [done|].
      by apply elem_of_union_r.
    + by right; right.
Qed.

(** X14. Enlarging distributes over unions: the ids returned for the union
    of two selections are the ids returned for the one together with the ids
    returned for the other, for the ground truths and for the predictions.
    So selections can be enlarged piece by piece. *)
Theorem enlarge_union h gts preds gk pk gk' pk' :
  Forall (wf_ann h) (annotations gts) →
  Forall (wf_pred h) (annotations preds) →
  ∃ ge pe (gm pm : gmap nat Z) h1 ge' pe' (gm' pm' : gmap nat Z) h2
    gu pu (gmu pmu : gmap nat Z) h3,
    enlarge_dataset_to_respect_TIDE gts preds gk pk h
    = Ok ((ge, pe, gm, pm), h1) ∧
    enlarge_dataset_to_respect_TIDE gts preds gk' pk' h
    = Ok ((ge', pe', gm', pm'), h2) ∧
    enlarge_dataset_to_respect_TIDE gts preds (gk ∪ gk') (pk ∪ pk') h
    = Ok ((gu, pu, gmu, pmu), h3) ∧
    (map_img gmu : gset Z) = map_img gm ∪ map_img gm' ∧
    (map_img pmu : gset Z) = map_img pm ∪ map_img pm'.
Proof.
  intros Hg Hp.
  pose proof (wf_pred_wf_ann _ _ Hp) as Hpa.
  eexists _, _, _, _, _, _, _, _, _, _, _, _, _, _, _.
  split; [by apply enlarge_run|]. split; [by apply enlarge_run|].
  split; [by apply enlarge_run|].
  rewrite !new_to_old_values by (done || by apply Forall_wf_ann_app).
  unfold filtered_heap. rewrite !dataset_ids_app by done.
  rewrite enlarged_gts_union, enlarged_preds_union by done.
  split; apply set_eq; intros x;
    rewrite !elem_of_union, !elem_of_intersection, !elem_of_union; tauto.
Qed.

Lemma enlarge_union_witness :
  ∃ ge pe (gm pm : gmap nat Z) h1 ge' pe' (gm' pm' : gmap nat Z) h2
    gu pu (gmu pmu : gmap nat Z) h3,
    enlarge_dataset_to_respect_TIDE sample_gts sample_preds {[1%Z]} ∅
                                    sample_heap
    = Ok ((ge, pe, gm, pm), h1) ∧
    enlarge_dataset_to_respect_TIDE sample_gts sample_preds ∅ {[0%Z]}
                                    sample_heap
    = Ok ((ge', pe', gm', pm'), h2) ∧
    enlarge_dataset_to_respect_TIDE sample_gts sample_preds
                                    ({[1%Z]} ∪ ∅) (∅ ∪ {[0%Z]}) sample_heap
    = Ok ((gu, pu, gmu, pmu), h3) ∧
    (map_img gmu : gset Z) = map_img gm ∪ map_img gm' ∧
    (map_img pmu : gset Z) = map_img pm ∪ map_img pm'.
Proof.
  exact (enlarge_union sample_heap sample_gts sample_preds
           {[1%Z]} ∅ ∅ {[0%Z]}
           (inv_wf _ _ sample_gts_Invariants) sample_preds_wf).
Defined.

(** ** Filtering the result of the filter to all its ids *)

Lemma full_filter_same h d :
  Invariants h d →
  classes d = rebuilt_classes h (annotations d) →
  images d = rebuilt_images h (annotations d) →
  let full := full_ids (length (annotations d)) in
  same_dataset h d (filtered_heap h d full) (filtered h d full (name d)).1 ∧
  ∀ i, (filtered h d full (name d)).2 !! i
       = if decide (i < length (annotations d))
         then Some (Z.of_nat i) else None.
Proof.
  intros Hinv Hc Hi full. pose proof (inv_wf _ _ Hinv) as Hwf.
  unfold same_dataset, filtered, filtered_heap, full.
  rewrite selected_full by done. simpl. split_and!.
  - done.
  - unfold rebuilt_classes. by rewrite new_classes.
  - unfold rebuilt_images. rewrite new_image_ids by done.
    by rewrite full_image_ids.
  - symmetry. by apply full_contents.
  - intros i. rewrite lookup_map_seq_0, (ids_dense _ _ (inv_ids _ _ Hinv)).
    rewrite list_lookup_fmap. case_decide as Hlt.
    + by rewrite lookup_seq_lt.
    + by rewrite lookup_seq_ge by lia.
Qed.

(** X15. The result of the filter is stable: whatever the input's [classes]
    and [images] were, filtering the returned dataset to all of its ids
    returns a dataset equal to it, with the identity renumbering. *)
Theorem filter_output_stable h d keep nm :
  Forall (wf_ann h) (annotations d) →
  ∃ d1 m1 h1 d2 m2 h2,
    create_filtered_Data d keep nm h = Ok ((d1, m1), h1) ∧
    create_filtered_Data d1 (full_ids (length (annotations d1))) nm h1
    = Ok ((d2, m2), h2) ∧
    same_dataset h1 d1 h2 d2 ∧
    ∀ i, m2 !! i = if decide (i < length (annotations d1))
                   then Some (Z.of_nat i) else None.
Proof.
  intros Hwf.
  destruct (filtered_Invariants h d keep nm Hwf) as [Hinv1 _].
  pose proof (inv_wf _ _ Hinv1) as Hwf1.
  destruct (full_filter_same _ _ Hinv1 eq_refl eq_refl) as [Hsame Hmap].
  eexists (filtered h d keep nm).1, (filtered h d keep nm).2, _, _, _, _.
  split; [|split; [|split]].
  - rewrite create_filtered_Data_run by done. by do 2 f_equal.
  - rewrite create_filtered_Data_run by done. by do 2 f_equal.
  - exact Hsame.
  - exact Hmap.
Qed.

Lemma filter_output_stable_witness :
  ∃ d1 m1 h1 d2 m2 h2,
    create_filtered_Data cat_data {[0%Z]} filtered_data cat_heap
    = Ok ((d1, m1), h1) ∧
    create_filtered_Data d1 (full_ids (length (annotations d1))) filtered_data
                         h1 = Ok ((d2, m2), h2) ∧
    same_dataset h1 d1 h2 d2 ∧
    ∀ i, m2 !! i = if decide (i < length (annotations d1))
                   then Some (Z.of_nat i) else None.
Proof.
  exact (filter_output_stable cat_heap cat_data {[0%Z]} filtered_data
           (inv_wf _ _ cat_Invariants)).
Defined.

(** ** A selected annotation without [class] *)

Lemma mapL_raise {B} (f : loc → M B) ls1 l ls2 h e :
  Forall (λ x, ∃ y, f x h = Ok (y, h)) ls1 →
  f l h = Raise e →
  mapL f (ls1 ++ l :: ls2) h = Raise e.
Proof.
  intros Hok Hl. induction Hok as [|x ls1 [y Hy] _ IH]; cbn [mapL app].
  - by apply bind_raise.
  - mstep Hy. by apply bind_raise.
Qed.

(** X16. A selected annotation needs a [class]: if every annotation has an
    int [_id] and a selected annotation has no [class] (the selected ones
    before it being well formed), the call raises [KeyError "class"]. *)
Theorem filter_missing_class h d keep nm s1 l s2 m :
  Forall (λ x, is_Some (ann_id h x)) (annotations d) →
  selected h d keep = s1 ++ l :: s2 →
  Forall (wf_ann h) s1 →
  dict_at h l = Some m →
  m !! "class" = None →
  create_filtered_Data d keep nm h = Raise (KeyError "class").
Proof.
  intros Hids Hsel Hwf Hm Hno.
  assert (Forall (λ x, is_Some (ann_id h x)) (s1 ++ l :: s2)) as Hsids.
  { rewrite <- Hsel. apply Forall_forall.
    intros x [_ Hx]%list_elem_of_filter.
    by apply (proj1 (Forall_forall _ _) Hids). }
  unfold create_filtered_Data.
  mstep (select_run_ids h keep _ Hids). fold (selected h d keep).
  rewrite Hsel.
  mstep (copy_loop_run_ids _ 0 ∅ [] h Hsids). cbn [app].
  apply bind_raise.
  rewrite length_app. cbn [length]. rewrite seq_app. cbn [seq].
  apply mapL_raise.
  - apply Forall_lookup. intros j x [-> Hj]%lookup_seq.
    destruct (lookup_lt_is_Some_2 _ _ Hj) as [a Ha].
    pose proof (Forall_lookup_1 _ _ _ _ Hwf Ha) as Hwa.
    destruct (wf_ann_dict _ _ Hwa) as [da Hda].
    destruct (wf_ann_views _ _ Hwa) as (_ & Hc & _).
    apply ann_class_field, field_Some in Hc as (da' & Hda' & Hc).
    assert (da' = da) as -> by congruence.
    exists (class_of h a).
    assert (field (h ++ renumbered h 0 (s1 ++ l :: s2)) (length h + j) "class"
            = Some (VInt (class_of h a))) as Hf.
    { apply field_Some. exists (<["_id" := VInt (Z.of_nat j)]> da). split.
      - apply (new_ann_dict _ _ _ a); [|done]. by apply lookup_app_l_Some.
      - by rewrite lookup_insert_ne. }
    mstep (getitem_ok _ _ _ _ Hf). apply as_int_ok.
  - apply bind_raise.
    apply (getitem_missing _ _ _
             (<["_id" := VInt (Z.of_nat (length s1))]> m)).
    + apply (new_ann_dict _ _ _ l); [|done].
      by rewrite lookup_app_r, Nat.sub_diag.
    + by rewrite lookup_insert_ne.
Qed.

Lemma filter_missing_class_witness :
  create_filtered_Data partial_data {[1%Z]} filtered_data partial_heap
  = Raise (KeyError "class").
Proof.
  eapply (filter_missing_class partial_heap partial_data {[1%Z]}
            filtered_data [] 1 []).
  - repeat constructor; by eexists.
  - reflexivity.
  - constructor.
  - reflexivity.
  - reflexivity.
Defined.

(** ** A gold record without [gold] *)

Lemma for_enum_raise {St} (body : nat → loc → St → M St) ls1 l ls2 :
  ∀ i s h s' h' e,
    for_enum body i ls1 s h = Ok (s', h') →
    body (i + length ls1) l s' h' = Raise e →
    for_enum body i (ls1 ++ l :: ls2) s h = Raise e.
Proof.
  induction ls1 as [|x ls1 IH]; intros i s h s' h' e Hrun Hl.
  - injection Hrun as -> ->. rewrite Nat.add_0_r in Hl.
    cbn [app for_enum]. by apply bind_raise.
  - cbn [app for_enum] in *. unfold bind in Hrun |- *.
    destruct (body i x s h) as [[s1 h1]|e1]; [|done].
    apply (IH (S i) s1 h1 s' h' e Hrun).
    by rewrite Nat.add_succ_comm.
Qed.

(** X17. A gold record needs a [gold] label: if the records have immediate
    [is_gold] tags and some record selected as ground truth has no [gold]
    (the ground truths before it having their fields), the importer raises
    [KeyError "gold"]. *)
Theorem importer_missing_gold h data ls1 l ls2 d :
  NoDup data →
  Forall (λ x, ∃ dx, dict_at h x = Some dx ∧
                     is_Some (dx !! "is_gold" ≫= truth)) data →
  filter (λ x, tagged h "is_gold" x) data = ls1 ++ l :: ls2 →
  Forall (λ x, ∃ dx, dict_at h x = Some dx ∧ gt_fields dx) ls1 →
  dict_at h l = Some d →
  d !! "gold" = None →
  json_to_Data data h = Raise (KeyError "gold").
Proof.
  intros Hnd Htags Hsel Hok Hd Hno.
  pose proof (NoDup_filter (λ x, tagged h "is_gold" x) _ Hnd) as Hndg.
  rewrite Hsel in Hndg. apply NoDup_app in Hndg as (Hnd1 & Hnotin & _).
  unfold json_to_Data.
  mstep (tagged_run h "is_gold" data Htags). rewrite Hsel.
  apply bind_raise. eapply for_enum_raise.
  - apply (mutate_loop_run gt_update gt_fields);
      [intros; by apply gt_body_run|done..].
  - set (h1 := mutate gt_update 0 ls1 h).
    assert (dict_at h1 l = Some d) as Hd1.
    { unfold h1. rewrite mutate_dict_notin; [done|].
      intros Hin. apply (Hnotin l Hin). by left. }
    pose proof (dict_at_lt _ _ _ Hd1) as Hlt. simpl.
    mstep (setitem_ok _ _ _ "_id" (VInt (Z.of_nat (length ls1))) Hd1).
    mstep (setitem_at h1 l (<["_id" := VInt (Z.of_nat (length ls1))]> d)
             "mask" VNone Hlt).
    mstep (setitem_at h1 l
             (<["mask" := VNone]> (<["_id" := VInt (Z.of_nat (length ls1))]> d))
             "ignore" (VBool false) Hlt).
    apply bind_raise.
    eapply getitem_missing; [by apply dict_at_insert|].
    by rewrite !lookup_insert_ne.
Qed.

Lemma importer_missing_gold_witness :
  json_to_Data [0] unlabelled_heap = Raise (KeyError "gold").
Proof.
  eapply (importer_missing_gold unlabelled_heap [0] [] 0 []).
  - apply NoDup_singleton.
  - repeat constructor. eexists. split; [reflexivity|]. by eexists.
  - reflexivity.
  - constructor.
  - reflexivity.
  - reflexivity.
Defined.

(** ** Exactly what the enlarger returns *)

(** X18. Exactly what the enlarger returns.  The ground truths returned are
    the ground truths whose old id is kept or is the [matched_with] of a kept
    prediction, and no other.  The predictions returned are the predictions
    whose old id is kept, or whose [matched_with] is a kept ground-truth id or
    the [matched_with] of a kept prediction, and no other. *)
Theorem enlarge_exact h gts preds gk pk :
  Forall (wf_ann h) (annotations gts) →
  Forall (wf_pred h) (annotations preds) →
  ∃ ge pe (gm pm : gmap nat Z) h',
    enlarge_dataset_to_respect_TIDE gts preds gk pk h
    = Ok ((ge, pe, gm, pm), h') ∧
    let kept_match g :=
      ∃ l p, l ∈ annotations preds ∧ ann_id h l = Some p ∧ p ∈ pk ∧
             matched_with h l = Some g in
    (∀ g, g ∈ (map_img gm : gset Z) ↔
          g ∈ dataset_ids h gts ∧ (g ∈ gk ∨ kept_match g)) ∧
    (∀ p, p ∈ (map_img pm : gset Z) ↔
          p ∈ dataset_ids h preds ∧
          (p ∈ pk ∨
           ∃ l g, l ∈ annotations preds ∧ ann_id h l = Some p ∧
                  matched_with h l = Some g ∧ (g ∈ gk ∨ kept_match g))).
Proof.
  intros Hg Hp. pose proof (wf_pred_wf_ann _ _ Hp) as Hpa.
  eexists _, _, _, _, _. split; [by apply enlarge_run|].
  intros kept_match.
  rewrite !new_to_old_values by (done || by apply Forall_wf_ann_app).
  unfold filtered_heap. rewrite !dataset_ids_app by done.
  assert (∀ g, g ∈ enlarged_gts h preds gk pk ↔ g ∈ gk ∨ kept_match g) as Hfg.
  { intros g. unfold enlarged_gts, kept_match.
    rewrite elem_of_union, elem_of_assoc_gts_set. split.
    - intros [?|(l & Hl & Hmw & i & Hi & Hin)]; [by left|right]. eauto 10.
    - intros [?|(l & p & Hl & Hi & Hin & Hmw)]; [by left|right]. eauto 10. }
  split.
  - intros g. rewrite elem_of_intersection, Hfg. tauto.
  - intros p. rewrite elem_of_intersection. unfold enlarged_preds.
    rewrite elem_of_union, elem_of_assoc_preds_set by done.
    split.
    + intros [[(l & Hl & Hi & g & Hmw & Hin)|?] ?]; (split; [done|]);
        [right|by left].
      exists l, g. split_and!; [done..|]. by apply Hfg.
    + intros [? [?|(l & g & Hl & Hi & Hmw & Hin)]]; (split; [|done]);
        [by right|left].
      exists l. split_and!; [done..|]. exists g. split; [done|].
      by apply Hfg.
Qed.

Lemma enlarge_exact_witness :
  ∃ ge pe (gm pm : gmap nat Z) h',
    enlarge_dataset_to_respect_TIDE sample_gts sample_preds ∅ {[1%Z]}
                                    sample_heap
    = Ok ((ge, pe, gm, pm), h') ∧
    let kept_match g :=
      ∃ l p, l ∈ annotations sample_preds ∧ ann_id sample_heap l = Some p ∧
             p ∈ ({[1%Z]} : gset Z) ∧ matched_with sample_heap l = Some g in
    (∀ g, g ∈ (map_img gm : gset Z) ↔
          g ∈ dataset_ids sample_heap sample_gts ∧
          (g ∈ (∅ : gset Z) ∨ kept_match g)) ∧
    (∀ p, p ∈ (map_img pm : gset Z) ↔
          p ∈ dataset_ids sample_heap sample_preds ∧
          (p ∈ ({[1%Z]} : gset Z) ∨
           ∃ l g, l ∈ annotations sample_preds ∧
                  ann_id sample_heap l = Some p ∧
                  matched_with sample_heap l = Some g ∧
                  (g ∈ (∅ : gset Z) ∨ kept_match g))).
Proof.
  exact (enlarge_exact sample_heap sample_gts sample_preds ∅ {[1%Z]}
           (inv_wf _ _ sample_gts_Invariants) sample_preds_wf).
Defined.
